(** * Release-notes generator ([app.py]): shallow embedding and properties

    The Flask application of the repository is a handful of request
    handlers over a MongoDB store plus the text pipeline that turns JIRA
    tickets and upstream bug pages into a markdown document.  This file
    embeds the handlers and the pipeline as Rocq functions and proves the
    properties of the specification about them.

    Conventions of the embedding.
    - Python [str] is [string]: the UTF-8 bytes of the text (a lone
      surrogate as its three bytes).  Equality, concatenation and the
      code-point order of [sorted] are those of the bytes.  What goes by
      characters ([str.strip], the regular-expression classes [\s] and
      [\d], [str.upper], iteration) goes by the code points of the text,
      [chars]: white space is the set of [str.isspace], which is also that
      of [\s]; the decimal digits and the upper-case mappings outside ASCII
      are those of the interpreter's Unicode tables, which differ from one
      Python to the next and are fields of [World].
    - Values decoded from JSON or read from the store are [pyval]; the
      dynamic checks of the source ([isinstance], [in], [.get] with a
      default, truthiness) are kept, and an operation that Python refuses
      yields [Raise] with the exception that is raised.  Flask answers an
      uncaught exception with status 500.
    - Everything outside the repository (the clock, [str()] of a non-string
      value, the iteration order of a [set], the three HTTP collaborators,
      [bson.ObjectId], the store's [$set]) is a field of the class [World],
      with the laws the handlers rely on.
    - The interpreter's frame stack is taken to be deep enough for the
      document at hand: [recurse_at] is run with the nesting depth of the
      document as its budget, which it never uses up
      ([parse_jira_description_no_overflow]).
    - The HTTP layer is Flask's: a handler takes the route parameter and
      the decoded body of the request, a JSON object, and gives a status and
      a JSON body. *)

From Stdlib Require Import ZArith NArith Ascii String List Bool Lia.
From stdpp Require Import base option list gmap strings sorting.

Local Open Scope Z_scope.

(** ** Text and its code points *)

Definition byte (c : ascii) : N := N_of_ascii c.

(** A continuation byte of UTF-8 ([10xxxxxx]). *)
Definition continuation (c : ascii) : bool :=
  ((128 <=? byte c) && (byte c <? 192))%N.

(** The number of continuation bytes that a first byte announces. *)
Definition trail (c : ascii) : nat :=
  let n := byte c in
  if (n <? 192)%N then 0%nat
  else if (n <? 224)%N then 1%nat
  else if (n <? 240)%N then 2%nat
  else if (n <? 248)%N then 3%nat
  else 0%nat.

(** A continuation byte that no first byte has taken. *)
Definition stray (c : string) : bool :=
  match c with
  | String b EmptyString => continuation b
  | _ => false
  end.

(** The first [k] elements of [l] when they are stray continuation bytes,
    put together, and the elements after them. *)
Fixpoint take_strays (k : nat) (l : list string) : option (string * list string) :=
  match k with
  | O => Some (EmptyString, l)
  | S k' =>
      match l with
      | c :: l' =>
          if stray c then
            match take_strays k' l' with
            | Some (t, rest) => Some (c +:+ t, rest)
            | None => None
            end
          else None
      | [] => None
      end
  end.

(** A byte in front of the code points of what follows it: a first byte
    takes the continuation bytes it announces; any other byte, and a first
    byte that does not find them, stands alone. *)
Definition attach (b : ascii) (l : list string) : list string :=
  match take_strays (trail b) l with
  | Some (t, rest) => String b t :: rest
  | None => String b EmptyString :: l
  end.

(** The code points of a text, each as its bytes. *)
Fixpoint chars (s : string) : list string :=
  match s with
  | EmptyString => []
  | String b r => attach b (chars r)
  end.

(** The text of a list of code points. *)
Definition text (l : list string) : string := foldr String.append EmptyString l.

(** A text, and a list of code points, that does not start with a
    continuation byte left alone. *)
Definition led (s : string) : Prop :=
  match s with
  | String b _ => continuation b = false
  | EmptyString => True
  end.

Definition led_list (l : list string) : Prop :=
  match l with
  | c :: _ => stray c = false
  | [] => True
  end.

(** The number of a code point; none for bytes that encode no code point. *)
Definition codepoint (c : string) : option N :=
  match c with
  | String b0 EmptyString => if (byte b0 <? 128)%N then Some (byte b0) else None
  | String b0 (String b1 EmptyString) =>
      let n := ((byte b0 - 192) * 64 + (byte b1 - 128))%N in
      if (trail b0 =? 1)%nat && continuation b1 && (128 <=? n)%N then Some n else None
  | String b0 (String b1 (String b2 EmptyString)) =>
      let n := ((byte b0 - 224) * 4096 + (byte b1 - 128) * 64 + (byte b2 - 128))%N in
      if (trail b0 =? 2)%nat && continuation b1 && continuation b2 && (2048 <=? n)%N
      then Some n else None
  | String b0 (String b1 (String b2 (String b3 EmptyString))) =>
      let n := ((byte b0 - 240) * 262144 + (byte b1 - 128) * 4096
                + (byte b2 - 128) * 64 + (byte b3 - 128))%N in
      if (trail b0 =? 3)%nat && continuation b1 && continuation b2 && continuation b3
         && (65536 <=? n)%N
      then Some n else None
  | _ => None
  end.

(** ** Python values and exceptions *)

Inductive exn : Type :=
| AttributeError | TypeError | KeyError | IndexError | RecursionError
| InvalidId | WriteError.

Inductive outcome (A : Type) : Type :=
| Ok (a : A)
| Raise (e : exn).
Arguments Ok {A} a.
Arguments Raise {A} e.

#[global] Instance exn_eq_dec : EqDecision exn.
Proof. solve_decision. Defined.
#[global] Instance outcome_eq_dec {A} `{EqDecision A} : EqDecision (outcome A).
Proof. solve_decision. Defined.

#[global] Instance outcome_ret : MRet outcome := fun A a => Ok a.
#[global] Instance outcome_bind : MBind outcome := fun A B f m =>
  match m with
  | Ok a => f a
  | Raise e => Raise e
  end.

(** A [for] loop whose body may raise: the accumulator is threaded through
    the elements in order and the first exception ends the loop. *)
Fixpoint foldM {m : Type → Type} `{!MBind m, !MRet m} {A B : Type}
    (f : A → B → m A) (a : A) (l : list B) : m A :=
  match l with
  | [] => mret a
  | x :: l' => a' ← f a x; foldM f a' l'
  end.

(** Values as the JSON decoder and the MongoDB driver hand them to the code.
    A float is its IEEE-754 binary64 bit pattern; [PDate] and [PObjectId]
    only occur in stored documents.  A decoded object holds one entry per
    key. *)
#[warnings="-register-all"]
Inductive pyval : Type :=
| PNone
| PBool (b : bool)
| PInt (z : Z)
| PFloat (bits : Z)
| PStr (s : string)
| PList (l : list pyval)
| PDict (d : list (string * pyval))
| PDate (t : Z)
| PObjectId (o : N).

(** Python truthiness ([bool(v)]). *)
Definition truthy (v : pyval) : bool :=
  match v with
  | PNone => false
  | PBool b => b
  | PInt z => negb (z =? 0)
  | PFloat bits => negb (bits `mod` 2 ^ 63 =? 0)
  | PStr s => negb (String.eqb s "")
  | PList l => match l with [] => false | _ => true end
  | PDict d => match d with [] => false | _ => true end
  | PDate _ | PObjectId _ => true
  end.

(** [v == s] for a string literal [s]. *)
Definition str_eq (v : pyval) (s : string) : bool :=
  match v with
  | PStr s' => String.eqb s' s
  | _ => false
  end.

(** Dictionary access on the entries of an object. *)
Fixpoint dget (k : string) (d : list (string * pyval)) : option pyval :=
  match d with
  | [] => None
  | (k', v) :: d' => if String.eqb k' k then Some v else dget k d'
  end.

Definition dhas (k : string) (d : list (string * pyval)) : bool :=
  match dget k d with Some _ => true | None => false end.

(** [d[k] = v]: an existing key keeps its place, a new one goes last. *)
Fixpoint dset (k : string) (v : pyval) (d : list (string * pyval))
  : list (string * pyval) :=
  match d with
  | [] => [(k, v)]
  | (k', v') :: d' =>
      if String.eqb k' k then (k, v) :: d' else (k', v') :: dset k v d'
  end.

(** [v.get(k, dflt)]: only a [dict] has the method. *)
Definition py_get (v : pyval) (k : string) (dflt : pyval) : outcome pyval :=
  match v with
  | PDict d => Ok (default dflt (dget k d))
  | _ => Raise AttributeError
  end.

(** [v[0]]. *)
Definition py_first (v : pyval) : outcome pyval :=
  match v with
  | PList (x :: _) => Ok x
  | PList [] => Raise IndexError
  | PStr s => match chars s with
              | c :: _ => Ok (PStr c)
              | [] => Raise IndexError
              end
  | PDict _ => Raise KeyError
  | _ => Raise TypeError
  end.

(** What [for x in v] iterates over. *)
Definition py_iter (v : pyval) : outcome (list pyval) :=
  match v with
  | PList l => Ok l
  | PDict d => Ok (map (λ kv, PStr kv.1) d)
  | PStr s => Ok (map PStr (chars s))
  | _ => Raise TypeError
  end.

(** [sep.join(items)]: every item has to be a [str]. *)
Fixpoint py_strs (items : list pyval) : outcome (list string) :=
  match items with
  | [] => Ok []
  | PStr s :: items' => ss ← py_strs items'; Ok (s :: ss)
  | _ :: _ => Raise TypeError
  end.

Definition py_join (sep : string) (items : list pyval) : outcome string :=
  ss ← py_strs items; Ok (String.concat sep ss).

(** Nesting depth of a value, the number of frames a traversal of it can
    need. *)
Fixpoint nesting (v : pyval) : nat :=
  match v with
  | PList l => S (foldr (λ x n, Nat.max (nesting x) n) 0%nat l)
  | PDict d => S (foldr (λ kv n, Nat.max (nesting kv.2) n) 0%nat d)
  | _ => 0%nat
  end.

(** ** Text primitives *)

(** [str.isspace] of a code point, which is also the class [\s] and what
    [str.strip] removes. *)
Definition space_point (n : N) : bool :=
  ((9 <=? n) && (n <=? 13) || (28 <=? n) && (n <=? 32)
   || (n =? 0x85) || (n =? 0xA0) || (n =? 0x1680)
   || (0x2000 <=? n) && (n <=? 0x200A)
   || (n =? 0x2028) || (n =? 0x2029) || (n =? 0x202F) || (n =? 0x205F)
   || (n =? 0x3000))%N.

Definition isspace (c : string) : bool :=
  match codepoint c with
  | Some n => space_point n
  | None => false
  end.

(** The separator class [[,\s\n]] of the three list fields. *)
Definition is_sep (c : string) : bool := String.eqb c "," || isspace c.

(** [p] holds of every code point of [s]. *)
Definition all_chars (p : string → bool) (s : string) : bool := forallb p (chars s).

Fixpoint lstrip_chars (p : string → bool) (l : list string) : list string :=
  match l with
  | c :: r => if p c then lstrip_chars p r else l
  | [] => []
  end.

Definition rstrip_chars (p : string → bool) (l : list string) : list string :=
  rev (lstrip_chars p (rev l)).

Definition lstrip (p : string → bool) (s : string) : string :=
  text (lstrip_chars p (chars s)).

Definition rstrip (p : string → bool) (s : string) : string :=
  text (rstrip_chars p (chars s)).

(** [s.strip()]. *)
Definition strip (s : string) : string :=
  text (rstrip_chars isspace (lstrip_chars isspace (chars s))).

(** [re.split(r'[,\s\n]+', s)]: the pieces between maximal runs of
    separators; a run at either end leaves an empty piece there. *)
Fixpoint re_split_go (cur : list string) (in_run : bool) (l : list string)
  : list string :=
  match l with
  | [] => [text (rev cur)]
  | c :: r =>
      if is_sep c
      then (if in_run then re_split_go [] true r
            else text (rev cur) :: re_split_go [] true r)
      else re_split_go (c :: cur) false r
  end.

Definition re_split (s : string) : list string := re_split_go [] false (chars s).

(** A text that holds no separator. *)
Definition no_sep (s : string) : bool := all_chars (λ c, negb (is_sep c)) s.

(** [filter(None, re.split(...))]: the non-empty pieces. *)
Definition pieces (s : string) : list string :=
  filter (λ t, t ≠ "") (re_split s).

Definition dq : string := String "034" "".
Definition nl : string := String "010" "".

(** [sorted(xs)] on strings: ascending in the code-point order of [str]. *)
Definition sorted (xs : list string) : list string := merge_sort String.le xs.

(** [s.split('/')[-1]]: what follows the last slash. *)
Fixpoint last_segment_go (cur : string) (s : string) : string :=
  match s with
  | EmptyString => String.rev cur
  | String c r =>
      if Ascii.eqb c "/" then last_segment_go "" r
      else last_segment_go (String c cur) r
  end.

Definition last_segment (s : string) : string := last_segment_go "" s.

(** ** The text extractor (app.py, lines 29-40) *)

(** [recurse], with the number of nested calls it may still make as first
    argument.  The loop body reads [node.get("type")] first, so a node that
    is not an object raises before anything else is looked at. *)
Fixpoint recurse_at (depth : nat) (nodes : list pyval) (text_content : list pyval)
  : outcome (list pyval) :=
  match depth with
  | O => Raise RecursionError
  | S depth' =>
      foldM (λ text_content node,
        ty ← py_get node "type" PNone;
        match node with
        | PDict d =>
            let text_content :=
              if str_eq ty "text" && dhas "text" d
              then text_content ++ [default PNone (dget "text" d)]
              else text_content in
            match dget "content" d with
            | Some (PList content) => recurse_at depth' content text_content
            | _ => Ok text_content
            end
        | _ => Raise AttributeError
        end) text_content nodes
  end.

Definition parse_jira_description (description_field : pyval) : outcome string :=
  match description_field with
  | PDict d =>
      match dget "content" d with
      | Some content =>
          nodes ← py_iter content;
          text_content ← recurse_at (nesting description_field) nodes [];
          py_join " " text_content
      | None => Ok ""
      end
  | _ => Ok ""
  end.

(** ** The world outside the repository *)

(** The outbound HTTP requests, in the order they are made. *)
Inductive call : Type :=
| JiraGet (url : string) (email token : pyval)
| GeminiPost (api_url : string) (prompt : string)
| PageGet (url : string).

(** Field names and values for which the store's [$set] is known to be a
    plain assignment of top-level fields: names made of letters, digits and
    underscores other than [_id], values that BSON can hold. *)
Definition name_char (c : string) : bool :=
  match codepoint c with
  | Some n =>
      ((48 <=? n) && (n <=? 57) || (65 <=? n) && (n <=? 90)
       || (97 <=? n) && (n <=? 122) || (n =? 95))%N
  | None => false
  end.

Definition plain_name (k : string) : bool :=
  negb (String.eqb k "") && negb (String.eqb k "_id") && all_chars name_char k.

Fixpoint storable (v : pyval) : bool :=
  match v with
  | PInt z => (- 2 ^ 63 <=? z) && (z <? 2 ^ 63)
  | PList l => forallb storable l
  | PDict d => forallb (λ kv, plain_name kv.1 && storable kv.2) d
  | _ => true
  end.

Definition plain (data : gmap string pyval) : bool :=
  bool_decide (data ≠ ∅
               ∧ map_Forall (λ k v, plain_name k && storable v = true) data).

Class World : Type := {
  (** [str(v)], what an f-string puts in place of [{v}] *)
  py_str : pyval → string;
  py_str_str : ∀ s, py_str (PStr s) = s;
  (** the interpreter's Unicode tables outside ASCII: whether a code point
      is a decimal digit (the class [\d]), and the text [str.upper] puts
      in place of a code point that it changes *)
  unicode_decimal : N → bool;
  unicode_upper : N → option string;
  (** [list(set(xs))]: the distinct elements, in an order of the
      interpreter's choosing *)
  set_list : list string → list string;
  set_list_NoDup : ∀ xs, NoDup (set_list xs);
  set_list_elem : ∀ xs x, x ∈ set_list xs ↔ x ∈ xs;
  (** the issue tracker: the decoded body of a GET, [None] when [requests]
      raises a [RequestException] (transport error, error status, a body
      that is not JSON); the first argument is the list of requests made so
      far *)
  jira : list call → string → pyval → pyval → option pyval;
  (** the generative-language API: the decoded body of a POST, [None]
      likewise *)
  gemini : list call → string → string → option pyval;
  (** an upstream bug page: [None] when the GET raises, else the stripped
      text of the elements with id [summary-val] and [descriptionmodule],
      where the page has them *)
  page : list call → string → option (option string * option string);
  (** [datetime.now()] formatted with ["%b %d, %Y"] and with ["%Y-%m-%d"] *)
  now_long : list call → string;
  now_iso : list call → string;
  (** [bson.ObjectId(s)]: [None] when it raises [InvalidId] *)
  ObjectId : string → option N;
  (** the store: whether driver and server take [{'$set': data}] at all,
      and what it makes of the fields of a matched document; for [plain]
      data it is the field-wise assignment *)
  set_valid : gmap string pyval → bool;
  mongo_set : gmap string pyval → gmap string pyval → outcome (gmap string pyval);
  set_valid_plain : ∀ data, plain data = true → set_valid data = true;
  mongo_set_plain : ∀ data doc,
    plain data = true → mongo_set data doc = Ok (data ∪ doc);
}.

(** ** Text that goes by the interpreter's tables *)

Section Tables.
Context `{W : World}.

(** The class [\d]: [0] to [9], and the decimal digits of the other
    scripts. *)
Definition isdigit (c : string) : bool :=
  match codepoint c with
  | Some n => if (n <? 128)%N then ((48 <=? n) && (n <=? 57))%N else unicode_decimal n
  | None => false
  end.

(** [str.upper] of one code point: [a] to [z] go to [A] to [Z], a code
    point outside ASCII to what the tables say. *)
Definition upper_char (c : string) : string :=
  match codepoint c with
  | Some n =>
      if (n <? 128)%N
      then (if ((97 <=? n) && (n <=? 122))%N
            then String (ascii_of_N (n - 32)) EmptyString else c)
      else default c (unicode_upper n)
  | None => c
  end.

(** [s.upper()]. *)
Definition upper (s : string) : string := text (upper_char <$> chars s).

(** The longest prefix of digits, and what follows it. *)
Fixpoint span_digits (l : list string) : list string * list string :=
  match l with
  | c :: r =>
      if isdigit c
      then let '(ds, rest) := span_digits r in (c :: ds, rest)
      else ([], l)
  | [] => ([], [])
  end.

(** Where the list goes on, it does not go on with a digit. *)
Definition stops (l : list string) : Prop :=
  match l with
  | c :: _ => isdigit c = false
  | [] => True
  end.

(** [\d+\.\d+\.\d+] anchored at the start of [l].  Each [\d+] is greedy,
    and giving digits back never helps: what follows a shortened run is a
    digit, not the dot that has to come next. *)
Definition match_here (l : list string) : option string :=
  let '(a, r1) := span_digits l in
  match a, r1 with
  | _ :: _, c1 :: r2 =>
      if String.eqb c1 "." then
        let '(b, r3) := span_digits r2 in
        match b, r3 with
        | _ :: _, c2 :: r4 =>
            if String.eqb c2 "." then
              let '(c, _) := span_digits r4 in
              match c with
              | _ :: _ => Some (text a +:+ "." +:+ text b +:+ "." +:+ text c)
              | [] => None
              end
            else None
        | _, _ => None
        end
      else None
  | _, _ => None
  end.

(** The match at the leftmost position that has one. *)
Fixpoint search_chars (l : list string) : option string :=
  match match_here l with
  | Some v => Some v
  | None =>
      match l with
      | _ :: r => search_chars r
      | [] => None
      end
  end.

(** [re.search(r'(\d+\.\d+\.\d+)', url)] and its group 1. *)
Definition search_version (url : string) : option string := search_chars (chars url).

End Tables.

(** ** Computations that talk to the world

    A computation takes the requests made so far and gives its result, or
    the exception it raises, with the extended list of requests. *)
Definition M (A : Type) : Type := list call → outcome A * list call.

#[global] Instance M_ret : MRet M := λ A a log, (Ok a, log).
#[global] Instance M_bind : MBind M := λ A B f m log,
  match m log with
  | (Ok a, log') => f a log'
  | (Raise e, log') => (Raise e, log')
  end.

Definition liftM {A : Type} (o : outcome A) : M A := λ log, (o, log).

(** The URLs of the requests made to the issue tracker, in order, and the
    ticket keys they end in. *)
Definition jira_urls (log : list call) : list string :=
  omap (λ c, match c with JiraGet url _ _ => Some url | _ => None end) log.

Definition fetched_keys (log : list call) : list string :=
  last_segment <$> jira_urls log.

Section Pipeline.
Context `{W : World}.

Definition http_jira (url : string) (email token : pyval) : M (option pyval) :=
  λ log, (Ok (jira log url email token), log ++ [JiraGet url email token]).

Definition http_gemini (api_url prompt : string) : M (option pyval) :=
  λ log, (Ok (gemini log api_url prompt), log ++ [GeminiPost api_url prompt]).

Definition http_page (url : string) : M (option (option string * option string)) :=
  λ log, (Ok (page log url), log ++ [PageGet url]).

(** [v[:30]], evaluated for the log line: only sequences can be sliced
    (for a [dict] the exception is a [KeyError] from Python 3.12 on). *)
Definition py_slice_check (v : pyval) : outcome unit :=
  match v with
  | PStr _ | PList _ => Ok ()
  | _ => Raise TypeError
  end.

(** [not v or not v.strip()], with the text when the test fails. *)
Definition nonblank (v : pyval) : outcome (option string) :=
  if truthy v then
    match v with
    | PStr s => Ok (if String.eqb (strip s) "" then None else Some s)
    | _ => Raise AttributeError
    end
  else Ok None.

(** [re.split(r'[,\s\n]+', v)], which wants a [str]. *)
Definition py_re_split (v : pyval) : outcome (list string) :=
  match v with
  | PStr s => Ok (re_split s)
  | _ => Raise TypeError
  end.

(** [v[k] = x]. *)
Definition py_setitem (v : pyval) (k : string) (x : pyval) : outcome pyval :=
  match v with
  | PDict d => Ok (PDict (dset k x d))
  | _ => Raise TypeError
  end.

(** [v[k]] for a string key. *)
Definition py_item (v : pyval) (k : string) : outcome pyval :=
  match v with
  | PDict d => match dget k d with Some x => Ok x | None => Raise KeyError end
  | _ => Raise TypeError
  end.

(** *** fetch_jira_ticket (lines 159-169) *)
Definition jira_url (domain : pyval) (key : string) : string :=
  "https://" +:+ py_str domain +:+ "/rest/api/3/issue/" +:+ key.

Definition fetch_jira_ticket (domain email token : pyval) (key : string) : M pyval :=
  let url := jira_url domain key in
  response ← http_jira url email token;
  match response with
  | Some json => mret json
  | None => mret PNone
  end.

(** *** get_summary_from_ai (lines 171-189) *)
Definition prompt_intro (is_upstream : bool) : string :=
  if is_upstream
  then "Generate a concise, user-friendly summary for an upstream bug fix. The summary should be a single, clear sentence explaining the fix from an end-user's perspective."
  else "Generate a concise, user-friendly summary for a software release note based on the following JIRA ticket details. The summary should be a single, clear sentence explaining the change from an end-user's perspective.".

(** The text of the first part of the first candidate (line 184). *)
Definition first_candidate_text (result : pyval) : outcome pyval :=
  candidates ← py_get result "candidates" (PList [PDict []]);
  candidate ← py_first candidates;
  content ← py_get candidate "content" (PDict []);
  parts ← py_get content "parts" (PList [PDict []]);
  part ← py_first parts;
  py_get part "text" (PStr "").

Definition get_summary_from_ai (title : pyval) (description : string)
    (gemini_token : pyval) (is_upstream : bool) : M pyval :=
  if String.eqb description "" || String.eqb (strip description) ""
  then mret title
  else
    let api_url :=
      "https://generativelanguage.googleapis.com/v1beta/models/gemini-2.5-flash-preview-05-20:generateContent?key="
      +:+ py_str gemini_token in
    let prompt :=
      prompt_intro is_upstream
      +:+ " Do not start with phrases like " +:+ dq +:+ "This ticket" +:+ dq
      +:+ " or " +:+ dq +:+ "The user can now" +:+ dq
      +:+ ". Just state the change directly." +:+ nl
      +:+ "Original JIRA Title: " +:+ dq +:+ py_str title +:+ dq +:+ nl
      +:+ "JIRA Description: " +:+ dq +:+ description +:+ dq +:+ nl
      +:+ "Release Note Summary:" in
    response ← http_gemini api_url prompt;
    match response with
    | Some result =>
        liftM (
          summary ← first_candidate_text result;
          _ ← py_slice_check title;
          if truthy summary then
            match summary with
            | PStr s => Ok (PStr (strip s))
            | _ => Raise AttributeError
            end
          else Ok title)
    | None => liftM (_ ← py_slice_check title; Ok title)
    end.

(** *** process_upstream_bugs (lines 191-232) *)

(** The body of the loop over the bug URLs (lines 200-217). *)
Definition scrape_one (gemini_token : pyval) (summarized_bugs : list string)
    (url : string) : M (list string) :=
  response ← http_page url;
  match response with
  | Some (Some title, Some description) =>
      let ticket_id := last_segment url in
      summary ← get_summary_from_ai (PStr title) description gemini_token true;
      mret (summarized_bugs ++
            ["* [" +:+ ticket_id +:+ "](" +:+ url +:+ ") - " +:+ py_str summary])
  | _ => mret summarized_bugs
  end.


(** One line of the list of upstream release notes (lines 228-230). *)
Definition release_link (r_url : string) : string :=
  let version := default "version" (search_version r_url) in
  "* [MongoDB " +:+ version +:+ " Community Edition](" +:+ r_url +:+ ")".

Definition process_upstream_bugs (bug_urls_raw release_urls_raw gemini_token : pyval)
  : M string :=
  raw ← liftM (nonblank bug_urls_raw);
  match raw with
  | None => mret ""
  | Some raw =>
      let bug_urls := set_list (pieces raw) in
      match bug_urls with
      | [] => mret ""
      | _ =>
          summarized_bugs ← foldM (scrape_one gemini_token) [] bug_urls;
          match summarized_bugs with
          | [] => mret ""
          | _ =>
              let md_lines :=
                ["### Upstream Improvements";
                 "The bug fixes, provided by MongoDB Community Edition and included in Percona Server for MongoDB, are the following:"]
                ++ summarized_bugs in
              parts ← liftM (py_re_split release_urls_raw);
              let release_urls := set_list (filter (λ t, t ≠ "") parts) in
              let md_lines :=
                match release_urls with
                | [] => md_lines
                | _ =>
                    md_lines
                    ++ [nl +:+ "Find the full list of changes in the following MongoDB Community Edition release notes:"]
                    ++ map release_link (sorted release_urls)
                end in
              mret (String.concat nl md_lines)
          end
      end
  end.

(** *** generate_mongo_intro (lines 135-157) *)

(** One link of the intro, for a URL in which a version is found
    (lines 141-145). *)
Definition mongo_link (url mongo_version : string) : string :=
  "[MongoDB " +:+ mongo_version +:+ " Community Edition](" +:+ url +:+ ")".

(** [version.lstrip('v') if version else "X.Y.Z"] (line 148). *)
Definition display_version_of (version : pyval) : outcome string :=
  if truthy version then
    match version with
    | PStr v => Ok (lstrip (λ c, String.eqb c "v") v)
    | _ => Raise AttributeError
    end
  else Ok "X.Y.Z".

(** The f-string of lines 150-157. *)
Definition intro_paragraph (display_version current_date : string)
    (mongo_links versions : list string) : string :=
  "Percona Server for MongoDB " +:+ display_version
  +:+ " (" +:+ current_date +:+ ")" +:+ nl
  +:+ "[Install](../install/index.md){.md-button}" +:+ nl
  +:+ "[Upgrade from MongoDB Community](../install/upgrade-from-mongodb.md){.md-button}" +:+ nl
  +:+ "Percona Server for MongoDB " +:+ display_version
  +:+ " is an enhanced, source-available, and highly-scalable database that is a" +:+ nl
  +:+ "fully-compatible, drop-in replacement for MongoDB Community Edition." +:+ nl
  +:+ "Percona Server for MongoDB " +:+ display_version
  +:+ " includes the improvements and bug fixes of "
  +:+ String.concat ", " mongo_links +:+ "." +:+ nl
  +:+ "It supports protocols and drivers of MongoDB Community "
  +:+ String.concat " through " (sorted versions) +:+ "." +:+ nl.

(** The loop of lines 140-145. *)
Definition collect_links (urls : list string) : list string * list string :=
  foldl (λ '(mongo_links, versions) url,
    match search_version url with
    | Some mongo_version =>
        (mongo_links ++ [mongo_link url mongo_version], versions ++ [mongo_version])
    | None => (mongo_links, versions)
    end) ([], []) urls.

Definition generate_mongo_intro (urls_raw version : pyval) (current_date : string)
  : outcome string :=
  raw ← nonblank urls_raw;
  match raw with
  | None => Ok ""
  | Some raw =>
      let urls := set_list (pieces raw) in
      match urls with
      | [] => Ok ""
      | _ =>
          let '(mongo_links, versions) := collect_links urls in
          match mongo_links with
          | [] => Ok ""
          | _ =>
              let mongo_links := sorted mongo_links in
              display_version ← display_version_of version;
              Ok (intro_paragraph display_version current_date mongo_links versions)
          end
      end
  end.

(** *** generate_final_markdown (lines 234-261) *)

Definition ISSUE_TYPE_MAP : gmap string string :=
  list_to_map
    [("Story", "features"); ("New Feature", "features");
     ("Improvement", "features"); ("Epic", "features");
     ("Bug", "fixes"); ("Defect", "fixes");
     ("Task", "maintenance"); ("Sub-task", "maintenance");
     ("Chore", "maintenance"); ("Technical Debt", "maintenance")].

(** [section_map], in the order [.items()] yields it. *)
Definition section_map : list (string * string) :=
  [("features", "## ✨ New Features & Enhancements");
   ("fixes", "## 🐛 Bug Fixes");
   ("maintenance", "## 🔧 Technical & Maintenance")].

(** [ISSUE_TYPE_MAP.get(issue_type, "maintenance")]: the key has to be
    hashable; a key that is not a string is in no entry. *)
Definition bucket_of (issue_type : pyval) : outcome string :=
  match issue_type with
  | PStr s => Ok (default "maintenance" (ISSUE_TYPE_MAP !! s))
  | PList _ | PDict _ => Raise TypeError
  | _ => Ok "maintenance"
  end.

(** The issue type of a ticket (line 252). *)
Definition issue_type_of (ticket : pyval) : outcome pyval :=
  fields ← py_get ticket "fields" (PDict []);
  issuetype ← py_get fields "issuetype" (PDict []);
  py_get issuetype "name" (PStr "Task").

(** The loop of lines 251-253. *)
Definition categorize (tickets : list pyval) : outcome (gmap string (list pyval)) :=
  foldM (λ (categories : gmap string (list pyval)) ticket,
    issue_type ← issue_type_of ticket;
    category ← bucket_of issue_type;
    Ok (alter (λ l, l ++ [ticket]) category categories))
    ({["features" := []; "fixes" := []; "maintenance" := []]}) tickets.

(** The line of one ticket (line 259). *)
Definition ticket_line (domain : pyval) (ticket : pyval) : outcome string :=
  key ← py_item ticket "key";
  key' ← py_item ticket "key";
  summary ← py_item ticket "releaseNoteSummary";
  Ok ("- [" +:+ py_str key +:+ "](https://" +:+ py_str domain +:+ "/browse/"
      +:+ py_str key' +:+ "): " +:+ py_str summary).

(** The body of the loop over [section_map] (lines 256-260). *)
Definition emit_section (domain : pyval) (categories : gmap string (list pyval))
    (md_lines : list string) (section : string * string) : outcome (list string) :=
  let '(category, title) := section in
  match default [] (categories !! category) with
  | [] => Ok md_lines
  | in_category =>
      lines ← foldM (λ lines ticket,
                line ← ticket_line domain ticket; Ok (lines ++ [line]))
              (md_lines ++ [title]) in_category;
      Ok (lines ++ [""])
  end.

(** [md_lines] as it stands before the final join (lines 235-260). *)
Definition final_md_lines (mongo_intro : string) (release_highlights : pyval)
    (upstream_section : string) (tickets : list pyval)
    (version codename domain : pyval) (today : string) : outcome (list string) :=
  let md_lines := [] in
  let md_lines :=
    if negb (String.eqb mongo_intro "")
    then md_lines ++ [mongo_intro; nl +:+ "---"] else md_lines in
  highlights ← nonblank release_highlights;
  let md_lines :=
    match highlights with
    | Some release_highlights =>
        md_lines ++ ["## Release Highlights";
                     nl +:+ "This release provides the following features and improvements:" +:+ nl;
                     release_highlights;
                     nl +:+ "---"]
    | None => md_lines
    end in
  let md_lines :=
    if negb (String.eqb upstream_section "")
    then md_lines ++ [upstream_section; nl +:+ "---"] else md_lines in
  let title_line :=
    if truthy version then "# Release " +:+ py_str version else "# Release Notes" in
  let title_line :=
    if truthy codename then title_line +:+ " - " +:+ dq +:+ py_str codename +:+ dq
    else title_line in
  let md_lines :=
    md_lines ++ [title_line; "*Released on: " +:+ today +:+ "*"; "---"] in
  categories ← categorize tickets;
  foldM (emit_section domain categories) md_lines section_map.

Definition generate_final_markdown (mongo_intro : string) (release_highlights : pyval)
    (upstream_section : string) (tickets : list pyval)
    (version codename domain : pyval) (today : string) : outcome string :=
  md_lines ← final_md_lines mongo_intro release_highlights upstream_section
                tickets version codename domain today;
  Ok (String.concat nl md_lines).

(** ** The store and the request handlers *)

(** The two collections.  A stored document is kept as its fields other
    than [_id]; [find_one] hands it out with its [_id], so a document that
    is found is never empty. *)
Record db : Type := {
  db_settings : option (gmap string pyval);
  db_releases : gmap N (gmap string pyval);
}.

Record response : Type := {
  status : Z;
  body : gmap string pyval;
}.

Inductive http_method : Type := GET | POST | PUT | DELETE.

Definition find_settings (d : db) : option (gmap string pyval) :=
  (λ fields, <["_id" := PStr "global_settings"]> fields) <$> db_settings d.

Definition find_release (d : db) (oid : N) : option (gmap string pyval) :=
  (λ fields, <["_id" := PObjectId oid]> fields) <$> db_releases d !! oid.

(** [db.releases.update_one({'_id': oid}, {'$set': data})]: no upsert, so
    an identifier that matches nothing leaves the collection as it is. *)
Definition update_one (coll : gmap N (gmap string pyval)) (oid : N)
    (data : gmap string pyval) : outcome (gmap N (gmap string pyval)) :=
  if set_valid data then
    match coll !! oid with
    | Some fields => fields' ← mongo_set data fields; Ok (<[oid := fields']> coll)
    | None => Ok coll
    end
  else Raise WriteError.

(** [db.settings.update_one({'_id': 'global_settings'}, {'$set': data},
    upsert=True)]: a missing document is created from the filter first. *)
Definition upsert_settings (stored : option (gmap string pyval))
    (data : gmap string pyval) : outcome (option (gmap string pyval)) :=
  if set_valid data then
    fields' ← mongo_set data (default ∅ stored); Ok (Some fields')
  else Raise WriteError.

Definition message (text : string) : gmap string pyval :=
  {["message" := PStr text]}.

Definition error (text : string) : gmap string pyval :=
  {["error" := PStr text]}.

(** *** settings (lines 44-54); [data] is [request.get_json()] *)
Definition settings (method : http_method) (data : gmap string pyval) (d : db)
  : outcome (response * db) :=
  match method with
  | POST =>
      stored ← upsert_settings (db_settings d) data;
      Ok ({| status := 200; body := message "Settings saved successfully." |},
          {| db_settings := stored; db_releases := db_releases d |})
  | _ =>
      let settings_data := find_settings d in
      Ok ({| status := 200; body := default ∅ settings_data |}, d)
  end.

(** *** release_detail (lines 71-91); the route admits GET, PUT and DELETE *)
Definition release_detail (release_id : string) (method : http_method)
    (data : gmap string pyval) (d : db) : outcome (response * db) :=
  match ObjectId release_id with
  | None => Raise InvalidId
  | Some oid =>
      match method with
      | GET =>
          match find_release d oid with
          | Some release =>
              let release :=
                <["_id" := PStr (py_str (default PNone (release !! "_id")))]> release in
              Ok ({| status := 200; body := release |}, d)
          | None => Ok ({| status := 404; body := error "Release not found" |}, d)
          end
      | PUT =>
          coll ← update_one (db_releases d) oid data;
          Ok ({| status := 200; body := message "Release updated successfully." |},
              {| db_settings := db_settings d; db_releases := coll |})
      | DELETE =>
          Ok ({| status := 200; body := message "Release deleted successfully." |},
              {| db_settings := db_settings d;
                 db_releases := delete oid (db_releases d) |})
      | POST => Raise TypeError
      end
  end.

(** *** generate_release_notes (lines 93-131) *)

(** [sorted(list(set(filter(None, re.split(...)))))] (line 112). *)
Definition ticket_keys_of (jira_tickets : pyval) : outcome (list string) :=
  parts ← py_re_split jira_tickets;
  Ok (sorted (set_list (filter (λ t, t ≠ "") parts))).

(** What is done with a ticket that was fetched (lines 118-122). *)
Definition summarize_ticket (gemini_token ticket_info : pyval) : M pyval :=
  fields ← liftM (py_get ticket_info "fields" (PDict []));
  title ← liftM (py_get fields "summary" (PStr "No title"));
  fields' ← liftM (py_get ticket_info "fields" (PDict []));
  description ← liftM (py_get fields' "description" PNone);
  description_text ← liftM (parse_jira_description description);
  summary ← get_summary_from_ai title description_text gemini_token false;
  liftM (py_setitem ticket_info "releaseNoteSummary" summary).

(** The body of the loop of lines 115-122. *)
Definition fetch_one (domain email token gemini_token : pyval)
    (tickets_with_summaries : list pyval) (key : string) : M (list pyval) :=
  ticket_info ← fetch_jira_ticket domain email token (upper key);
  if truthy ticket_info then
    ticket_info ← summarize_ticket gemini_token ticket_info;
    mret (tickets_with_summaries ++ [ticket_info])
  else mret tickets_with_summaries.

Definition fetch_tickets (domain email token gemini_token : pyval)
    (ticket_keys : list string) : M (list pyval) :=
  foldM (fetch_one domain email token gemini_token) [] ticket_keys.

(** Lines 107-131: what the handler does once the release is found and
    the settings are complete. *)
Definition pipeline (domain email token gemini_token : pyval)
    (release : gmap string pyval) (oid : N) (d : db) : M (response * db) :=
  mongo_intro ← (λ log,
    liftM (generate_mongo_intro (default (PStr "") (release !! "upstreamUrls"))
             (default (PStr "") (release !! "version")) (now_long log)) log);
  let release_highlights := default (PStr "") (release !! "releaseHighlights") in
  let upstream_bug_urls := default (PStr "") (release !! "upstreamBugUrls") in
  upstream_section ←
    process_upstream_bugs upstream_bug_urls
      (default (PStr "") (release !! "upstreamUrls")) gemini_token;
  ticket_keys ← liftM (ticket_keys_of (default (PStr "") (release !! "jiraTickets")));
  tickets_with_summaries ← fetch_tickets domain email token gemini_token ticket_keys;
  match tickets_with_summaries, ticket_keys with
  | [], _ :: _ =>
      mret ({| status := 400;
               body := error "Could not fetch data for any JIRA tickets." |}, d)
  | _, _ =>
      markdown_output ← (λ log,
        liftM (generate_final_markdown mongo_intro release_highlights
                 upstream_section tickets_with_summaries
                 (default PNone (release !! "version"))
                 (default PNone (release !! "codename")) domain
                 (now_iso log)) log);
      coll ← liftM (update_one (db_releases d) oid
                      {["generatedMarkdown" := PStr markdown_output]});
      mret ({| status := 200; body := {["markdown" := PStr markdown_output]} |},
            {| db_settings := db_settings d; db_releases := coll |})
  end.

Definition generate_release_notes (release_id : string) (d : db)
  : M (response * db) :=
  let settings := default ∅ (find_settings d) in
  oid ← liftM (match ObjectId release_id with
               | Some oid => Ok oid
               | None => Raise InvalidId
               end);
  match find_release d oid with
  | None => mret ({| status := 404; body := error "Release not found" |}, d)
  | Some release =>
      let domain := default PNone (settings !! "jiraUrl") in
      let email := default PNone (settings !! "jiraEmail") in
      let token := default PNone (settings !! "jiraToken") in
      let gemini_token := default PNone (settings !! "geminiToken") in
      if negb (truthy domain && truthy email && truthy token) then
        mret ({| status := 400;
                 body := error "JIRA settings are incomplete. Please configure them on the Settings page." |},
              d)
      else pipeline domain email token gemini_token release oid d
  end.

End Pipeline.

(** ** The specification's words

    Second definitions, following the specification, to compare the code
    with. *)

(** The extractor: the strings carried by the nodes tagged "text", in
    depth-first pre-order.  The child list of a node is the list under its
    "content" key.  Both definitions walk the forest with its nesting depth
    as budget; [preorder_cons] gives the unfolding without it. *)
Definition children (node : pyval) : list pyval :=
  match node with
  | PDict d => match dget "content" d with Some (PList l) => l | _ => [] end
  | _ => []
  end.

Definition carried (node : pyval) : list string :=
  match node with
  | PDict d =>
      if str_eq (default PNone (dget "type" d)) "text"
      then match dget "text" d with Some (PStr s) => [s] | _ => [] end
      else []
  | _ => []
  end.

Fixpoint preorder_at (depth : nat) (nodes : list pyval) : list string :=
  match depth with
  | O => []
  | S depth' =>
      flat_map (λ node, carried node ++ preorder_at depth' (children node)) nodes
  end.

Definition preorder (nodes : list pyval) : list string :=
  preorder_at (nesting (PList nodes)) nodes.

(** A rich-text tree: every node is an object, and what a node tagged
    "text" carries under "text" is a string. *)
Definition node_ok (node : pyval) : bool :=
  match node with
  | PDict d =>
      if str_eq (default PNone (dget "type" d)) "text"
      then match dget "text" d with Some (PStr _) | None => true | Some _ => false end
      else true
  | _ => false
  end.

Fixpoint rich_text_at (depth : nat) (nodes : list pyval) : bool :=
  match depth with
  | O => match nodes with [] => true | _ => false end
  | S depth' =>
      forallb (λ node, node_ok node && rich_text_at depth' (children node)) nodes
  end.

Definition rich_text (nodes : list pyval) : bool :=
  rich_text_at (nesting (PList nodes)) nodes.


(** The fixed lookup of the specification. *)
Definition spec_bucket (issue_type : string) : string :=
  if bool_decide (issue_type ∈ ["Story"; "New Feature"; "Improvement"; "Epic"])
  then "features"
  else if bool_decide (issue_type ∈ ["Bug"; "Defect"])
  then "fixes"
  else if bool_decide (issue_type ∈ ["Task"; "Sub-task"; "Chore"; "Technical Debt"])
  then "maintenance"
  else "maintenance".

Definition buckets : list string := ["features"; "fixes"; "maintenance"].

(** The issue-type label of a ticket, when it is a string. *)
Definition type_name (ticket : pyval) : option string :=
  match issue_type_of ticket with
  | Ok (PStr s) => Some s
  | _ => None
  end.

(** The issue type a ticket carries: the name under [issuetype] under
    [fields]; a ticket that has no [fields], no [issuetype] there or no
    [name] there counts as a Task.  A ticket is only labelled when it and
    what it holds under these keys are objects and the name is a string. *)
Definition issue_label (ticket : pyval) : option string :=
  match ticket with
  | PDict d =>
      match dget "fields" d with
      | None => Some "Task"
      | Some (PDict f) =>
          match dget "issuetype" f with
          | None => Some "Task"
          | Some (PDict it) =>
              match dget "name" it with
              | None => Some "Task"
              | Some (PStr s) => Some s
              | Some _ => None
              end
          | Some _ => None
          end
      | Some _ => None
      end
  | _ => None
  end.

(** The lines of a text: what stands between its newlines. *)
Fixpoint lines_of (s : string) : list string :=
  match s with
  | EmptyString => [EmptyString]
  | String c r =>
      if Ascii.eqb c "010" then EmptyString :: lines_of r
      else match lines_of r with
           | l :: ls => String c l :: ls
           | [] => [String c EmptyString]
           end
  end.

(** A text that holds no newline. *)
Fixpoint one_line (s : string) : bool :=
  match s with
  | EmptyString => true
  | String c r => negb (Ascii.eqb c "010") && one_line r
  end.

Section Assembly.
Context `{W : World}.

(** The blocks of the document, each empty when it has no content. *)
Definition intro_block (mongo_intro : string) : list string :=
  if String.eqb mongo_intro "" then [] else [mongo_intro; nl +:+ "---"].

Definition highlights_block (highlights : option string) : list string :=
  match highlights with
  | Some release_highlights =>
      ["## Release Highlights";
       nl +:+ "This release provides the following features and improvements:" +:+ nl;
       release_highlights;
       nl +:+ "---"]
  | None => []
  end.

Definition upstream_block (upstream_section : string) : list string :=
  if String.eqb upstream_section "" then [] else [upstream_section; nl +:+ "---"].

Definition title_block (version codename : pyval) (today : string) : list string :=
  let title := if truthy version then "# Release " +:+ py_str version
               else "# Release Notes" in
  [(if truthy codename then title +:+ " - " +:+ dq +:+ py_str codename +:+ dq
    else title);
   "*Released on: " +:+ today +:+ "*";
   "---"].

(** The header line of the highlights block. *)
Definition header : string := "## Release Highlights".

Definition section_block (domain : pyval) (title : string) (in_category : list pyval)
  : outcome (list string) :=
  match in_category with
  | [] => Ok []
  | _ => lines ← mapM (ticket_line domain) in_category; Ok (title :: lines ++ [""])
  end.

End Assembly.

Section Triplets.
Context `{W : World}.

(** The dotted triplets of digits, and where a string occurs in another. *)
Definition digits (s : string) : Prop := s ≠ "" ∧ all_chars isdigit s = true.

Definition triplet (v : string) : Prop :=
  ∃ a b c, v = a +:+ "." +:+ b +:+ "." +:+ c ∧ digits a ∧ digits b ∧ digits c.

(** A triplet starts at the head of [s]. *)
Definition starts_triplet (s : string) : Prop :=
  ∃ v post, s = v +:+ post ∧ triplet v.

(** [s] does not go on with a digit. *)
Definition head_nondigit (s : string) : Prop :=
  match chars s with
  | c :: _ => isdigit c = false
  | [] => True
  end.

End Triplets.

(** ** Scenarios and what the handlers are asked *)

(** The value of a settings field as the generate handler reads it. *)
Definition setting (d : db) (k : string) : pyval :=
  default PNone (default ∅ (find_settings d) !! k).

(** The three required issue-tracker settings are all there. *)
Definition settings_complete (d : db) : bool :=
  truthy (setting d "jiraUrl") && truthy (setting d "jiraEmail")
  && truthy (setting d "jiraToken").

(** A computation that asks the issue tracker nothing, and one that asks
    for the URLs of [L], in order, and for all of them unless it raises. *)
Definition quiet {A : Type} (m : M A) : Prop :=
  ∀ log, jira_urls (m log).2 = jira_urls log.

Definition asks (L : list string) {A : Type} (m : M A) : Prop :=
  ∀ log, ∃ n,
    jira_urls (m log).2 = jira_urls log ++ take n L
    ∧ ∀ r, (m log).1 = Ok r → n = length L.

(** POST to [/api/settings] followed by GET: the body of the second
    response. *)
Definition post_then_get `{W : World} (data : gmap string pyval) (d : db)
  : outcome (gmap string pyval) :=
  '(_, d') ← settings POST data d;
  '(r, _) ← settings GET ∅ d';
  Ok (body r).

(** ** A sample world

    One world to run the handlers in: sets list their elements in order of
    first occurrence, the issue tracker knows the ticket ABC-1, the
    generative API answers every prompt with the same sentence, no upstream
    page can be fetched, and [$set] is refused unless it is [plain]. *)
Module Sample.

(** [str] on the values of the sample data. *)
Definition str (v : pyval) : string :=
  match v with
  | PStr s => s
  | PNone => "None"
  | PBool true => "True"
  | PBool false => "False"
  | _ => "?"
  end.

(** Of the tables outside ASCII, the Arabic-Indic and the fullwidth
    digits, and the capital of the letter e with acute accent. *)
Definition decimal (n : N) : bool :=
  ((0x660 <=? n) && (n <=? 0x669) || (0xFF10 <=? n) && (n <=? 0xFF19))%N.

Definition capital (n : N) : option string :=
  if (n =? 0xE9)%N then Some (String "195" (String "137" EmptyString)) else None.

Definition hex_digit (c : ascii) : option N :=
  let n := N_of_ascii c in
  if ((48 <=? n) && (n <=? 57))%N then Some (n - 48)%N
  else if ((97 <=? n) && (n <=? 102))%N then Some (n - 87)%N
  else if ((65 <=? n) && (n <=? 70))%N then Some (n - 55)%N
  else None.

Fixpoint hex_value (acc : N) (s : string) : option N :=
  match s with
  | EmptyString => Some acc
  | String c r => d ← hex_digit c; hex_value (16 * acc + d)%N r
  end.

Definition object_id (s : string) : option N :=
  if (String.length s =? 24)%nat then hex_value 0%N s else None.

Definition description : pyval :=
  PDict [("type", PStr "doc");
         ("content", PList
            [PDict [("type", PStr "paragraph");
                    ("content", PList
                       [PDict [("type", PStr "text");
                               ("text", PStr "Server crashes on start-up.")]])]])].

Definition ticket : pyval :=
  PDict [("key", PStr "ABC-1");
         ("fields", PDict [("summary", PStr "Fix crash");
                           ("issuetype", PDict [("name", PStr "Bug")]);
                           ("description", description)])].

(** A content forest with marks, a node without text and a text node that
    has children of its own. *)
Definition adf_nodes : list pyval :=
  [PDict [("type", PStr "paragraph");
          ("content", PList
             [PDict [("type", PStr "text"); ("text", PStr "Fix the");
                     ("marks", PList [PDict [("type", PStr "strong")]])];
              PDict [("type", PStr "hardBreak")];
              PDict [("type", PStr "text"); ("text", PStr "crash")]])];
   PDict [("type", PStr "text"); ("text", PStr "on start");
          ("content", PList [PDict [("type", PStr "text"); ("text", PStr "up")]])]].

(** Tickets of three kinds: a bug, one without an issue type, an epic. *)
Definition tickets : list pyval :=
  [ticket;
   PDict [("key", PStr "ABC-7")];
   PDict [("key", PStr "ABC-9");
          ("fields", PDict [("issuetype", PDict [("name", PStr "Epic")])])]].

Definition tracker (log : list call) (url : string) (email token : pyval)
  : option pyval :=
  if String.eqb (last_segment url) "ABC-1" then Some ticket else None.

Definition summarizer (log : list call) (api_url prompt : string) : option pyval :=
  Some (PDict [("candidates", PList
          [PDict [("content", PDict [("parts", PList
             [PDict [("text", PStr " Fixed a crash on start-up. ")]])])]])]).

Definition assign (data fields : gmap string pyval)
  : outcome (gmap string pyval) :=
  if plain data then Ok (data ∪ fields) else Raise WriteError.

(** The sample world, for a given tracker and generative API. *)
Definition world_of
    (tracker : list call → string → pyval → pyval → option pyval)
    (summarizer : list call → string → string → option pyval) : World := {|
  py_str := str;
  py_str_str := λ s, eq_refl;
  unicode_decimal := decimal;
  unicode_upper := capital;
  set_list := remove_dups;
  set_list_NoDup := NoDup_remove_dups;
  set_list_elem := λ xs x, elem_of_remove_dups xs x;
  jira := tracker;
  gemini := summarizer;
  page := λ _ _, None;
  now_long := λ _, "Nov 03, 2026";
  now_iso := λ _, "2026-11-03";
  ObjectId := object_id;
  set_valid := plain;
  mongo_set := assign;
  set_valid_plain := λ data H, H;
  mongo_set_plain :=
    ltac:(intros data fields H; unfold assign; rewrite H; reflexivity);
|}.

#[export] Instance world : World := world_of tracker summarizer.

(** The same world with the issue tracker down, with the generative API
    down, and with an API that answers with an empty text. *)
Definition world_tracker_down : World := world_of (λ _ _ _ _, None) summarizer.

Definition world_api_down : World := world_of tracker (λ _ _ _, None).

Definition world_api_mute : World :=
  world_of tracker (λ _ _ _,
    Some (PDict [("candidates", PList
            [PDict [("content", PDict [("parts", PList
               [PDict [("text", PStr "")]])])]])])).

Definition release_id : string := "65a1b2c3d4e5f60718293a4b".

Definition oid : N := default 0%N (object_id release_id).

(** A well-formed identifier that no stored release has. *)
Definition other_id : string := "65a1b2c3d4e5f60718293a4c".

Definition other_oid : N := default 0%N (object_id other_id).

(** A release whose ticket field mixes case, repeats a key and has a
    blank entry. *)
Definition mixed_case_release : gmap string pyval :=
  {["version" := PStr "1.2.3"; "jiraTickets" := PStr "ABC-2, abc-1,,ABC-2"]}.

Definition jira_settings : gmap string pyval :=
  {["jiraUrl" := PStr "jira.example.org"; "jiraEmail" := PStr "dev@example.org";
    "jiraToken" := PStr "secret"]}.

(** A store with complete settings and one release. *)
Definition store (release : gmap string pyval) : db :=
  {| db_settings := Some jira_settings; db_releases := {[oid := release]} |}.

(** A store without settings. *)
Definition store_without_settings (release : gmap string pyval) : db :=
  {| db_settings := None; db_releases := {[oid := release]} |}.

End Sample.

(** ** Shapes of tickets *)

(** A ticket from which a line can be written: an object with a key and a
    summary (line 259 reads both). *)
Definition has_line (ticket : pyval) : bool :=
  match ticket with
  | PDict d => dhas "key" d && dhas "releaseNoteSummary" d
  | _ => false
  end.

(** ** The route of the releases collection (lines 56-69)

    Two more operations of the store: [insert_one], which gives a document
    without [_id] an identifier that no stored document has, and
    [find().sort('created_at', -1)], which lists the documents with the
    later dates first.  Documents whose [created_at] is no date are placed
    by the store's own order of types, which is left open. *)

(** Of two documents that both carry a date, the first is not the older. *)
Definition not_older (a b : gmap string pyval) : Prop :=
  match a !! "created_at", b !! "created_at" with
  | Some (PDate ta), Some (PDate tb) => tb ≤ ta
  | _, _ => True
  end.

Class Collection : Type := {
  insert_one :
    gmap string pyval → gmap N (gmap string pyval)
    → outcome (N * gmap N (gmap string pyval));
  insert_one_plain : ∀ doc coll,
    plain doc = true →
    ∃ oid, coll !! oid = None ∧ insert_one doc coll = Ok (oid, <[oid := doc]> coll);
  sort_desc : list (gmap string pyval) → list (gmap string pyval);
  sort_desc_Permutation : ∀ docs, sort_desc docs ≡ₚ docs;
  sort_desc_sorted : ∀ docs, StronglySorted not_older (sort_desc docs);
}.

(** What the route answers: an object, or the array of the releases. *)
Inductive releases_reply : Type :=
| Created (r : response)
| Listed (code : Z) (all_releases : list (gmap string pyval)).

Section ReleasesRoute.
Context `{W : World} `{C : Collection}.

(** [db.releases.find()]: the stored documents, each with its [_id]. *)
Definition find_releases (d : db) : list (gmap string pyval) :=
  (λ kv, <["_id" := PObjectId kv.1]> kv.2) <$> map_to_list (db_releases d).

(** [release['_id'] = str(release['_id'])] (lines 67 and 78). *)
Definition stringify_id (release : gmap string pyval) : gmap string pyval :=
  <["_id" := PStr (py_str (default PNone (release !! "_id")))]> release.

(** [now] is what [datetime.utcnow()] reads during the request. *)
Definition releases (method : http_method) (now : Z) (data : gmap string pyval)
    (d : db) : outcome (releases_reply * db) :=
  match method with
  | POST =>
      let data := <["created_at" := PDate now]> data in
      '(inserted_id, coll) ← insert_one data (db_releases d);
      Ok (Created {| status := 201;
                     body := {["message" := PStr "Release created.";
                               "id" := PStr (py_str (PObjectId inserted_id))]} |},
          {| db_settings := db_settings d; db_releases := coll |})
  | _ =>
      let all_releases := sort_desc (find_releases d) in
      Ok (Listed 200 (stringify_id <$> all_releases), d)
  end.

End ReleasesRoute.

(** A store for the sample world: a new identifier is one that is not in
    use, and the listing is a merge sort on the dates, a document without
    a date counting as the oldest. *)
Module SampleStore.

Definition date_of (doc : gmap string pyval) : Z :=
  match doc !! "created_at" with
  | Some (PDate t) => t
  | _ => -1
  end.

Definition later (a b : gmap string pyval) : Prop := date_of b ≤ date_of a.

#[export] Instance later_dec : RelDecision later.
Proof. intros a b. unfold later. apply _. Defined.

#[export] Instance later_total : Total later.
Proof. intros a b. unfold later. lia. Qed.

#[export] Instance later_trans : Transitive later.
Proof. intros a b c. unfold later. lia. Qed.

Definition newest_first (docs : list (gmap string pyval)) : list (gmap string pyval) :=
  merge_sort later docs.

Definition insert (doc : gmap string pyval) (coll : gmap N (gmap string pyval))
  : outcome (N * gmap N (gmap string pyval)) :=
  if plain doc
  then let oid := fresh (dom coll) in Ok (oid, <[oid := doc]> coll)
  else Raise WriteError.

#[export] Instance store : Collection := {|
  insert_one := insert;
  insert_one_plain :=
    ltac:(intros doc coll H; unfold insert; rewrite H;
          exists (fresh (dom coll));
          split; [apply not_elem_of_dom, is_fresh|reflexivity]);
  sort_desc := newest_first;
  sort_desc_Permutation := merge_sort_Permutation later;
  sort_desc_sorted :=
    ltac:(intros docs; unfold newest_first;
          pose proof (Sorted_StronglySorted later _ (Sorted_merge_sort later docs)) as H;
          induction H as [|a l _ IH Hall]; constructor; [exact IH|];
          eapply Forall_impl; [exact Hall|];
          intros b Hab; unfold later, date_of in Hab; unfold not_older;
          destruct (a !! "created_at") as [[]|]; try exact I;
          destruct (b !! "created_at") as [[]|]; try exact I; exact Hab);
|}.

(** A second release, and a store that holds two. *)
Definition older_release : gmap string pyval :=
  {["version" := PStr "1.2.2"; "created_at" := PDate 1700000000]}.

Definition newer_release : gmap string pyval :=
  {["version" := PStr "1.2.3"; "created_at" := PDate 1700086400]}.

Definition two_releases : db :=
  {| db_settings := Some Sample.jira_settings;
     db_releases := {[Sample.oid := older_release; Sample.other_oid := newer_release]} |}.

(** The sample world with two upstream bug pages, one of them without a
    description element. *)
Definition pages (log : list call) (url : string)
  : option (option string * option string) :=
  if String.eqb (last_segment url) "SERVER-1"
  then Some (Some "Crash on start-up", Some "The server crashes.")
  else if String.eqb (last_segment url) "SERVER-2"
  then Some (Some "Slow query", None)
  else None.

Definition world_with_pages : World := {|
  py_str := Sample.str;
  py_str_str := λ s, eq_refl;
  unicode_decimal := Sample.decimal;
  unicode_upper := Sample.capital;
  set_list := remove_dups;
  set_list_NoDup := NoDup_remove_dups;
  set_list_elem := λ xs x, elem_of_remove_dups xs x;
  jira := Sample.tracker;
  gemini := Sample.summarizer;
  page := pages;
  now_long := λ _, "Nov 03, 2026";
  now_iso := λ _, "2026-11-03";
  ObjectId := Sample.object_id;
  set_valid := plain;
  mongo_set := Sample.assign;
  set_valid_plain := λ data H, H;
  mongo_set_plain :=
    ltac:(intros data fields H; unfold Sample.assign; rewrite H; reflexivity);
|}.

(** The sample world with a generative API that sends no candidate. *)
Definition world_api_empty : World :=
  Sample.world_of Sample.tracker (λ _ _ _, Some (PDict [("candidates", PList [])])).

(** Two bug URLs with a no-break space (U+00A0) between them. *)
Definition nbsp : string := String "194" (String "160" EmptyString).

Definition two_bug_urls : string :=
  "https://jira.mongodb.org/browse/SERVER-2" +:+ nbsp
  +:+ "https://jira.mongodb.org/browse/SERVER-1".

(** The ideographic space (U+3000). *)
Definition wide_space : string := String "227" (String "128" (String "128" EmptyString)).

(** The sample world with a generative API whose text has a no-break
    space at either end. *)
Definition padded_reply : pyval :=
  PDict [("candidates", PList
    [PDict [("content", PDict [("parts", PList
       [PDict [("text", PStr (nbsp +:+ "Fixed a crash." +:+ nbsp))]])])]])].

Definition world_api_padded : World :=
  Sample.world_of Sample.tracker (λ _ _ _, Some padded_reply).

(** A release whose keys are typed in lower case, with a no-break space
    between them. *)
Definition lower_case_release : gmap string pyval :=
  {["version" := PStr "1.2.3";
    "jiraTickets" := PStr ("perf-3" +:+ nbsp +:+ "abc-1")]}.

(** The sample run of the generate handler: its answer and the store it
    leaves. *)
Definition generated : outcome (response * db) :=
  (generate_release_notes (W := Sample.world) Sample.release_id
     (Sample.store Sample.mixed_case_release) []).1.

Definition generated_reply : response :=
  match generated with
  | Ok (r, _) => r
  | Raise _ => {| status := 0; body := ∅ |}
  end.

Definition generated_store : db :=
  match generated with
  | Ok (_, d') => d'
  | Raise _ => Sample.store ∅
  end.

(** The ticket ABC-1 as the loop over the keys hands it on. *)
Definition summarized_ticket : pyval :=
  PDict [("key", PStr "ABC-1");
         ("fields", PDict [("summary", PStr "Fix crash");
                           ("issuetype", PDict [("name", PStr "Bug")]);
                           ("description", Sample.description)]);
         ("releaseNoteSummary", PStr "Fixed a crash on start-up.")].

End SampleStore.

(** * Properties *)

(** ** Helper lemmas on values *)

Lemma bind_Ok {A B} (f : A → outcome B) (a : A) : (Ok a ≫= f) = f a.
Proof. reflexivity. Qed.

Lemma nesting_dget k d v :
  dget k d = Some v → (nesting v < nesting (PDict d))%nat.
Proof.
  induction d as [|[k' v'] d IH]; simpl; [discriminate|].
  destruct (String.eqb k' k).
  - intros [= ->]. lia.
  - intros H. specialize (IH H). simpl in IH. lia.
Qed.

Lemma children_nesting node :
  children node = [] ∨ (nesting (PList (children node)) < nesting node)%nat.
Proof.
  destruct node as [| | | | | |d| |]; simpl; auto.
  destruct (dget "content" d) as [[| | | | |l| | |]|] eqn:E; auto.
  right. apply (nesting_dget _ _ _ E).
Qed.

Lemma preorder_at_nil depth : preorder_at depth [] = [].
Proof. by destruct depth. Qed.

Lemma rich_text_at_nil depth : rich_text_at depth [] = true.
Proof. by destruct depth. Qed.

Lemma nesting_list_head x l : (nesting x < nesting (PList (x :: l)))%nat.
Proof. simpl. lia. Qed.

Lemma nesting_list_tail x l : (nesting (PList l) ≤ nesting (PList (x :: l)))%nat.
Proof. simpl. lia. Qed.

(** Any two budgets that cover the nesting of the forest give the same
    traversal, and the same verdict on its shape. *)
Lemma preorder_at_irrel d1 : ∀ d2 nodes,
  (nesting (PList nodes) ≤ d1)%nat → (nesting (PList nodes) ≤ d2)%nat →
  preorder_at d1 nodes = preorder_at d2 nodes.
Proof.
  induction d1 as [|k1 IH]; intros [|k2] nodes H1 H2;
    try (simpl in H1, H2; lia).
  induction nodes as [|node rest IHr]; [reflexivity|].
  pose proof (nesting_list_head node rest).
  pose proof (nesting_list_tail node rest).
  cbn [preorder_at flat_map]. f_equal; [f_equal|].
  - destruct (children_nesting node) as [->|Hc].
    + by rewrite !preorder_at_nil.
    + apply IH; lia.
  - apply IHr; lia.
Qed.

Lemma rich_text_at_irrel d1 : ∀ d2 nodes,
  (nesting (PList nodes) ≤ d1)%nat → (nesting (PList nodes) ≤ d2)%nat →
  rich_text_at d1 nodes = rich_text_at d2 nodes.
Proof.
  induction d1 as [|k1 IH]; intros [|k2] nodes H1 H2;
    try (simpl in H1, H2; lia).
  induction nodes as [|node rest IHr]; [reflexivity|].
  pose proof (nesting_list_head node rest).
  pose proof (nesting_list_tail node rest).
  cbn [rich_text_at forallb]. f_equal; [f_equal|].
  - destruct (children_nesting node) as [->|Hc].
    + by rewrite !rich_text_at_nil.
    + apply IH; lia.
  - apply IHr; lia.
Qed.

Lemma preorder_at_enough depth nodes :
  (nesting (PList nodes) ≤ depth)%nat → preorder_at depth nodes = preorder nodes.
Proof. intros. by apply preorder_at_irrel. Qed.

(** The traversal unfolds as a pre-order walk: a node's own text, then its
    children, then its right siblings. *)
Lemma preorder_nil : preorder [] = [].
Proof. reflexivity. Qed.

Lemma preorder_cons node rest :
  preorder (node :: rest) = carried node ++ preorder (children node) ++ preorder rest.
Proof.
  unfold preorder at 1.
  pose proof (nesting_list_head node rest).
  pose proof (nesting_list_tail node rest).
  destruct (nesting (PList (node :: rest))) as [|k] eqn:E; [lia|].
  cbn [preorder_at flat_map]. rewrite <- app_assoc. f_equal. f_equal.
  - destruct (children_nesting node) as [->|Hc].
    + by rewrite preorder_at_nil.
    + apply preorder_at_irrel; lia.
  - change (flat_map _ rest) with (preorder_at (S k) rest).
    apply preorder_at_irrel; lia.
Qed.

Lemma py_strs_PStr (l : list string) : py_strs (map PStr l) = Ok l.
Proof. induction l as [|s l IH]; simpl; [done|]. by rewrite IH. Qed.

Lemma node_ok_step d tc :
  node_ok (PDict d) = true →
  (if str_eq (default PNone (dget "type" d)) "text" && dhas "text" d
   then tc ++ [default PNone (dget "text" d)] else tc)
  = tc ++ map PStr (carried (PDict d)).
Proof.
  unfold node_ok, carried, dhas.
  destruct (str_eq _ _); simpl; [|by rewrite app_nil_r].
  destruct (dget "text" d) as [[| | | |s| | | |]|]; simpl;
    try discriminate; intros _; by rewrite ?app_nil_r.
Qed.

(** The accumulator of [recurse] grows by the pre-order texts of the
    forest it is run on. *)
Lemma recurse_at_preorder depth : ∀ nodes tc,
  (nesting (PList nodes) ≤ depth)%nat →
  rich_text_at depth nodes = true →
  recurse_at depth nodes tc = Ok (tc ++ map PStr (preorder_at depth nodes)).
Proof.
  induction depth as [|k IH]; intros nodes tc Hn Hw; [simpl in Hn; lia|].
  revert tc. induction nodes as [|node rest IHr]; intros tc.
  - simpl. by rewrite app_nil_r.
  - pose proof (nesting_list_head node rest).
    pose proof (nesting_list_tail node rest).
    cbn [rich_text_at forallb] in Hw.
    apply andb_prop in Hw as [Hw Hrest]. apply andb_prop in Hw as [Hok Hch].
    specialize (IHr ltac:(lia) Hrest).
    cbn [recurse_at foldM]. cbn [recurse_at] in IHr.
    destruct node as [| | | | | |d| |]; try discriminate.
    cbn [py_get]. rewrite bind_Ok, (node_ok_step d tc Hok).
    cbn [preorder_at flat_map]. rewrite map_app, map_app, !app_assoc.
    simpl children in *.
    destruct (dget "content" d) as [[| | | | |l| | |]|] eqn:E;
      try (rewrite preorder_at_nil, bind_Ok, IHr; simpl; by rewrite ?app_nil_r).
    pose proof (nesting_dget _ _ _ E).
    rewrite (IH l _ ltac:(lia) Hch), bind_Ok, IHr. done.
Qed.

(** The budget [recurse_at] is run with is never used up. *)
Lemma recurse_at_no_overflow depth : ∀ nodes tc,
  (nesting (PList nodes) ≤ depth)%nat →
  recurse_at depth nodes tc ≠ Raise RecursionError.
Proof.
  induction depth as [|k IH]; intros nodes tc Hn; [simpl in Hn; lia|].
  revert tc. induction nodes as [|node rest IHr]; intros tc; [done|].
  pose proof (nesting_list_head node rest).
  pose proof (nesting_list_tail node rest).
  specialize (IHr ltac:(lia)). cbn [recurse_at] in IHr.
  cbn [recurse_at foldM].
  destruct node as [| | | | | |d| |]; try done.
  cbn [py_get]. rewrite bind_Ok.
  destruct (dget "content" d) as [[| | | | |l| | |]|] eqn:E;
    try (rewrite bind_Ok; apply IHr).
  pose proof (nesting_dget _ _ _ E).
  match goal with
  | |- context [recurse_at k l ?acc] =>
      pose proof (IH l acc ltac:(lia)) as Hl;
      destruct (recurse_at k l acc) as [tc'|e]
  end.
  - rewrite bind_Ok. apply IHr.
  - simpl. congruence.
Qed.

Lemma nesting_strs {A} (f : A → string) (l : list A) :
  nesting (PList (map (λ x, PStr (f x)) l)) = 1%nat.
Proof. induction l as [|x l IH]; simpl in *; [done|]. lia. Qed.

Lemma parse_jira_description_no_overflow (description_field : pyval) :
  parse_jira_description description_field ≠ Raise RecursionError.
Proof.
  destruct description_field as [| | | | | |d| |]; try done.
  unfold parse_jira_description.
  destruct (dget "content" d) as [content|] eqn:E; [|done].
  pose proof (nesting_dget _ _ _ E) as Hc.
  assert (Hnodes : ∀ nodes, py_iter content = Ok nodes →
            (nesting (PList nodes) ≤ nesting (PDict d))%nat).
  { intros nodes. destruct content as [| | | |s|l|d'| |]; try done;
      intros [= <-]; [rewrite nesting_strs|lia|rewrite nesting_strs];
      simpl in Hc |- *; lia. }
  destruct (py_iter content) as [nodes|e] eqn:Ei;
    [|simpl; destruct content; try discriminate; injection Ei as <-; done].
  rewrite bind_Ok.
  pose proof (recurse_at_no_overflow _ nodes [] (Hnodes nodes eq_refl)) as Hr.
  destruct (recurse_at _ nodes []) as [tc|e]; [|simpl; congruence].
  rewrite bind_Ok. unfold py_join.
  destruct (py_strs tc) as [ss|e] eqn:Es; [done|].
  simpl. intros [= ->]. clear -Es.
  revert Es. induction tc as [|x tc IH]; [done|].
  destruct x; try done. simpl. destruct (py_strs tc); [done|]. simpl. auto.
Qed.

(** ** The text extractor *)

(** C6.  For every rich-text document (an object whose "content" is a
    forest of nodes), [parse_jira_description] returns the strings carried by
    the nodes tagged "text", in depth-first pre-order, joined by single
    spaces.  A document whose content forest is empty, and a description
    that is absent (not an object, or an object without "content"), give the
    empty string. *)
Theorem parse_jira_description_preorder :
  (∀ d nodes,
     dget "content" d = Some (PList nodes) → rich_text nodes = true →
     parse_jira_description (PDict d) = Ok (String.concat " " (preorder nodes)))
  ∧ (∀ d, dget "content" d = Some (PList []) →
       parse_jira_description (PDict d) = Ok "")
  ∧ (∀ v, (∀ d, v = PDict d → dget "content" d = None) →
       parse_jira_description v = Ok "").
Proof.
  assert (Hmain : ∀ d nodes,
     dget "content" d = Some (PList nodes) → rich_text nodes = true →
     parse_jira_description (PDict d) = Ok (String.concat " " (preorder nodes))).
  { intros d nodes Hc Hw. unfold parse_jira_description. rewrite Hc.
    cbn [py_iter]. rewrite bind_Ok.
    pose proof (nesting_dget _ _ _ Hc) as Hn.
    rewrite recurse_at_preorder; [|lia|].
    - rewrite bind_Ok. unfold py_join. cbn [app].
      rewrite py_strs_PStr, bind_Ok. f_equal. f_equal.
      apply preorder_at_enough. lia.
    - rewrite <- Hw. apply rich_text_at_irrel; lia. }
  split; [exact Hmain|split].
  - intros d Hc. by rewrite (Hmain d [] Hc eq_refl).
  - intros v Hv. destruct v as [| | | | | |d| |]; try reflexivity.
    simpl. by rewrite (Hv d eq_refl).
Qed.

Lemma parse_jira_description_preorder_witness :
  parse_jira_description (PDict [("type", PStr "doc"); ("content", PList Sample.adf_nodes)])
  = Ok "Fix the crash on start up".
Proof.
  apply (proj1 parse_jira_description_preorder
           [("type", PStr "doc"); ("content", PList Sample.adf_nodes)] Sample.adf_nodes);
    reflexivity.
Defined.

(** ** The classifier *)

Lemma ISSUE_TYPE_MAP_other (s : string) :
  s ∉ ["Story"; "New Feature"; "Improvement"; "Epic"; "Bug"; "Defect";
       "Task"; "Sub-task"; "Chore"; "Technical Debt"] →
  ISSUE_TYPE_MAP !! s = None.
Proof.
  intros Hs. unfold ISSUE_TYPE_MAP, list_to_map. cbn [foldr fst snd].
  rewrite !elem_of_cons, elem_of_nil in Hs.
  rewrite !lookup_insert_ne by (intros E; subst s; tauto).
  apply lookup_empty.
Qed.

Lemma bucket_of_table (s : string) : bucket_of (PStr s) = Ok (spec_bucket s).
Proof.
  destruct (decide (s ∈ ["Story"; "New Feature"; "Improvement"; "Epic"; "Bug";
                          "Defect"; "Task"; "Sub-task"; "Chore"; "Technical Debt"]))
    as [Hin|Hout].
  - rewrite !elem_of_cons, elem_of_nil in Hin.
    repeat (destruct Hin as [->|Hin]; [by vm_compute|]). done.
  - simpl. rewrite (ISSUE_TYPE_MAP_other s Hout). simpl.
    rewrite !elem_of_cons, elem_of_nil in Hout.
    unfold spec_bucket.
    repeat (rewrite bool_decide_eq_false_2;
            [|rewrite !elem_of_cons, elem_of_nil; tauto]).
    done.
Qed.


Lemma type_name_Some ticket s :
  type_name ticket = Some s → issue_type_of ticket = Ok (PStr s).
Proof.
  unfold type_name.
  destruct (issue_type_of ticket) as [[| | | |s'| | | |]|]; naive_solver.
Qed.

(** The loop keeps every bucket in processing order. *)
Lemma categorize_from (tickets : list pyval) :
  ∀ cats0 : gmap string (list pyval),
  Forall (λ t, is_Some (type_name t)) tickets →
  (∀ b, b ∈ buckets → is_Some (cats0 !! b)) →
  ∃ cats,
    foldM (λ (categories : gmap string (list pyval)) ticket,
      issue_type ← issue_type_of ticket;
      category ← bucket_of issue_type;
      Ok (alter (λ l, l ++ [ticket]) category categories)) cats0 tickets = Ok cats
    ∧ ∀ b, b ∈ buckets →
        cats !! b = Some (default [] (cats0 !! b)
                          ++ filter (λ t, spec_bucket <$> type_name t = Some b) tickets).
Proof.
  induction tickets as [|t tickets IH]; intros cats0 Hty Hkeys.
  - exists cats0. split; [done|]. intros b Hb.
    destruct (Hkeys b Hb) as [l ->]. simpl. by rewrite app_nil_r.
  - inversion_clear Hty as [|? ? [s Hs] Hrest].
    cbn [foldM]. rewrite (type_name_Some _ _ Hs), bind_Ok, bucket_of_table, !bind_Ok.
    assert (Hkeys' : ∀ b, b ∈ buckets →
              is_Some (alter (λ l, l ++ [t]) (spec_bucket s) cats0 !! b)).
    { intros b Hb. rewrite lookup_alter. case_decide as Hc; [rewrite Hc|];
        destruct (Hkeys b Hb) as [l ->]; simpl; eauto. }
    destruct (IH _ Hrest Hkeys') as (cats & Hrun & Hcats).
    exists cats. split; [exact Hrun|]. intros b Hb.
    rewrite (Hcats b Hb), lookup_alter, filter_cons, Hs. simpl.
    destruct (decide (spec_bucket s = b)) as [Hc|Hne]; [rewrite Hc|];
      destruct (Hkeys b Hb) as [l ->]; simpl.
    + rewrite decide_True by done. by rewrite <- app_assoc.
    + rewrite decide_False by congruence. done.
Qed.

(** The label of a ticket is what the loop reads as its issue type. *)
Lemma type_name_label (ticket : pyval) : type_name ticket = issue_label ticket.
Proof.
  unfold type_name, issue_type_of, issue_label.
  destruct ticket as [| | | | | |d| |]; try done. cbn [py_get].
  rewrite bind_Ok. destruct (dget "fields" d) as [[| | | | | |f| |]|]; try done.
  cbn [default from_option id py_get]. rewrite bind_Ok.
  destruct (dget "issuetype" f) as [[| | | | | |it| |]|]; try done.
  cbn [default from_option id py_get].
  by destruct (dget "name" it) as [[]|].
Qed.

(** C7.  The classifier is the fixed lookup of the specification: Story,
    New Feature, Improvement and Epic go to features, Bug and Defect to
    fixes, Task, Sub-task, Chore and Technical Debt to maintenance, and every
    other issue-type string to maintenance.  Every ticket is put, in
    processing order, into the bucket that the lookup gives for the name
    under [issuetype] under [fields] of the ticket ([issue_label]). *)
Theorem classification :
  (∀ s : string, bucket_of (PStr s) = Ok (spec_bucket s))
  ∧ (∀ tickets : list pyval,
       Forall (λ t, is_Some (issue_label t)) tickets →
       ∃ cats, categorize tickets = Ok cats
         ∧ ∀ b, b ∈ buckets →
             cats !! b
             = Some (filter (λ t, spec_bucket <$> issue_label t = Some b) tickets)).
Proof.
  split; [exact bucket_of_table|].
  intros tickets Hty.
  assert (Hkeys : ∀ b, b ∈ buckets →
            is_Some (({["features" := []; "fixes" := []; "maintenance" := []]}
                      : gmap string (list pyval)) !! b)).
  { intros b Hb. unfold buckets in Hb. rewrite !elem_of_cons, elem_of_nil in Hb.
    destruct Hb as [->|[->|[->|[]]]]; exists []; by vm_compute. }
  assert (Forall (λ t, is_Some (type_name t)) tickets) as Hty'.
  { eapply Forall_impl; [exact Hty|]. intros t. by rewrite type_name_label. }
  destruct (categorize_from tickets _ Hty' Hkeys) as (cats & Hrun & Hcats).
  exists cats. split; [exact Hrun|]. intros b Hb. rewrite (Hcats b Hb).
  assert (filter (λ t, spec_bucket <$> type_name t = Some b) tickets
          = filter (λ t, spec_bucket <$> issue_label t = Some b) tickets) as ->.
  { apply list_filter_iff. intros t. by rewrite type_name_label. }
  unfold buckets in Hb. rewrite !elem_of_cons, elem_of_nil in Hb.
  destruct Hb as [->|[->|[->|[]]]]; done.
Qed.

Lemma classification_witness :
  bucket_of (PStr "Bug") = Ok "fixes"
  ∧ bucket_of (PStr "Spike") = Ok "maintenance"
  ∧ ∃ cats, categorize Sample.tickets = Ok cats
      ∧ ∀ b, b ∈ buckets →
          cats !! b
          = Some (filter (λ t, spec_bucket <$> issue_label t = Some b) Sample.tickets).
Proof.
  split; [exact (proj1 classification "Bug")|].
  split; [exact (proj1 classification "Spike")|].
  apply (proj2 classification Sample.tickets).
  repeat (constructor; [by eexists|]). constructor.
Defined.

(** ** Text: code points, white space and splitting *)

Lemma append_cons (c : ascii) (x y : string) : String c x +:+ y = String c (x +:+ y).
Proof. reflexivity. Qed.

Lemma append_nil_l (y : string) : "" +:+ y = y.
Proof. reflexivity. Qed.

Ltac str_simpl := rewrite ?append_cons, ?append_nil_l.
Ltac str_simpl_in H := rewrite ?append_cons, ?append_nil_l in H.

Lemma append_assoc (x y z : string) : (x +:+ y) +:+ z = x +:+ (y +:+ z).
Proof. induction x as [|c x IH]; str_simpl; [done|]. by rewrite IH. Qed.

Lemma append_nil_r (s : string) : s +:+ "" = s.
Proof. induction s as [|c s IH]; str_simpl; [done|]. by rewrite IH. Qed.

(** ** Code points *)

Lemma text_app (l1 l2 : list string) : text (l1 ++ l2) = text l1 +:+ text l2.
Proof.
  induction l1 as [|c l1 IH]; [done|]. cbn [app text foldr]. fold (text (l1 ++ l2)).
  fold (text l1). by rewrite IH, append_assoc.
Qed.

Lemma text_cons (c : string) (l : list string) : text (c :: l) = c +:+ text l.
Proof. reflexivity. Qed.

Lemma take_strays_Some (k : nat) : ∀ l t rest,
  take_strays k l = Some (t, rest) →
  ∃ ss, l = ss ++ rest ∧ length ss = k ∧ Forall (λ c, stray c = true) ss ∧ t = text ss.
Proof.
  induction k as [|k IH]; intros l t rest; cbn [take_strays].
  - intros [= <- <-]. by exists [].
  - destruct l as [|c l]; [done|]. destruct (stray c) eqn:Hc; [|done].
    destruct (take_strays k l) as [[t' rest']|] eqn:E; [|done].
    intros [= <- <-]. destruct (IH _ _ _ E) as (ss & -> & Hlen & Hall & ->).
    exists (c :: ss). repeat split; [by rewrite <- Hlen|by constructor].
Qed.

Lemma take_strays_app (k : nat) : ∀ l m,
  led_list m →
  take_strays k (l ++ m)
  = match take_strays k l with
    | Some (t, rest) => Some (t, rest ++ m)
    | None => None
    end.
Proof.
  induction k as [|k IH]; intros l m Hm; cbn [take_strays]; [done|].
  destruct l as [|c l]; cbn [app].
  - destruct m as [|c m]; [done|]. cbn [led_list] in Hm. by rewrite Hm.
  - destruct (stray c); [|done]. rewrite (IH _ _ Hm).
    by destruct (take_strays k l) as [[t rest]|].
Qed.

Lemma attach_app (b : ascii) (l m : list string) :
  led_list m → attach b (l ++ m) = attach b l ++ m.
Proof.
  intros Hm. unfold attach. rewrite (take_strays_app _ _ _ Hm).
  by destruct (take_strays (trail b) l) as [[t rest]|].
Qed.

Lemma attach_text (b : ascii) (l : list string) :
  text (attach b l) = String b (text l).
Proof.
  unfold attach. destruct (take_strays (trail b) l) as [[t rest]|] eqn:E; [|done].
  apply take_strays_Some in E as (ss & -> & _ & _ & ->).
  by rewrite text_cons, text_app.
Qed.

(** The code points of a text make up the text. *)
Lemma text_chars (s : string) : text (chars s) = s.
Proof.
  induction s as [|b s IH]; [done|]. cbn [chars]. by rewrite attach_text, IH.
Qed.

Lemma trail_continuation (b : ascii) : continuation b = true → trail b = 0%nat.
Proof.
  unfold continuation, trail. intros [_ H]%andb_prop. by rewrite H.
Qed.

Lemma attach_led (b : ascii) (l : list string) :
  continuation b = false → led_list (attach b l).
Proof.
  intros Hb. unfold attach.
  destruct (take_strays (trail b) l) as [[t rest]|]; cbn [led_list stray].
  - destruct t; [done|done].
  - done.
Qed.

Lemma chars_led (s : string) : led s → led_list (chars s).
Proof. destruct s as [|b s]; [done|]. intros Hb. by apply attach_led. Qed.

(** The code points of two texts put together, when the second does not
    start in the middle of a code point. *)
Lemma chars_app (a b : string) : led b → chars (a +:+ b) = chars a ++ chars b.
Proof.
  intros Hb. induction a as [|x a IH]; [done|]. str_simpl. cbn [chars].
  rewrite IH. apply attach_app. by apply chars_led.
Qed.

Lemma attach_tail (b : ascii) (l : list string) :
  ∃ c pre rest, attach b l = c :: rest ∧ l = pre ++ rest ∧ c = String b (text pre).
Proof.
  unfold attach. destruct (take_strays (trail b) l) as [[t rest]|] eqn:E.
  - apply take_strays_Some in E as (ss & -> & _ & _ & ->). by exists (String b (text ss)), ss, rest.
  - by exists (String b ""), [], l.
Qed.

(** What is left of the code points of a text after some of them are the
    code points of the text that is left. *)
Lemma chars_suffix (s : string) : ∀ l1 l2,
  chars s = l1 ++ l2 → chars (text l2) = l2.
Proof.
  induction s as [|b s IH]; intros l1 l2; cbn [chars].
  - intros H. symmetry in H. apply app_eq_nil in H as [_ ->]. done.
  - intros H. destruct l1 as [|c l1].
    + cbn [app] in H. subst l2. rewrite attach_text, text_chars. done.
    + destruct (attach_tail b (chars s)) as (c' & pre & rest & Ha & Hs & _).
      rewrite Ha in H. injection H as _ H. subst rest.
      apply (IH (pre ++ l1)). by rewrite <- app_assoc.
Qed.

Lemma chars_prefix (s : string) (l1 l2 : list string) :
  chars s = l1 ++ l2 → led_list l2 → chars (text l1) = l1.
Proof.
  intros H Hl2. pose proof (chars_suffix s l1 l2 H) as H2.
  pose proof (text_chars s) as Hs. rewrite H, text_app in Hs.
  assert (led (text l2)) as Hled.
  { destruct l2 as [|c l2]; [done|]. cbn [led_list] in Hl2.
    assert (c ∈ chars s) as Hc by (rewrite H; set_solver).
    clear -Hl2 H2. rewrite text_cons. rewrite text_cons in H2.
    destruct c as [|x c]; str_simpl.
    - destruct (text l2) as [|y t] eqn:E; [done|]. str_simpl_in H2.
      cbn [chars] in H2. cbn [led].
      destruct (continuation y) eqn:Hy; [|done]. exfalso.
      unfold attach in H2. rewrite (trail_continuation _ Hy) in H2.
      cbn [take_strays] in H2. by injection H2.
    - cbn [led]. destruct (continuation x) eqn:Hx; [|done]. exfalso.
      str_simpl_in H2. cbn [chars] in H2.
      unfold attach in H2. rewrite (trail_continuation _ Hx) in H2.
      cbn [take_strays] in H2. injection H2 as H2 _.
      destruct c; [|done]. cbn [stray] in Hl2. congruence. }
  rewrite <- Hs in H at 1. rewrite (chars_app _ _ Hled), H2 in H.
  by apply app_inv_tail in H.
Qed.

Lemma chars_nonempty (s c : string) : c ∈ chars s → c ≠ "".
Proof.
  revert c. induction s as [|b s IH]; intros c; cbn [chars]; [by intros ?%elem_of_nil|].
  destruct (attach_tail b (chars s)) as (c' & pre & rest & -> & Hs & ->).
  intros [->|Hc]%elem_of_cons; [done|]. apply IH. rewrite Hs. set_solver.
Qed.

(** A code point in front of a text. *)
Lemma chars_cons_point (c x : string) :
  is_Some (codepoint c) → chars (c +:+ x) = c :: chars x.
Proof.
  intros [n Hn]. unfold codepoint in Hn.
  destruct c as [|b0 [|b1 [|b2 [|b3 [|??]]]]]; try done; str_simpl; cbn [chars].
  - destruct (byte b0 <? 128)%N eqn:H0; [|done].
    unfold attach at 1, trail.
    assert ((byte b0 <? 192)%N = true) as -> by (apply N.ltb_lt; apply N.ltb_lt in H0; lia).
    done.
  - destruct (trail b0 =? 1)%nat eqn:H0; [|done]. apply Nat.eqb_eq in H0.
    destruct (continuation b1) eqn:H1; [|done].
    unfold attach. rewrite H0, (trail_continuation _ H1). cbn [take_strays stray].
    rewrite H1. by str_simpl.
  - destruct (trail b0 =? 2)%nat eqn:H0; [|done]. apply Nat.eqb_eq in H0.
    destruct (continuation b1) eqn:H1; [|done].
    destruct (continuation b2) eqn:H2; [|done].
    unfold attach. rewrite H0, (trail_continuation _ H1), (trail_continuation _ H2).
    cbn [take_strays stray]. rewrite H1, H2. by str_simpl.
  - destruct (trail b0 =? 3)%nat eqn:H0; [|done]. apply Nat.eqb_eq in H0.
    destruct (continuation b1) eqn:H1; [|done].
    destruct (continuation b2) eqn:H2; [|done].
    destruct (continuation b3) eqn:H3; [|done].
    unfold attach. rewrite H0, (trail_continuation _ H1), (trail_continuation _ H2),
      (trail_continuation _ H3).
    cbn [take_strays stray]. rewrite H1, H2, H3. by str_simpl.
Qed.

Lemma chars_text_points (l : list string) :
  Forall (λ c, is_Some (codepoint c)) l → chars (text l) = l.
Proof.
  induction 1 as [|c l Hc _ IH]; [done|].
  by rewrite text_cons, (chars_cons_point _ _ Hc), IH.
Qed.

Lemma codepoint_not_stray (c : string) : is_Some (codepoint c) → stray c = false.
Proof.
  intros [n Hn]. destruct c as [|b [|??]]; try done. cbn [codepoint stray] in *.
  destruct (byte b <? 128)%N eqn:Hb; [|done]. unfold continuation.
  apply N.ltb_lt in Hb. apply andb_false_iff. left. apply N.leb_gt. lia.
Qed.

Lemma chars_text_app_points (l : list string) (b : string) :
  Forall (λ c, is_Some (codepoint c)) l → chars (text l +:+ b) = l ++ chars b.
Proof.
  induction 1 as [|c l Hc _ IH]; [done|].
  by rewrite text_cons, append_assoc, (chars_cons_point _ _ Hc), IH.
Qed.

Lemma text_nil_inv (l : list string) :
  Forall (λ c, c ≠ "") l → text l = "" → l = [].
Proof.
  destruct l as [|c l]; [done|]. intros [Hc _]%Forall_cons. rewrite text_cons.
  by destruct c.
Qed.

(** ** Whitespace *)

Lemma lstrip_chars_all (p : string → bool) (l : list string) :
  forallb p l = true → lstrip_chars p l = [].
Proof.
  induction l as [|c l IH]; [done|]. cbn [forallb lstrip_chars].
  intros [Hc Hl]%andb_prop. rewrite Hc. auto.
Qed.

Lemma lstrip_chars_spec (p : string → bool) (l : list string) :
  ∃ pre, l = pre ++ lstrip_chars p l ∧ forallb p pre = true
         ∧ match lstrip_chars p l with c :: _ => p c = false | [] => True end.
Proof.
  induction l as [|c l (pre & Hl & Hpre & Hhd)]; [by exists []|].
  cbn [lstrip_chars]. destruct (p c) eqn:Hc.
  - exists (c :: pre). cbn [forallb app]. rewrite Hc, Hpre. by rewrite <- Hl.
  - by exists [].
Qed.

Lemma lstrip_all (p : string → bool) (s : string) :
  all_chars p s = true → lstrip p s = "".
Proof. intros H. unfold lstrip. by rewrite (lstrip_chars_all _ _ H). Qed.

(** A string of whitespace only, the empty string included, strips to the
    empty string. *)
Lemma strip_blank (s : string) : all_chars isspace s = true → strip s = "".
Proof. intros H. unfold strip. by rewrite (lstrip_chars_all _ _ H). Qed.

Lemma rev_nil_inv {A} (l : list A) : rev l = [] → l = [].
Proof. intros H. by rewrite <- (rev_involutive l), H. Qed.

Lemma lstrip_chars_In (p : string → bool) (l : list string) (c : string) :
  In c (lstrip_chars p l) → In c l.
Proof.
  destruct (lstrip_chars_spec p l) as (pre & Hl & _). intros Hc.
  rewrite Hl. apply in_or_app. by right.
Qed.

(** Only whitespace strips to the empty string. *)
Lemma strip_empty_inv (s : string) : strip s = "" → all_chars isspace s = true.
Proof.
  unfold strip, rstrip_chars, all_chars.
  set (X := lstrip_chars isspace (chars s)).
  intros H. apply text_nil_inv in H.
  - apply rev_nil_inv in H.
    destruct (lstrip_chars_spec isspace (rev X)) as (pre' & Hr & Hpre' & _).
    rewrite H, app_nil_r in Hr. rewrite <- Hr in Hpre'.
    assert (forallb isspace X = true) as Hall.
    { rewrite forallb_forall in *. intros c Hc. apply Hpre'. by apply in_rev in Hc. }
    destruct (lstrip_chars_spec isspace (chars s)) as (pre & Hs & Hpre & Hhd).
    fold X in Hs, Hhd. destruct X as [|c r].
    + by rewrite Hs, app_nil_r.
    + cbn [forallb] in Hall. apply andb_prop in Hall as [Hc _]. congruence.
  - apply Forall_forall. intros c Hc. apply (chars_nonempty s).
    apply list_elem_of_In. apply (lstrip_chars_In isspace).
    apply in_rev. apply (lstrip_chars_In isspace). apply in_rev.
    by apply list_elem_of_In.
Qed.

Lemma all_chars_impl (p q : string → bool) (s : string) :
  (∀ c, p c = true → q c = true) → all_chars p s = true → all_chars q s = true.
Proof.
  intros Hpq. unfold all_chars. rewrite !forallb_forall. auto.
Qed.

(** ** Splitting *)

Lemma is_sep_point (c : string) : is_sep c = true → is_Some (codepoint c).
Proof.
  unfold is_sep, isspace. intros [H|H]%orb_prop.
  - apply String.eqb_eq in H as ->. by eexists.
  - destruct (codepoint c); [by eexists|done].
Qed.

Lemma re_split_go_spec (l : list string) : ∀ cur in_run t,
  t ∈ re_split_go cur in_run l →
  ∃ l1 g l2,
    rev cur ++ l = l1 ++ g ++ l2 ∧ t = text g
    ∧ (forallb (λ c, negb (is_sep c)) cur = true →
       forallb (λ c, negb (is_sep c)) g = true)
    ∧ match l2 with c :: _ => is_sep c = true | [] => True end.
Proof.
  induction l as [|c r IH]; intros cur in_run t; cbn [re_split_go].
  - intros ->%list_elem_of_singleton. exists [], (rev cur), [].
    rewrite !app_nil_r. split; [done|]. split; [done|]. split; [|done]. intros H.
    rewrite forallb_forall in *. intros x Hx. apply H. by apply in_rev.
  - destruct (is_sep c) eqn:Hc.
    + assert (t ∈ re_split_go [] true r →
              ∃ l1 g l2, rev cur ++ c :: r = l1 ++ g ++ l2 ∧ t = text g
                ∧ (forallb (λ c, negb (is_sep c)) cur = true →
                   forallb (λ c, negb (is_sep c)) g = true)
                ∧ match l2 with c :: _ => is_sep c = true | [] => True end) as Hrest.
      { intros Ht. destruct (IH _ _ _ Ht) as (l1 & g & l2 & Heq & -> & Hg & Hl2).
        cbn [rev app] in Heq. exists (rev cur ++ c :: l1), g, l2.
        rewrite Heq, <- app_assoc. split; [done|]. split; [done|]. split; [|done].
        intros _. by apply Hg. }
      destruct in_run; [done|].
      intros [->|Ht]%elem_of_cons; [|by apply Hrest].
      exists [], (rev cur), (c :: r). split; [done|]. split; [done|]. split; [|done].
      intros H.
      rewrite forallb_forall in *. intros x Hx. apply H. by apply in_rev.
    + intros Ht. destruct (IH _ _ _ Ht) as (l1 & g & l2 & Heq & -> & Hg & Hl2).
      exists l1, g, l2. cbn [rev] in Heq. rewrite <- app_assoc in Heq.
      split; [done|]. split; [done|]. split; [|done]. intros H. apply Hg. cbn [forallb].
      by rewrite Hc, H.
Qed.

(** The pieces of a field are non-empty and hold no separator. *)
Lemma pieces_spec (s t : string) : t ∈ pieces s → t ≠ "" ∧ no_sep t = true.
Proof.
  unfold pieces. rewrite list_elem_of_filter. intros [Hne Ht]. split; [done|].
  apply re_split_go_spec in Ht as (l1 & g & l2 & Heq & -> & Hg & Hl2).
  cbn [rev app] in Heq. specialize (Hg eq_refl).
  unfold no_sep, all_chars.
  pose proof (chars_suffix _ _ _ Heq) as Hsuf.
  rewrite (chars_prefix _ _ _ Hsuf); [done|].
  destruct l2 as [|c l2]; [done|]. cbn [led_list].
  by apply codepoint_not_stray, is_sep_point.
Qed.

Lemma re_split_go_no_sep (l : list string) : ∀ cur in_run,
  forallb (λ c, negb (is_sep c)) l = true →
  re_split_go cur in_run l = [text (rev cur ++ l)].
Proof.
  induction l as [|c l IH]; intros cur in_run; cbn [re_split_go forallb].
  - by rewrite app_nil_r.
  - intros [Hc Hl]%andb_prop. apply negb_true_iff in Hc. rewrite Hc, (IH _ _ Hl).
    cbn [rev]. by rewrite <- app_assoc.
Qed.

(** A non-empty text without separators is its own single piece. *)
Lemma pieces_single (s : string) : s ≠ "" → no_sep s = true → pieces s = [s].
Proof.
  intros Hne Hs. unfold pieces, re_split. rewrite (re_split_go_no_sep _ _ _ Hs).
  cbn [rev app]. rewrite text_chars.
  rewrite filter_cons, decide_True by done. done.
Qed.

Lemma re_split_go_seps (l : list string) : ∀ in_run t,
  forallb is_sep l = true → t ∈ re_split_go [] in_run l → t = "".
Proof.
  induction l as [|c l IH]; intros in_run t Hs; cbn [re_split_go].
  - by intros ->%list_elem_of_singleton.
  - cbn [forallb] in Hs. apply andb_prop in Hs as [Hc Hs]. rewrite Hc.
    destruct in_run; [by apply IH|].
    intros [->|Ht]%elem_of_cons; [done|by eapply IH].
Qed.

(** A text of white space only has no pieces. *)
Lemma pieces_blank (s : string) : all_chars isspace s = true → pieces s = [].
Proof.
  intros Hs. unfold pieces, re_split.
  assert (forallb is_sep (chars s) = true) as Hsep.
  { apply (all_chars_impl isspace); [|done].
    intros c Hc. unfold is_sep. by rewrite Hc, orb_true_r. }
  pose proof (λ t, re_split_go_seps (chars s) false t Hsep) as Hall.
  induction (re_split_go [] false (chars s)) as [|t l IH]; [done|].
  rewrite filter_cons, decide_False.
  - apply IH. intros t' Ht'. apply Hall. by right.
  - intros Hne. apply Hne, Hall. by left.
Qed.

Lemma re_split_go_skip (g : list string) : ∀ cur in_run rest,
  forallb (λ c, negb (is_sep c)) g = true →
  re_split_go cur in_run (g ++ rest)
  = re_split_go (rev g ++ cur) (match g with [] => in_run | _ => false end) rest.
Proof.
  induction g as [|c g IH]; intros cur in_run rest Hg; [done|].
  cbn [forallb] in Hg. apply andb_prop in Hg as [Hc Hg].
  apply negb_true_iff in Hc. cbn [app re_split_go]. rewrite Hc, (IH _ _ _ Hg).
  cbn [rev]. rewrite <- app_assoc. cbn [app]. by destruct g.
Qed.

Lemma concat_cons (sep x y : string) (l : list string) :
  String.concat sep (x :: y :: l) = x +:+ sep +:+ String.concat sep (y :: l).
Proof. reflexivity. Qed.

(** Joined by a comma and a space, pieces split into themselves again. *)
Lemma re_split_concat (l : list string) :
  l ≠ [] → Forall (λ t, t ≠ "" ∧ no_sep t = true) l →
  ∀ in_run, re_split_go [] in_run (chars (String.concat ", " l)) = l.
Proof.
  induction l as [|x l IH]; [done|]. intros _ Hl in_run.
  apply Forall_cons in Hl as [[Hx Hs] Hl].
  destruct l as [|y l].
  - cbn [String.concat]. rewrite (re_split_go_no_sep _ _ _ Hs).
    cbn [rev app]. by rewrite text_chars.
  - rewrite concat_cons, chars_app by done.
    rewrite (re_split_go_skip _ _ _ _ Hs).
    assert (chars x ≠ []) as Hcx.
    { intros E. apply Hx. by rewrite <- (text_chars x), E. }
    destruct (chars x) as [|c cs] eqn:E; [done|]. rewrite <- E. clear E c cs Hcx.
    change (", " +:+ String.concat ", " (y :: l))
      with ("," +:+ (" " +:+ String.concat ", " (y :: l))).
    rewrite (chars_cons_point "," _ ltac:(by eexists)).
    rewrite (chars_cons_point " " _ ltac:(by eexists)).
    cbn [re_split_go]. change (is_sep ",") with true. change (is_sep " ") with true.
    cbv iota. rewrite app_nil_r, rev_involutive, text_chars. f_equal.
    by apply IH.
Qed.

Lemma pieces_concat (l : list string) :
  Forall (λ t, t ≠ "" ∧ no_sep t = true) l → pieces (String.concat ", " l) = l.
Proof.
  intros Hl. unfold pieces, re_split. destruct l as [|x l]; [done|].
  rewrite (re_split_concat (x :: l) ltac:(done) Hl).
  clear -Hl. induction Hl as [|t l' [Ht _] _ IH]; [done|].
  rewrite filter_cons, decide_True by done. by rewrite IH.
Qed.

Lemma nonblank_blank (s : string) :
  all_chars isspace s = true → nonblank (PStr s) = Ok None.
Proof.
  intros H. unfold nonblank. simpl. destruct (String.eqb s ""); simpl; [done|].
  by rewrite (strip_blank s H).
Qed.

(** ** The assembler *)

Section AssemblyProps.
Context `{W : World}.

Lemma ticket_lines_mapM (domain : pyval) (in_category : list pyval) :
  ∀ acc : list string,
  foldM (λ lines ticket, line ← ticket_line domain ticket; Ok (lines ++ [line]))
    acc in_category
  = (lines ← mapM (ticket_line domain) in_category; Ok (acc ++ lines)).
Proof.
  induction in_category as [|t ts IH]; intros acc; cbn [foldM mapM].
  - by rewrite bind_Ok, app_nil_r.
  - destruct (ticket_line domain t) as [line|e]; [|done].
    rewrite !bind_Ok, IH.
    destruct (mapM (ticket_line domain) ts) as [lines|e]; [|done].
    rewrite !bind_Ok. by rewrite <- app_assoc.
Qed.

Lemma section_step (domain : pyval) (categories : gmap string (list pyval))
    (md_lines : list string) (category title : string) :
  emit_section domain categories md_lines (category, title)
  = (block ← section_block domain title (default [] (categories !! category));
     Ok (md_lines ++ block)).
Proof.
  unfold emit_section, section_block.
  destruct (default [] (categories !! category)) as [|t ts].
  - by rewrite bind_Ok, app_nil_r.
  - rewrite ticket_lines_mapM.
    destruct (mapM (ticket_line domain) (t :: ts)) as [lines|e]; [|done].
    rewrite !bind_Ok. f_equal. by rewrite <- !app_assoc.
Qed.

Lemma mapM_Ok_elem {A B} (f : A → outcome B) (l : list A) (ys : list B) :
  mapM f l = Ok ys → ∀ y, y ∈ ys → ∃ x, x ∈ l ∧ f x = Ok y.
Proof.
  revert ys. induction l as [|x l IH]; intros ys; cbn [mapM].
  - intros [= <-] y Hy. by apply elem_of_nil in Hy.
  - destruct (f x) as [y0|e] eqn:Hx; [|done]. rewrite bind_Ok.
    destruct (mapM f l) as [ys0|e]; [|done]. rewrite bind_Ok.
    intros [= <-] y [->|Hy]%elem_of_cons.
    + exists x. split; [left|done].
    + destruct (IH ys0 eq_refl y Hy) as (x' & Hin & Hfx). exists x'. split; [by right|done].
Qed.

Lemma ticket_line_not_header domain ticket line :
  ticket_line domain ticket = Ok line → line ≠ header.
Proof.
  unfold ticket_line.
  destruct (py_item ticket "key") as [k|]; [|done]. rewrite !bind_Ok.
  destruct (py_item ticket "releaseNoteSummary") as [x|]; [|done]. rewrite bind_Ok.
  intros [= <-]. discriminate.
Qed.

Lemma section_block_not_header domain title in_category block :
  title ≠ header →
  section_block domain title in_category = Ok block → header ∉ block.
Proof.
  intros Ht. unfold section_block. destruct in_category as [|t ts].
  - intros [= <-]. apply not_elem_of_nil.
  - destruct (mapM (ticket_line domain) (t :: ts)) as [lines|e] eqn:Hm; [|done].
    rewrite bind_Ok. intros [= <-].
    rewrite elem_of_cons, elem_of_app, elem_of_cons, elem_of_nil.
    intros [Hh|[Hh|[Hh|[]]]]; [congruence| |discriminate].
    destruct (mapM_Ok_elem _ _ _ Hm _ Hh) as (x & _ & Hx).
    by apply ticket_line_not_header in Hx.
Qed.


Lemma final_md_lines_blocks
    (mongo_intro : string) (release_highlights : pyval) (upstream_section : string)
    (tickets : list pyval) (version codename domain : pyval) (today : string) :
  final_md_lines mongo_intro release_highlights upstream_section tickets
    version codename domain today
  = (highlights ← nonblank release_highlights;
     categories ← categorize tickets;
     features ← section_block domain "## ✨ New Features & Enhancements"
                  (default [] (categories !! "features"));
     fixes ← section_block domain "## 🐛 Bug Fixes"
               (default [] (categories !! "fixes"));
     maintenance ← section_block domain "## 🔧 Technical & Maintenance"
                     (default [] (categories !! "maintenance"));
     Ok (intro_block mongo_intro ++ highlights_block highlights
         ++ upstream_block upstream_section
         ++ title_block version codename today
         ++ features ++ fixes ++ maintenance)).
Proof.
  unfold final_md_lines.
  destruct (nonblank release_highlights) as [highlights|e]; [|done].
  rewrite !bind_Ok. cbv zeta.
  destruct (categorize tickets) as [categories|e]; [|done].
  rewrite !bind_Ok. cbn [foldM section_map].
  rewrite !section_step.
  destruct (section_block domain _ (default [] (categories !! "features")))
    as [features|e]; [|done].
  rewrite !bind_Ok, section_step.
  destruct (section_block domain _ (default [] (categories !! "fixes")))
    as [fixes|e]; [|done].
  rewrite !bind_Ok, section_step.
  destruct (section_block domain _ (default [] (categories !! "maintenance")))
    as [maintenance|e]; [|done].
  rewrite !bind_Ok. cbn [mret outcome_ret]. f_equal.
  unfold intro_block, upstream_block, highlights_block, title_block.
  destruct (String.eqb mongo_intro ""); destruct highlights as [h|];
    destruct (String.eqb upstream_section ""); cbn [negb app];
    by rewrite <- ?app_assoc.
Qed.

(** The tickets of a bucket are tickets that were handed in. *)
Lemma categorize_from_elem (tickets : list pyval) :
  ∀ (cats0 cats : gmap string (list pyval)),
  foldM (λ (categories : gmap string (list pyval)) ticket,
    issue_type ← issue_type_of ticket;
    category ← bucket_of issue_type;
    Ok (alter (λ l, l ++ [ticket]) category categories)) cats0 tickets = Ok cats →
  ∀ b l t, cats !! b = Some l → t ∈ l →
    t ∈ tickets ∨ ∃ l0, cats0 !! b = Some l0 ∧ t ∈ l0.
Proof.
  induction tickets as [|ticket tickets IH]; intros cats0 cats; cbn [foldM].
  - intros [= <-] b l t Hb Ht. right. by exists l.
  - destruct (issue_type_of ticket) as [ty|e]; [|done]. rewrite bind_Ok.
    destruct (bucket_of ty) as [category|e]; [|done]. rewrite !bind_Ok.
    intros H b l t Hb Ht.
    destruct (IH _ _ H b l t Hb Ht) as [Hin|(l0 & Hl0 & Hin)]; [left; by right|].
    rewrite lookup_alter in Hl0. case_decide as Hc.
    + subst b. destruct (cats0 !! category) as [l1|] eqn:E; [|done].
      cbn [fmap option_fmap option_map] in Hl0. injection Hl0 as <-.
      apply elem_of_app in Hin as [Hin|Hin]; [right; by exists l1|].
      apply list_elem_of_singleton in Hin as ->. left. by left.
    + right. by exists l0.
Qed.

Lemma categorize_elem (tickets : list pyval) (cats : gmap string (list pyval)) b t :
  categorize tickets = Ok cats → t ∈ default [] (cats !! b) → t ∈ tickets.
Proof.
  intros H Ht. destruct (cats !! b) as [l|] eqn:Hb; [|by apply elem_of_nil in Ht].
  destruct (categorize_from_elem _ _ _ H b l t Hb Ht) as [Hin|(l0 & Hl0 & Hin)]; [done|].
  exfalso.
  apply lookup_insert_Some in Hl0 as [[_ <-]|[_ Hl0]]; [by apply elem_of_nil in Hin|].
  apply lookup_insert_Some in Hl0 as [[_ <-]|[_ Hl0]]; [by apply elem_of_nil in Hin|].
  apply lookup_singleton_Some in Hl0 as [_ <-]. by apply elem_of_nil in Hin.
Qed.

Lemma lines_of_cons (s : string) : ∃ l ls, lines_of s = l :: ls.
Proof.
  destruct s as [|c s]; [by eexists _, _|]. cbn [lines_of].
  destruct (Ascii.eqb c "010"); [by eexists _, _|].
  destruct (lines_of s); by eexists _, _.
Qed.

Lemma lines_of_app_nl (a b : string) :
  lines_of (a +:+ nl +:+ b) = lines_of a ++ lines_of b.
Proof.
  induction a as [|c a IH]; [done|]. rewrite append_cons. cbn [lines_of].
  destruct (Ascii.eqb c "010"); [by rewrite IH|]. rewrite IH.
  by destruct (lines_of_cons a) as (l & ls & ->).
Qed.

(** The lines of the joined text are the lines of what was joined. *)
Lemma lines_of_concat (ls : list string) (line : string) :
  line ∈ lines_of (String.concat nl ls) →
  ls = [] ∨ ∃ l, l ∈ ls ∧ line ∈ lines_of l.
Proof.
  induction ls as [|x ls IH]; [by left|]. intros Hin. right.
  destruct ls as [|y ls].
  - exists x. split; [by left|done].
  - rewrite concat_cons, lines_of_app_nl, elem_of_app in Hin.
    destruct Hin as [Hx|Hr].
    + exists x. split; [by left|done].
    + destruct (IH Hr) as [|(l & Hl & Hline)]; [done|].
      exists l. split; [by right|done].
Qed.

Lemma one_line_lines (s : string) : one_line s = true → lines_of s = [s].
Proof.
  induction s as [|c s IH]; [done|]. cbn [one_line lines_of].
  intros [Hc Hs]%andb_prop. apply negb_true_iff in Hc. by rewrite Hc, (IH Hs).
Qed.

Lemma one_line_app (a b : string) :
  one_line (a +:+ b) = one_line a && one_line b.
Proof.
  induction a as [|c a IH]; [done|]. rewrite append_cons. cbn [one_line].
  by rewrite IH, andb_assoc.
Qed.

Lemma ticket_line_one_line domain ticket line :
  one_line (py_str domain) = true →
  (∀ k x, py_item ticket "key" = Ok k → py_item ticket "releaseNoteSummary" = Ok x →
     one_line (py_str k) = true ∧ one_line (py_str x) = true) →
  ticket_line domain ticket = Ok line → one_line line = true.
Proof.
  intros Hd Ht. unfold ticket_line.
  destruct (py_item ticket "key") as [k|] eqn:Hk; [|done]. rewrite !bind_Ok.
  destruct (py_item ticket "releaseNoteSummary") as [x|] eqn:Hx; [|done].
  rewrite bind_Ok. intros [= <-]. destruct (Ht k x eq_refl eq_refl) as [Hok Hox].
  rewrite !one_line_app, Hd, Hok, Hox. done.
Qed.

Lemma section_block_lines domain title (in_category : list pyval) block line :
  one_line title = true → title ≠ header →
  one_line (py_str domain) = true →
  Forall (λ t, ∀ k x, py_item t "key" = Ok k → py_item t "releaseNoteSummary" = Ok x →
            one_line (py_str k) = true ∧ one_line (py_str x) = true) in_category →
  section_block domain title in_category = Ok block →
  line ∈ block → header ∉ lines_of line.
Proof.
  intros Ht Hne Hd Hall. unfold section_block. destruct in_category as [|t ts].
  - intros [= <-] Hin. by apply elem_of_nil in Hin.
  - destruct (mapM (ticket_line domain) (t :: ts)) as [lines|e] eqn:Hm; [|done].
    rewrite bind_Ok. intros [= <-].
    rewrite elem_of_cons, elem_of_app, elem_of_cons, elem_of_nil.
    intros [->|[Hin|[->|[]]]].
    + rewrite (one_line_lines _ Ht). intros H%list_elem_of_singleton. by apply Hne.
    + destruct (mapM_Ok_elem _ _ _ Hm _ Hin) as (x & Hx & Hline).
      rewrite Forall_forall in Hall.
      rewrite (one_line_lines _ (ticket_line_one_line _ _ _ Hd (Hall x Hx) Hline)).
      intros H%list_elem_of_singleton. apply ticket_line_not_header in Hline.
      by apply Hline.
    + by intros ?%list_elem_of_singleton.
Qed.

(** C8.  The assembled markdown is the concatenation, in this fixed order,
    of the intro block, the release highlights block, the upstream
    improvements block, the title line, the release-date line (followed by a
    rule), and the features, fixes and maintenance sections, joined by
    newlines; a block whose content is empty is the empty list of lines
    ([intro_block], [highlights_block], [upstream_block], [section_block]).
    When the release highlights are empty or whitespace only, the line
    "## Release Highlights" is no line of the output, as long as it is no
    line of the intro or of the upstream section handed in and the texts
    that go into the title line and the ticket lines (version, codename,
    date, tracker domain, keys and summaries) hold no newline. *)
Theorem assembled_in_fixed_order
    (mongo_intro : string) (release_highlights : pyval) (upstream_section : string)
    (tickets : list pyval) (version codename domain : pyval) (today : string) :
  generate_final_markdown mongo_intro release_highlights upstream_section tickets
    version codename domain today
  = (highlights ← nonblank release_highlights;
     categories ← categorize tickets;
     features ← section_block domain "## ✨ New Features & Enhancements"
                  (default [] (categories !! "features"));
     fixes ← section_block domain "## 🐛 Bug Fixes"
               (default [] (categories !! "fixes"));
     maintenance ← section_block domain "## 🔧 Technical & Maintenance"
                     (default [] (categories !! "maintenance"));
     Ok (String.concat nl
           (intro_block mongo_intro ++ highlights_block highlights
            ++ upstream_block upstream_section
            ++ title_block version codename today
            ++ features ++ fixes ++ maintenance)))
  ∧ (∀ s output,
       release_highlights = PStr s → all_chars isspace s = true →
       generate_final_markdown mongo_intro release_highlights upstream_section
         tickets version codename domain today = Ok output →
       header ∉ lines_of mongo_intro →
       header ∉ lines_of upstream_section →
       one_line (py_str version) = true →
       one_line (py_str codename) = true →
       one_line today = true →
       one_line (py_str domain) = true →
       Forall (λ t, ∀ k x,
                 py_item t "key" = Ok k → py_item t "releaseNoteSummary" = Ok x →
                 one_line (py_str k) = true ∧ one_line (py_str x) = true) tickets →
       header ∉ lines_of output).
Proof.
  split.
  - unfold generate_final_markdown. rewrite final_md_lines_blocks.
    destruct (nonblank release_highlights) as [highlights|e]; [|done].
    rewrite !bind_Ok.
    destruct (categorize tickets) as [categories|e]; [|done].
    rewrite !bind_Ok.
    repeat (match goal with
            | |- context [section_block ?d ?t ?l] =>
                destruct (section_block d t l); [rewrite !bind_Ok|done]
            end).
    done.
  - intros s output -> Hs Hout Hintro Hup Hv Hc Hday Hd Hall.
    unfold generate_final_markdown in Hout. rewrite final_md_lines_blocks in Hout.
    rewrite (nonblank_blank s Hs), bind_Ok in Hout.
    destruct (categorize tickets) as [categories|e] eqn:Hcat; [|done].
    rewrite !bind_Ok in Hout.
    assert (Hsub : ∀ b,
      Forall (λ t, ∀ k x,
                py_item t "key" = Ok k → py_item t "releaseNoteSummary" = Ok x →
                one_line (py_str k) = true ∧ one_line (py_str x) = true)
        (default [] (categories !! b))).
    { intros b. apply Forall_forall. intros t Ht. rewrite Forall_forall in Hall.
      apply Hall. by apply (categorize_elem _ _ b t Hcat). }
    destruct (section_block domain _ (default [] (categories !! "features")))
      as [features|e] eqn:Hf; [|done].
    rewrite !bind_Ok in Hout.
    destruct (section_block domain _ (default [] (categories !! "fixes")))
      as [fixes|e] eqn:Hx; [|done].
    rewrite !bind_Ok in Hout.
    destruct (section_block domain _ (default [] (categories !! "maintenance")))
      as [maintenance|e] eqn:Hm; [|done].
    rewrite !bind_Ok in Hout.
    assert (Hlines : ∀ line,
      line ∈ intro_block mongo_intro ++ highlights_block None
             ++ upstream_block upstream_section
             ++ title_block version codename today
             ++ features ++ fixes ++ maintenance →
      header ∉ lines_of line).
    { intros line Hline. rewrite !elem_of_app in Hline.
      destruct Hline as [Hline|[Hline|[Hline|[Hline|[Hline|[Hline|Hline]]]]]].
      - unfold intro_block in Hline. destruct (String.eqb mongo_intro "").
        + by apply elem_of_nil in Hline.
        + rewrite !elem_of_cons, elem_of_nil in Hline.
          destruct Hline as [->|[->|[]]]; [done|].
          change (lines_of (nl +:+ "---")) with ["" ; "---"].
          rewrite !elem_of_cons, elem_of_nil. by intros [?|[?|[]]].
      - by apply elem_of_nil in Hline.
      - unfold upstream_block in Hline. destruct (String.eqb upstream_section "").
        + by apply elem_of_nil in Hline.
        + rewrite !elem_of_cons, elem_of_nil in Hline.
          destruct Hline as [->|[->|[]]]; [done|].
          change (lines_of (nl +:+ "---")) with ["" ; "---"].
          rewrite !elem_of_cons, elem_of_nil. by intros [?|[?|[]]].
      - unfold title_block in Hline. rewrite !elem_of_cons, elem_of_nil in Hline.
        destruct Hline as [->|[->|[->|[]]]].
        + rewrite one_line_lines.
          * intros H%list_elem_of_singleton.
            destruct (truthy version), (truthy codename); discriminate.
          * destruct (truthy version), (truthy codename);
              rewrite ?one_line_app, ?Hv, ?Hc; done.
        + rewrite one_line_lines by (by rewrite !one_line_app, Hday).
          intros H%list_elem_of_singleton. discriminate.
        + intros H%list_elem_of_singleton. discriminate.
      - by apply (section_block_lines domain "## ✨ New Features & Enhancements"
                    (default [] (categories !! "features")) features line).
      - by apply (section_block_lines domain "## 🐛 Bug Fixes"
                    (default [] (categories !! "fixes")) fixes line).
      - by apply (section_block_lines domain "## 🔧 Technical & Maintenance"
                    (default [] (categories !! "maintenance")) maintenance line). }
    injection Hout as <-.
    intros Hin. apply lines_of_concat in Hin as [Hnil|(line & Hline & Hin)].
    + unfold title_block in Hnil.
      by destruct (intro_block _), (highlights_block _), (upstream_block _).
    + by apply (Hlines line Hline).
Qed.

End AssemblyProps.

(** ** Version extraction *)

Section Versions.
Context `{W : World}.

Lemma isdigit_point (c : string) : isdigit c = true → is_Some (codepoint c).
Proof. unfold isdigit. destruct (codepoint c); [by eexists|done]. Qed.

Lemma dot_nondigit : isdigit "." = false.
Proof. reflexivity. Qed.

Lemma stops_dot (r : list string) : stops ("." :: r).
Proof. reflexivity. Qed.

Lemma span_digits_spec (l a r : list string) :
  span_digits l = (a, r) →
  l = a ++ r ∧ forallb isdigit a = true ∧ stops r.
Proof.
  revert a r. induction l as [|c l IH]; intros a r; cbn [span_digits].
  - by intros [= <- <-].
  - destruct (isdigit c) eqn:Hc.
    + destruct (span_digits l) as [ds rest]. intros [= <- <-].
      destruct (IH ds rest eq_refl) as (-> & Hds & Hr).
      cbn [forallb]. by rewrite Hc, Hds.
    + by intros [= <- <-].
Qed.

Lemma span_digits_app (a r : list string) :
  forallb isdigit a = true → stops r → span_digits (a ++ r) = (a, r).
Proof.
  intros Ha Hr. induction a as [|c a IH]; cbn [app span_digits forallb] in *.
  - destruct r as [|c r]; [done|]. cbn [stops span_digits] in *. by rewrite Hr.
  - apply andb_prop in Ha as [Hc Ha]. by rewrite Hc, (IH Ha).
Qed.

Lemma digits_text (a : list string) :
  a ≠ [] → forallb isdigit a = true → digits (text a).
Proof.
  intros Hne Ha.
  assert (Forall (λ c, is_Some (codepoint c)) a) as Hp.
  { apply Forall_forall. intros c Hc. apply isdigit_point.
    rewrite forallb_forall in Ha. by apply Ha, list_elem_of_In. }
  split.
  - intros E. apply Hne. rewrite <- (chars_text_points a Hp), E. done.
  - unfold all_chars. by rewrite (chars_text_points a Hp).
Qed.

(** What is matched at the head is a triplet, as long as it can be. *)
Lemma match_here_Some (l : list string) (v : string) :
  match_here l = Some v →
  ∃ post, text l = v +:+ text post ∧ triplet v ∧ stops post
          ∧ ∃ m, l = m ++ post.
Proof.
  unfold match_here.
  destruct (span_digits l) as [a r1] eqn:E1.
  apply span_digits_spec in E1 as (-> & Ha & _).
  destruct a as [|a0 a]; [done|]. destruct r1 as [|c1 r2]; [done|].
  destruct (String.eqb_spec c1 ".") as [->|]; [|done].
  destruct (span_digits r2) as [b r3] eqn:E2.
  apply span_digits_spec in E2 as (-> & Hb & _).
  destruct b as [|b0 b]; [done|]. destruct r3 as [|c2 r4]; [done|].
  destruct (String.eqb_spec c2 ".") as [->|]; [|done].
  destruct (span_digits r4) as [c r5] eqn:E3.
  apply span_digits_spec in E3 as (-> & Hc & Hr5).
  destruct c as [|c0 c]; [done|]. intros [= <-].
  exists r5. split; [|split; [|split; [done|]]].
  - repeat (rewrite ?text_app, ?text_cons). rewrite !append_assoc. by str_simpl.
  - exists (text (a0 :: a)), (text (b0 :: b)), (text (c0 :: c)).
    split; [done|]. by repeat split; apply digits_text.
  - exists ((a0 :: a) ++ "." :: (b0 :: b) ++ "." :: (c0 :: c)).
    by repeat (rewrite <- ?app_assoc; cbn [app]).
Qed.

Lemma digits_chars (a : string) :
  digits a → chars a ≠ [] ∧ forallb isdigit (chars a) = true.
Proof.
  intros [Hne Ha]. split; [|done]. intros E. apply Hne.
  by rewrite <- (text_chars a), E.
Qed.

Lemma digits_points (a : string) :
  digits a → Forall (λ c, is_Some (codepoint c)) (chars a).
Proof.
  intros [_ Ha]. apply Forall_forall. intros c Hc. apply isdigit_point.
  unfold all_chars in Ha. rewrite forallb_forall in Ha.
  by apply Ha, list_elem_of_In.
Qed.

Lemma digits_app (a b : string) : digits a → chars (a +:+ b) = chars a ++ chars b.
Proof.
  intros Ha. rewrite <- (text_chars a) at 1.
  by apply chars_text_app_points, digits_points.
Qed.

(** Where a triplet starts, the pattern matches. *)
Lemma match_here_complete (s : string) :
  starts_triplet s → is_Some (match_here (chars s)).
Proof.
  intros (v & post & -> & a & b & c & -> & Ha & Hb & Hc).
  rewrite !append_assoc.
  rewrite (digits_app _ _ Ha), (chars_cons_point "." _ ltac:(by eexists)).
  rewrite (digits_app _ _ Hb), (chars_cons_point "." _ ltac:(by eexists)).
  rewrite (digits_app _ _ Hc).
  apply digits_chars in Ha as [Hna Ha], Hb as [Hnb Hb], Hc as [Hnc Hc].
  unfold match_here.
  rewrite (span_digits_app (chars a) _ Ha (stops_dot _)).
  destruct (chars a) as [|a0 la]; [done|].
  change (String.eqb "." ".") with true. cbv iota.
  rewrite (span_digits_app (chars b) _ Hb (stops_dot _)).
  destruct (chars b) as [|b0 lb]; [done|].
  change (String.eqb "." ".") with true. cbv iota.
  destruct (span_digits (chars c ++ chars post)) as [c' r5] eqn:E.
  apply span_digits_spec in E as (E & _ & Hr5).
  destruct c' as [|c0 c']; [|eauto].
  exfalso. cbn [app] in E. subst r5.
  destruct (chars c) as [|c0 lc]; [done|].
  cbn [app stops forallb] in Hc, Hr5.
  apply andb_prop in Hc as [Hc _]. congruence.
Qed.

Lemma search_chars_Some (l : list string) (v : string) :
  search_chars l = Some v →
  ∃ l1 l2, l = l1 ++ l2 ∧ match_here l2 = Some v
    ∧ ∀ l1' l2', l = l1' ++ l2' → is_Some (match_here l2') →
        ∃ x, l1' = l1 ++ x.
Proof.
  revert v. induction l as [|c l IH]; intros v; cbn [search_chars].
  - intros H. by vm_compute in H.
  - destruct (match_here (c :: l)) as [v'|] eqn:E.
    + intros [= ->]. exists [], (c :: l). repeat split; try done.
      intros l1' l2' _ _. by exists l1'.
    + intros Hs. destruct (IH v Hs) as (l1 & l2 & -> & Hm & Hfirst).
      exists (c :: l1), l2. repeat split; try done.
      intros [|c1 l1'] l2' Heq Hst.
      * cbn [app] in Heq. subst l2'. destruct Hst as [? Hst]. congruence.
      * cbn [app] in Heq. injection Heq as <- Heq.
        destruct (Hfirst l1' l2' Heq Hst) as [x ->]. by exists x.
Qed.

Lemma search_chars_None (l : list string) :
  search_chars l = None → ∀ l1 l2, l = l1 ++ l2 → match_here l2 = None.
Proof.
  induction l as [|c l IH]; cbn [search_chars].
  - intros _ [|??] l2; [|done]. cbn [app]. by intros <-.
  - destruct (match_here (c :: l)) as [v'|] eqn:E; [done|].
    intros Hs [|c1 l1] l2.
    + cbn [app]. by intros <-.
    + cbn [app]. intros [= <- Heq]. by apply (IH Hs l1 l2).
Qed.

(** A triplet does not start in the middle of a code point. *)
Lemma starts_triplet_led (s : string) : starts_triplet s → led s.
Proof.
  intros (v & post & -> & a & b & c & -> & Ha & _).
  pose proof (digits_points _ Ha) as Hp. apply digits_chars in Ha as [Hne _].
  destruct a as [|x a]; [done|]. rewrite !append_assoc. str_simpl. cbn [led].
  destruct (continuation x) eqn:Hx; [|done]. exfalso.
  cbn [chars] in Hp. unfold attach in Hp. rewrite (trail_continuation _ Hx) in Hp.
  cbn [take_strays] in Hp. apply Forall_cons in Hp as [Hp _].
  apply codepoint_not_stray in Hp. cbn [stray] in Hp. congruence.
Qed.

Lemma search_version_Some (url v : string) :
  search_version url = Some v →
  ∃ pre post,
    url = pre +:+ v +:+ post ∧ triplet v ∧ head_nondigit post
    ∧ ∀ pre1 rest, url = pre1 +:+ rest → starts_triplet rest →
        ∃ x, pre1 = pre +:+ x.
Proof.
  unfold search_version. intros H.
  apply search_chars_Some in H as (l1 & l2 & Hl & Hm & Hfirst).
  apply match_here_Some in Hm as (post & Ht & Htr & Hstop & m & Hm).
  exists (text l1), (text post). split; [|split; [done|split]].
  - by rewrite <- Ht, <- text_app, <- Hl, text_chars.
  - unfold head_nondigit. subst l2. rewrite app_assoc in Hl.
    by rewrite (chars_suffix _ _ _ Hl).
  - intros pre1 rest -> Hst.
    pose proof (starts_triplet_led _ Hst) as Hled.
    rewrite (chars_app _ _ Hled) in Hfirst.
    destruct (Hfirst _ _ eq_refl (match_here_complete _ Hst)) as [x Hx].
    exists (text x). by rewrite <- text_app, <- Hx, text_chars.
Qed.

Lemma search_version_None (url : string) :
  search_version url = None →
  ∀ pre rest, url = pre +:+ rest → ¬ starts_triplet rest.
Proof.
  unfold search_version. intros H pre rest -> Hst.
  pose proof (starts_triplet_led _ Hst) as Hled.
  rewrite (chars_app _ _ Hled) in H.
  pose proof (search_chars_None _ H _ _ eq_refl) as Hn.
  destruct (match_here_complete _ Hst) as [? Hs]. congruence.
Qed.

Lemma no_triplet_iff (url : string) :
  search_version url = None
  ↔ ∀ pre rest, url = pre +:+ rest → ¬ starts_triplet rest.
Proof.
  split; [apply search_version_None|].
  intros Hno. destruct (search_version url) as [v|] eqn:E; [exfalso|done].
  apply search_version_Some in E as (pre & post & -> & Ht & _).
  apply (Hno pre (v +:+ post) eq_refl). by exists v, post.
Qed.

End Versions.

Lemma no_sep_nonblank (s : string) :
  s ≠ "" → no_sep s = true → nonblank (PStr s) = Ok (Some s).
Proof.
  intros Hne Hs. unfold nonblank. cbn [truthy].
  destruct (String.eqb_spec s ""); [done|]. cbn [negb].
  destruct (String.eqb_spec (strip s) "") as [He|]; [|done].
  apply strip_empty_inv in He. exfalso. apply Hne.
  rewrite <- (text_chars s). unfold no_sep, all_chars in *.
  destruct (chars s) as [|c l]; [done|]. cbn [forallb] in *.
  apply andb_prop in Hs as [Hs _]. apply andb_prop in He as [He _].
  unfold is_sep in Hs. by rewrite He, orb_true_r in Hs.
Qed.

Section SetList.
Context `{W : World}.

Lemma set_list_single (x : string) : set_list [x] = [x].
Proof.
  pose proof (set_list_NoDup [x]) as Hnd.
  pose proof (set_list_elem [x]) as Hel.
  destruct (set_list [x]) as [|a l].
  - exfalso. apply (not_elem_of_nil x), Hel. by left.
  - assert (a = x) as ->.
    { apply list_elem_of_singleton, Hel. by left. }
    destruct l as [|b l]; [done|].
    assert (b = x) as ->.
    { apply list_elem_of_singleton, Hel. right. by left. }
    apply NoDup_cons in Hnd as [Hnd _]. exfalso. apply Hnd. by left.
Qed.

Lemma set_list_Permutation (xs : list string) : set_list xs ≡ₚ remove_dups xs.
Proof.
  apply NoDup_Permutation.
  - apply set_list_NoDup.
  - apply NoDup_remove_dups.
  - intros x. by rewrite set_list_elem, elem_of_remove_dups.
Qed.

(** Sorting forgets the order in which the set lists its elements. *)
Lemma sorted_set_list (xs : list string) :
  sorted (set_list xs) = sorted (remove_dups xs).
Proof.
  unfold sorted. apply (Sorted_unique String.le).
  - apply Sorted_merge_sort; apply _.
  - apply Sorted_merge_sort; apply _.
  - by rewrite !merge_sort_Permutation, set_list_Permutation.
Qed.

End SetList.

Section VersionUse.
Context `{W : World}.

(** The intro for a single URL. *)
Lemma generate_mongo_intro_single (url : string) (version : pyval) (date : string) :
  url ≠ "" → no_sep url = true →
  generate_mongo_intro (PStr url) version date
  = match search_version url with
    | Some v =>
        display_version ← display_version_of version;
        Ok (intro_paragraph display_version date [mongo_link url v] [v])
    | None => Ok ""
    end.
Proof.
  intros Hne Hs. unfold generate_mongo_intro.
  rewrite (no_sep_nonblank url Hne Hs), bind_Ok, (pieces_single url Hne Hs),
    set_list_single.
  unfold collect_links. cbn [foldl].
  destruct (search_version url) as [v|]; [|done]. done.
Qed.


End VersionUse.


Lemma assembled_in_fixed_order_witness :
  generate_final_markdown (W := Sample.world) "" (PStr SampleStore.wide_space) ""
    [PDict [("key", PStr "ABC-1");
            ("fields", PDict [("issuetype", PDict [("name", PStr "Bug")])]);
            ("releaseNoteSummary", PStr "Fixed a crash.")]]
    (PStr "1.2.3") PNone (PStr "jira.example.org") "2026-11-03"
  = Ok (String.concat nl
          ["# Release 1.2.3"; "*Released on: 2026-11-03*"; "---";
           "## 🐛 Bug Fixes";
           "- [ABC-1](https://jira.example.org/browse/ABC-1): Fixed a crash.";
           ""])
  ∧ header
    ∉ lines_of
        (String.concat nl
           ["# Release 1.2.3"; "*Released on: 2026-11-03*"; "---";
            "## 🐛 Bug Fixes";
            "- [ABC-1](https://jira.example.org/browse/ABC-1): Fixed a crash.";
            ""]).
Proof.
  pose proof (assembled_in_fixed_order (W := Sample.world) "" (PStr SampleStore.wide_space) ""
                [PDict [("key", PStr "ABC-1");
                        ("fields", PDict [("issuetype", PDict [("name", PStr "Bug")])]);
                        ("releaseNoteSummary", PStr "Fixed a crash.")]]
                (PStr "1.2.3") PNone (PStr "jira.example.org") "2026-11-03")
    as [Heq Hline].
  split; [rewrite Heq; reflexivity|].
  apply (Hline SampleStore.wide_space); try reflexivity.
  - intros H%list_elem_of_singleton. discriminate.
  - intros H%list_elem_of_singleton. discriminate.
  - constructor; [|constructor]. intros k x [= <-] [= <-]. split; reflexivity.
Defined.

(** Against C8 as stated: with highlights of white space only the header
    is a line of the output all the same, when the summary of a ticket
    holds a newline followed by it. *)
Lemma header_line_from_a_summary :
  all_chars isspace "  " = true
  ∧ ∃ output,
      generate_final_markdown (W := Sample.world) "" (PStr "  ") ""
        [PDict [("key", PStr "ABC-1");
                ("releaseNoteSummary",
                 PStr ("Fixed a crash." +:+ nl +:+ "## Release Highlights"))]]
        PNone PNone (PStr "jira.example.org") "2026-11-03"
      = Ok output
      ∧ header ∈ lines_of output.
Proof.
  split; [reflexivity|]. eexists. split; [vm_compute; reflexivity|].
  match goal with |- _ ∈ ?l => let v := eval vm_compute in l in change l with v end.
  repeat (first [by left | right]).
Qed.

(** ** The summarizer *)

Section Summarizer.
Context `{W : World}.

Lemma not_blank_test (description : string) :
  all_chars isspace description = false →
  String.eqb description "" || String.eqb (strip description) "" = false.
Proof.
  intros H. apply orb_false_intro.
  - destruct (String.eqb_spec description "") as [->|]; [done|done].
  - destruct (String.eqb_spec (strip description) "") as [He|]; [|done].
    apply strip_empty_inv in He. congruence.
Qed.


End Summarizer.



(** ** The store *)

Section Store.
Context `{W : World}.

Lemma db_eta (d : db) :
  {| db_settings := db_settings d; db_releases := db_releases d |} = d.
Proof. by destruct d. Qed.


(** After a POST of [data], a GET returns the stored fields with those of
    [data] laid over them, and the [_id] of the settings document. *)
Lemma post_then_get_merge (data : gmap string pyval) (d : db) :
  plain data = true →
  post_then_get data d
  = Ok (<["_id" := PStr "global_settings"]> (data ∪ default ∅ (db_settings d))).
Proof.
  intros Hp. unfold post_then_get, settings, upsert_settings.
  rewrite (set_valid_plain _ Hp), (mongo_set_plain _ _ Hp). reflexivity.
Qed.

Lemma plain_no_id (data : gmap string pyval) :
  plain data = true → data !! "_id" = None.
Proof.
  intros Hp. apply bool_decide_eq_true in Hp as [_ Hall].
  destruct (data !! "_id") as [v|] eqn:E; [|done].
  apply Hall in E. done.
Qed.

(** C2, as the code has it.  A POST to [/api/settings] assigns the posted
    fields one by one ([$set] with upsert): for a posted object of plain
    fields, a following GET returns every posted pair, every earlier pair
    whose key was not posted again, and the [_id] of the settings document. *)
Theorem settings_post_merges (data : gmap string pyval) (d : db) :
  plain data = true →
  ∃ got,
    post_then_get data d = Ok got
    ∧ got !! "_id" = Some (PStr "global_settings")
    ∧ (∀ k v, data !! k = Some v → got !! k = Some v)
    ∧ (∀ k, data !! k = None → k ≠ "_id" →
         got !! k = default ∅ (db_settings d) !! k).
Proof.
  intros Hp. eexists. split; [exact (post_then_get_merge data d Hp)|].
  split; [apply lookup_insert_eq|]. split.
  - intros k v Hk. rewrite lookup_insert_ne.
    + apply lookup_union_Some_l, Hk.
    + intros <-. by rewrite (plain_no_id data Hp) in Hk.
  - intros k Hk Hne. rewrite lookup_insert_ne by done.
    by rewrite lookup_union_r.
Qed.

End Store.


(** ** The requests of the pipeline *)

Lemma jira_urls_app (l1 l2 : list call) :
  jira_urls (l1 ++ l2) = jira_urls l1 ++ jira_urls l2.
Proof. apply omap_app. Qed.

Lemma bind_run {A B} (m : M A) (f : A → M B) (log : list call) :
  (m ≫= f) log
  = match m log with
    | (Ok a, log') => f a log'
    | (Raise e, log') => (Raise e, log')
    end.
Proof. reflexivity. Qed.

Lemma quiet_ret {A} (a : A) : quiet (mret a : M A).
Proof. done. Qed.

Lemma quiet_lift {A} (o : outcome A) : quiet (liftM o).
Proof. done. Qed.

Lemma quiet_bind {A B} (m : M A) (f : A → M B) :
  quiet m → (∀ a, quiet (f a)) → quiet (m ≫= f).
Proof.
  intros Hm Hf log. rewrite bind_run. specialize (Hm log).
  destruct (m log) as [[a|e] log']; simpl in *; [|done].
  by rewrite Hf.
Qed.

Lemma quiet_foldM {A B} (f : A → B → M A) (l : list B) :
  (∀ a x, quiet (f a x)) → ∀ a, quiet (foldM f a l).
Proof.
  intros Hf. induction l as [|x l IH]; intros a; cbn [foldM].
  - apply quiet_ret.
  - apply quiet_bind; [apply Hf|apply IH].
Qed.

Section Requests.
Context `{W : World}.

Lemma quiet_gemini api_url prompt : quiet (http_gemini api_url prompt).
Proof. intros log. simpl. rewrite jira_urls_app. simpl. apply app_nil_r. Qed.

Lemma quiet_page url : quiet (http_page url).
Proof. intros log. simpl. rewrite jira_urls_app. simpl. apply app_nil_r. Qed.

Lemma quiet_summary title description gemini_token is_upstream :
  quiet (get_summary_from_ai title description gemini_token is_upstream).
Proof.
  unfold get_summary_from_ai. case_match; [apply quiet_ret|].
  apply quiet_bind; [apply quiet_gemini|]. intros [result|]; apply quiet_lift.
Qed.

Lemma quiet_scrape gemini_token summarized_bugs url :
  quiet (scrape_one gemini_token summarized_bugs url).
Proof.
  unfold scrape_one. apply quiet_bind; [apply quiet_page|].
  intros [[[title|] [description|]]|]; try apply quiet_ret.
  apply quiet_bind; [apply quiet_summary|]. intros; apply quiet_ret.
Qed.

Lemma quiet_upstream bug_urls_raw release_urls_raw gemini_token :
  quiet (process_upstream_bugs bug_urls_raw release_urls_raw gemini_token).
Proof.
  unfold process_upstream_bugs. apply quiet_bind; [apply quiet_lift|].
  intros [raw|]; [|apply quiet_ret].
  destruct (set_list (pieces raw)) as [|u us]; [apply quiet_ret|].
  apply quiet_bind; [apply quiet_foldM; intros; apply quiet_scrape|].
  intros [|b bs]; [apply quiet_ret|].
  apply quiet_bind; [apply quiet_lift|]. intros; apply quiet_ret.
Qed.

Lemma quiet_summarize_ticket gemini_token ticket_info :
  quiet (summarize_ticket gemini_token ticket_info).
Proof.
  unfold summarize_ticket.
  repeat (apply quiet_bind; [first [apply quiet_lift|apply quiet_summary]|intros]).
  apply quiet_lift.
Qed.

(** Each turn of the ticket loop asks for one ticket, under the upper-cased
    key, whatever happens afterwards. *)
Lemma fetch_one_urls domain email token gemini_token acc key log :
  jira_urls (fetch_one domain email token gemini_token acc key log).2
  = jira_urls log ++ [jira_url domain (upper key)].
Proof.
  unfold fetch_one, fetch_jira_ticket.
  set (rest := λ ticket_info : pyval,
         if truthy ticket_info
         then ticket_info0 ← summarize_ticket gemini_token ticket_info;
              mret (acc ++ [ticket_info0])
         else mret acc).
  assert (Hrest : ∀ t, quiet (rest t)).
  { intros t. unfold rest. case_match; [|apply quiet_ret].
    apply quiet_bind; [apply quiet_summarize_ticket|intros; apply quiet_ret]. }
  rewrite !bind_run. unfold http_jira.
  destruct (jira log _ email token) as [json|]; cbn [mret M_ret];
    rewrite Hrest, jira_urls_app; done.
Qed.

(** The loop asks for the keys in the order of the list, and for all of
    them unless it raises. *)
Lemma fetch_tickets_urls domain email token gemini_token (keys : list string) :
  ∀ acc log,
  ∃ n,
    jira_urls (foldM (fetch_one domain email token gemini_token) acc keys log).2
    = jira_urls log ++ take n (jira_url domain ∘ upper <$> keys)
    ∧ (∀ r, (foldM (fetch_one domain email token gemini_token) acc keys log).1 = Ok r →
         n = length keys).
Proof.
  induction keys as [|key keys IH]; intros acc log; cbn [foldM].
  - exists 0%nat. split; [by rewrite app_nil_r|done].
  - pose proof (fetch_one_urls domain email token gemini_token acc key log) as H1.
    rewrite bind_run.
    destruct (fetch_one domain email token gemini_token acc key log)
      as [[acc'|e] log'] eqn:E; simpl in H1.
    + destruct (IH acc' log') as (n & Hn & Hall). exists (S n). split.
      * rewrite Hn, H1, <- app_assoc. done.
      * intros r Hr. by rewrite (Hall r Hr).
    + exists 1%nat. split; [|done]. simpl. rewrite H1. by rewrite take_0.
Qed.

End Requests.

Lemma asks_quiet_bind {A B} (L : list string) (m : M A) (f : A → M B) :
  quiet m → (∀ a, asks L (f a)) → asks L (m ≫= f).
Proof.
  intros Hm Hf log. rewrite bind_run. specialize (Hm log).
  destruct (m log) as [[a|e] log']; simpl in Hm.
  - destruct (Hf a log') as (n & Hn & Hall). exists n. by rewrite Hn, Hm.
  - exists 0%nat. simpl. by rewrite Hm, take_0, app_nil_r.
Qed.

Lemma asks_bind_quiet {A B} (L : list string) (m : M A) (f : A → M B) :
  asks L m → (∀ a, quiet (f a)) → asks L (m ≫= f).
Proof.
  intros Hm Hf log. rewrite bind_run. destruct (Hm log) as (n & Hn & Hall).
  destruct (m log) as [[a|e] log']; simpl in *.
  - exists n. rewrite Hf. split; [done|]. intros _ _. by apply (Hall a).
  - exists n. done.
Qed.

Section Order.
Context `{W : World}.

Lemma fetch_tickets_asks domain email token gemini_token (keys : list string) :
  asks (jira_url domain ∘ upper <$> keys)
    (fetch_tickets domain email token gemini_token keys).
Proof.
  intros log. unfold fetch_tickets.
  destruct (fetch_tickets_urls domain email token gemini_token keys [] log)
    as (n & Hn & Hall).
  exists n. split; [done|]. intros r Hr. rewrite length_fmap. by apply (Hall r).
Qed.

(** The keys are asked for as typed and sorted, whichever way the set
    lists them; upper case comes only with the request. *)
Lemma pipeline_asks domain email token gemini_token release oid d (raw : string) :
  release !! "jiraTickets" = Some (PStr raw) →
  asks (jira_url domain ∘ upper <$> sorted (remove_dups (pieces raw)))
    (pipeline domain email token gemini_token release oid d).
Proof.
  intros Hraw. unfold pipeline.
  apply asks_quiet_bind; [intros log; apply quiet_lift|]. intros mongo_intro.
  apply asks_quiet_bind; [apply quiet_upstream|]. intros upstream_section.
  assert (Hkeys : ticket_keys_of (default (PStr "") (release !! "jiraTickets"))
                  = Ok (sorted (remove_dups (pieces raw)))).
  { rewrite Hraw. unfold ticket_keys_of. cbn [default from_option id py_re_split].
    rewrite bind_Ok. fold (pieces raw). by rewrite sorted_set_list. }
  rewrite Hkeys. intros log. rewrite bind_run. cbn [liftM].
  revert log. apply asks_bind_quiet; [apply fetch_tickets_asks|].
  intros tickets.
  assert (Hrest : quiet (
      markdown_output ← (λ log,
        liftM (generate_final_markdown mongo_intro
                 (default (PStr "") (release !! "releaseHighlights"))
                 upstream_section tickets
                 (default PNone (release !! "version"))
                 (default PNone (release !! "codename")) domain
                 (now_iso log)) log);
      coll ← liftM (update_one (db_releases d) oid
                      {["generatedMarkdown" := PStr markdown_output]});
      mret ({| status := 200; body := {["markdown" := PStr markdown_output]} |},
            {| db_settings := db_settings d; db_releases := coll |}))).
  { apply quiet_bind; [intros log; apply quiet_lift|]. intros md.
    apply quiet_bind; [apply quiet_lift|]. intros; apply quiet_ret. }
  destruct tickets as [|t ts], (sorted (remove_dups (pieces raw))) as [|k ks];
    first [exact Hrest | apply quiet_ret].
Qed.

Lemma generate_release_notes_asks release_id oid fields d (raw : string) :
  ObjectId release_id = Some oid →
  db_releases d !! oid = Some fields →
  fields !! "jiraTickets" = Some (PStr raw) →
  settings_complete d = true →
  asks (jira_url (setting d "jiraUrl") ∘ upper <$> sorted (remove_dups (pieces raw)))
    (generate_release_notes release_id d).
Proof.
  intros Hid Hrel Hraw Hset. unfold generate_release_notes.
  rewrite Hid. intros log. rewrite bind_run. cbn [liftM].
  unfold find_release. rewrite Hrel. cbn [fmap option_fmap option_map].
  unfold settings_complete, setting in Hset. rewrite Hset. cbn [negb].
  apply pipeline_asks. by rewrite lookup_insert_ne.
Qed.


End Order.



Lemma settings_post_merges_witness :
  ∃ got,
    post_then_get (W := Sample.world) {["jiraEmail" := PStr "new@example.org"]}
      (Sample.store ∅) = Ok got
    ∧ got !! "_id" = Some (PStr "global_settings")
    ∧ (∀ k v, ({["jiraEmail" := PStr "new@example.org"]} : gmap string pyval) !! k = Some v →
         got !! k = Some v)
    ∧ (∀ k, ({["jiraEmail" := PStr "new@example.org"]} : gmap string pyval) !! k = None →
         k ≠ "_id" →
         got !! k = default ∅ (db_settings (Sample.store ∅)) !! k).
Proof.
  exact (settings_post_merges (W := Sample.world)
           {["jiraEmail" := PStr "new@example.org"]} (Sample.store ∅) eq_refl).
Defined.

(** Against C2 as stated: after the e-mail address alone is posted, GET
    still returns the tracker URL and the token of the earlier save, and the
    [_id] of the document, none of which was in the posted object. *)
Lemma settings_post_keeps_earlier_keys :
  post_then_get (W := Sample.world) {["jiraEmail" := PStr "new@example.org"]}
    (Sample.store ∅)
  = Ok {["_id" := PStr "global_settings"; "jiraUrl" := PStr "jira.example.org";
         "jiraEmail" := PStr "new@example.org"; "jiraToken" := PStr "secret"]}
  ∧ ({["_id" := PStr "global_settings"; "jiraUrl" := PStr "jira.example.org";
       "jiraEmail" := PStr "new@example.org"; "jiraToken" := PStr "secret"]}
       : gmap string pyval) !! "jiraUrl" = Some (PStr "jira.example.org")
  ∧ ({["jiraEmail" := PStr "new@example.org"]} : gmap string pyval) !! "jiraUrl" = None.
Proof. repeat split; by vm_compute. Qed.

(** ** The generate handler *)

Section Generate.
Context `{W : World}.

Lemma plain_markdown (md : string) :
  plain {["generatedMarkdown" := PStr md]} = true.
Proof.
  apply bool_decide_eq_true. split.
  - apply insert_non_empty.
  - by apply map_Forall_singleton.
Qed.

Lemma find_release_Some d oid release :
  find_release d oid = Some release →
  ∃ fields, db_releases d !! oid = Some fields
            ∧ release = <["_id" := PObjectId oid]> fields.
Proof.
  unfold find_release. destruct (db_releases d !! oid) as [fields|]; [|done].
  intros [= <-]. by exists fields.
Qed.

(** Writing the markdown onto a stored release always succeeds. *)
Lemma update_markdown d oid fields md :
  db_releases d !! oid = Some fields →
  update_one (db_releases d) oid {["generatedMarkdown" := PStr md]}
  = Ok (<[oid := {["generatedMarkdown" := PStr md]} ∪ fields]> (db_releases d)).
Proof.
  intros Hrel. unfold update_one.
  rewrite (set_valid_plain _ (plain_markdown md)), Hrel,
    (mongo_set_plain _ _ (plain_markdown md)). done.
Qed.

(** When the tracker has nothing for any request, the loop ends with no
    ticket. *)
Lemma fetch_tickets_nothing domain email token gemini_token (keys : list string) :
  (∀ l url e t, truthy (default PNone (jira l url e t)) = false) →
  ∀ acc log, ∃ log',
    foldM (fetch_one domain email token gemini_token) acc keys log = (Ok acc, log').
Proof.
  intros Hnone. induction keys as [|key keys IH]; intros acc log; cbn [foldM].
  - by exists log.
  - rewrite bind_run.
    assert (H1 : fetch_one domain email token gemini_token acc key log
                 = (Ok acc, log ++ [JiraGet (jira_url domain (upper key)) email token])).
    { unfold fetch_one, fetch_jira_ticket. rewrite !bind_run. unfold http_jira.
      specialize (Hnone log (jira_url domain (upper key)) email token).
      destruct (jira log _ email token) as [json|]; cbn [mret M_ret default from_option id] in *;
        by rewrite ?Hnone. }
    rewrite H1. apply IH.
Qed.


End Generate.



Lemma bind_fst_inv {A B} (m : M A) (f : A → M B) (log : list call) (r : B) :
  ((m ≫= f) log).1 = Ok r →
  ∃ a log', m log = (Ok a, log') ∧ (f a log').1 = Ok r.
Proof.
  rewrite bind_run. destruct (m log) as [[a|e] log']; [|done]. eauto.
Qed.

Section StoreOnSuccess.
Context `{W : World}.

(** C9.  Whatever the generate handler answers, it answers 200, 404 or
    400; with 404 or 400 the store it leaves is the store it found; and with
    200 the store differs only in the release, which has the markdown of the
    response under [generatedMarkdown]. *)
Theorem store_written_only_on_success
    (release_id : string) (d : db) (log : list call) (resp : response) (d' : db) :
  (generate_release_notes release_id d log).1 = Ok (resp, d') →
  (status resp = 404 ∨ status resp = 400 → d' = d)
  ∧ (status resp = 200 ∨ status resp = 404 ∨ status resp = 400)
  ∧ (status resp = 200 →
     ∃ oid markdown,
       ObjectId release_id = Some oid
       ∧ body resp = {["markdown" := PStr markdown]}
       ∧ update_one (db_releases d) oid {["generatedMarkdown" := PStr markdown]}
         = Ok (db_releases d')
       ∧ db_settings d' = db_settings d).
Proof.
  unfold generate_release_notes. intros H.
  apply bind_fst_inv in H as (oid & l0 & Hoid & H).
  assert (ObjectId release_id = Some oid) as Hid.
  { unfold liftM in Hoid. destruct (ObjectId release_id); by simplify_eq. }
  clear Hoid.
  assert (Herr : ∀ (code : Z) (b : gmap string pyval) (l : list call),
            code = 404 ∨ code = 400 →
            ((mret ({| status := code; body := b |}, d) : M (response * db)) l).1
            = Ok (resp, d') →
            (status resp = 404 ∨ status resp = 400 → d' = d)
            ∧ (status resp = 200 ∨ status resp = 404 ∨ status resp = 400)
            ∧ (status resp = 200 →
               ∃ oid markdown,
                 ObjectId release_id = Some oid
                 ∧ body resp = {["markdown" := PStr markdown]}
                 ∧ update_one (db_releases d) oid
                     {["generatedMarkdown" := PStr markdown]} = Ok (db_releases d')
                 ∧ db_settings d' = db_settings d)).
  { intros code b l Hcode [= <- <-]. simpl. repeat split; [tauto|].
    intros ->. by destruct Hcode. }
  destruct (find_release d oid) as [release|]; [|by eapply Herr; [left|]].
  destruct (negb _); [by eapply Herr; [right|]|].
  unfold pipeline in H.
  apply bind_fst_inv in H as (mongo_intro & l1 & _ & H).
  apply bind_fst_inv in H as (upstream_section & l2 & _ & H).
  apply bind_fst_inv in H as (ticket_keys & l3 & _ & H).
  apply bind_fst_inv in H as (tickets & l4 & _ & H).
  assert (Hok :
    ((markdown_output ← (λ log,
        liftM (generate_final_markdown mongo_intro
                 (default (PStr "") (release !! "releaseHighlights"))
                 upstream_section tickets
                 (default PNone (release !! "version"))
                 (default PNone (release !! "codename"))
                 (default PNone (default ∅ (find_settings d) !! "jiraUrl"))
                 (now_iso log)) log);
      coll ← liftM (update_one (db_releases d) oid
                      {["generatedMarkdown" := PStr markdown_output]});
      mret ({| status := 200; body := {["markdown" := PStr markdown_output]} |},
            {| db_settings := db_settings d; db_releases := coll |})) l4).1
    = Ok (resp, d') →
    (status resp = 404 ∨ status resp = 400 → d' = d)
    ∧ (status resp = 200 ∨ status resp = 404 ∨ status resp = 400)
    ∧ (status resp = 200 →
       ∃ oid markdown,
         ObjectId release_id = Some oid
         ∧ body resp = {["markdown" := PStr markdown]}
         ∧ update_one (db_releases d) oid
             {["generatedMarkdown" := PStr markdown]} = Ok (db_releases d')
         ∧ db_settings d' = db_settings d)).
  { clear H. intros H.
    apply bind_fst_inv in H as (markdown & l5 & _ & H).
    apply bind_fst_inv in H as (coll & l6 & Hcoll & H).
    injection H as <- <-. simpl.
    split; [intros [?|?]; done|]. split; [by left|]. intros _.
    exists oid, markdown. repeat split; [done|].
    unfold liftM in Hcoll. by injection Hcoll as -> _. }
  destruct tickets as [|t ts], ticket_keys as [|k ks]; try exact (Hok H).
  by eapply Herr; [right|].
Qed.

End StoreOnSuccess.

Lemma store_written_only_on_success_witness :
  (404 = 404 ∨ 404 = 400 →
   Sample.store Sample.mixed_case_release = Sample.store Sample.mixed_case_release)
  ∧ (404 = 200 ∨ 404 = 404 ∨ 404 = 400)
  ∧ (404 = 200 →
     ∃ oid markdown,
       ObjectId (World := Sample.world) Sample.other_id = Some oid
       ∧ error "Release not found" = {["markdown" := PStr markdown]}
       ∧ update_one (W := Sample.world)
           (db_releases (Sample.store Sample.mixed_case_release)) oid
           {["generatedMarkdown" := PStr markdown]}
         = Ok (db_releases (Sample.store Sample.mixed_case_release))
       ∧ db_settings (Sample.store Sample.mixed_case_release)
         = db_settings (Sample.store Sample.mixed_case_release)).
Proof.
  exact (store_written_only_on_success (W := Sample.world) Sample.other_id
           (Sample.store Sample.mixed_case_release) []
           {| status := 404; body := error "Release not found" |}
           (Sample.store Sample.mixed_case_release) eq_refl).
Defined.

(** * Further properties of the code *)

(** ** The ticket keys (line 112) *)

Section Keys.
Context `{W : World}.

Lemma ticket_keys_of_str (raw : string) :
  ticket_keys_of (PStr raw) = Ok (sorted (remove_dups (pieces raw))).
Proof.
  unfold ticket_keys_of. cbn [py_re_split]. rewrite bind_Ok.
  fold (pieces raw). by rewrite sorted_set_list.
Qed.

Lemma sorted_Sorted (l : list string) : Sorted String.le (sorted l).
Proof. apply Sorted_merge_sort; apply _. Qed.

Lemma sorted_Permutation (l : list string) : sorted l ≡ₚ l.
Proof. apply merge_sort_Permutation. Qed.

(** X1.  For every text of the ticket field, the keys the handler goes
    through are the distinct non-empty pieces between separators, each
    once, in ascending code-point order, whichever way the set lists them;
    a field that is not a string raises [TypeError]. *)
Theorem ticket_keys_distinct_sorted (raw : string) :
  ∃ keys,
    ticket_keys_of (PStr raw) = Ok keys
    ∧ Sorted String.le keys
    ∧ NoDup keys
    ∧ (∀ k, k ∈ keys ↔ k ≠ "" ∧ k ∈ re_split raw)
    ∧ (∀ k, k ∈ keys → no_sep k = true)
    ∧ (∀ v, (∀ s, v ≠ PStr s) → ticket_keys_of v = Raise TypeError).
Proof.
  exists (sorted (remove_dups (pieces raw))).
  split; [apply ticket_keys_of_str|]. split; [apply sorted_Sorted|].
  split; [|split; [|split]].
  - rewrite sorted_Permutation. apply NoDup_remove_dups.
  - intros k. rewrite sorted_Permutation, elem_of_remove_dups.
    unfold pieces. by rewrite list_elem_of_filter.
  - intros k. rewrite sorted_Permutation, elem_of_remove_dups.
    intros Hk. by apply pieces_spec in Hk as [_ ?].
  - intros v Hv. destruct v; try done. by destruct (Hv s).
Qed.

(** X2.  For every text of the ticket field of a stored release, with
    complete settings, the handler asks the issue tracker once for each
    distinct key as typed, in the sorted order of the keys as typed, under
    the upper-cased key, and for nothing else; a run that raises stops
    somewhere along this sequence. *)
Theorem tracker_asked_once_per_typed_key release_id oid fields d (raw : string) :
  ObjectId release_id = Some oid →
  db_releases d !! oid = Some fields →
  fields !! "jiraTickets" = Some (PStr raw) →
  settings_complete d = true →
  asks (jira_url (setting d "jiraUrl") ∘ upper <$> sorted (remove_dups (pieces raw)))
    (generate_release_notes release_id d).
Proof. apply generate_release_notes_asks. Qed.

(** X3.  Handing the keys back as a comma-separated field gives the same
    keys: what [ticket_keys_of] returns is a fixed point of the
    split-dedup-sort. *)
Theorem ticket_keys_round_trip (raw : string) (keys : list string) :
  ticket_keys_of (PStr raw) = Ok keys →
  ticket_keys_of (PStr (String.concat ", " keys)) = Ok keys.
Proof.
  rewrite !ticket_keys_of_str. intros [= <-]. f_equal.
  set (keys := sorted (remove_dups (pieces raw))).
  assert (Hok : Forall (λ t, t ≠ "" ∧ no_sep t = true) keys).
  { apply Forall_forall. intros k Hk. apply pieces_spec with (s := raw).
    revert Hk. unfold keys. by rewrite sorted_Permutation, elem_of_remove_dups. }
  rewrite (pieces_concat keys Hok).
  apply (Sorted_unique String.le).
  - apply sorted_Sorted.
  - apply sorted_Sorted.
  - rewrite sorted_Permutation. apply NoDup_Permutation.
    + apply NoDup_remove_dups.
    + unfold keys. rewrite sorted_Permutation. apply NoDup_remove_dups.
    + intros k. by rewrite elem_of_remove_dups.
Qed.

End Keys.

(** ** The settings and the releases in the store *)

Section Stores.
Context `{W : World}.

Lemma settings_post_plain (data : gmap string pyval) (d : db) :
  plain data = true →
  settings POST data d
  = Ok ({| status := 200; body := message "Settings saved successfully." |},
        {| db_settings := Some (data ∪ default ∅ (db_settings d));
           db_releases := db_releases d |}).
Proof.
  intros Hp. unfold settings, upsert_settings.
  by rewrite (set_valid_plain _ Hp), (mongo_set_plain _ _ Hp).
Qed.

Lemma release_put_plain release_id oid fields (data : gmap string pyval) (d : db) :
  ObjectId release_id = Some oid →
  db_releases d !! oid = Some fields →
  plain data = true →
  release_detail release_id PUT data d
  = Ok ({| status := 200; body := message "Release updated successfully." |},
        {| db_settings := db_settings d;
           db_releases := <[oid := data ∪ fields]> (db_releases d) |}).
Proof.
  intros Hid Hrel Hp. unfold release_detail, update_one.
  by rewrite Hid, (set_valid_plain _ Hp), Hrel, (mongo_set_plain _ _ Hp).
Qed.

Lemma release_get_found release_id oid fields (data : gmap string pyval) (d : db) :
  ObjectId release_id = Some oid →
  db_releases d !! oid = Some fields →
  release_detail release_id GET data d
  = Ok ({| status := 200;
           body := <["_id" := PStr (py_str (PObjectId oid))]> fields |}, d).
Proof.
  intros Hid Hrel. unfold release_detail, find_release.
  rewrite Hid, Hrel. cbn [fmap option_fmap option_map].
  by rewrite lookup_insert_eq, insert_insert_eq.
Qed.

(** What a 200 of the generate handler implies. *)
Lemma generate_Ok_200 release_id (d : db) (log : list call) resp d' :
  (generate_release_notes release_id d log).1 = Ok (resp, d') →
  status resp = 200 →
  ∃ oid fields markdown,
    ObjectId release_id = Some oid
    ∧ db_releases d !! oid = Some fields
    ∧ body resp = {["markdown" := PStr markdown]}
    ∧ d' = {| db_settings := db_settings d;
              db_releases :=
                <[oid := {["generatedMarkdown" := PStr markdown]} ∪ fields]>
                  (db_releases d) |}.
Proof.
  unfold generate_release_notes. intros H Hst.
  apply bind_fst_inv in H as (oid & l0 & Hoid & H).
  assert (ObjectId release_id = Some oid) as Hid.
  { unfold liftM in Hoid. destruct (ObjectId release_id); by simplify_eq. }
  clear Hoid.
  destruct (find_release d oid) as [release|] eqn:Hrel;
    [|injection H as <- <-; by simpl in Hst].
  apply find_release_Some in Hrel as (fields & Hrel & ->).
  destruct (negb _); [injection H as <- <-; by simpl in Hst|].
  unfold pipeline in H.
  apply bind_fst_inv in H as (mongo_intro & l1 & _ & H).
  apply bind_fst_inv in H as (upstream_section & l2 & _ & H).
  apply bind_fst_inv in H as (ticket_keys & l3 & _ & H).
  apply bind_fst_inv in H as (tickets & l4 & _ & H).
  assert (Hok :
    ((markdown_output ← (λ log,
        liftM (generate_final_markdown mongo_intro
                 (default (PStr "")
                    (<["_id" := PObjectId oid]> fields !! "releaseHighlights"))
                 upstream_section tickets
                 (default PNone (<["_id" := PObjectId oid]> fields !! "version"))
                 (default PNone (<["_id" := PObjectId oid]> fields !! "codename"))
                 (default PNone (default ∅ (find_settings d) !! "jiraUrl"))
                 (now_iso log)) log);
      coll ← liftM (update_one (db_releases d) oid
                      {["generatedMarkdown" := PStr markdown_output]});
      mret ({| status := 200; body := {["markdown" := PStr markdown_output]} |},
            {| db_settings := db_settings d; db_releases := coll |})) l4).1
    = Ok (resp, d') →
    ∃ oid fields markdown,
      ObjectId release_id = Some oid
      ∧ db_releases d !! oid = Some fields
      ∧ body resp = {["markdown" := PStr markdown]}
      ∧ d' = {| db_settings := db_settings d;
                db_releases :=
                  <[oid := {["generatedMarkdown" := PStr markdown]} ∪ fields]>
                    (db_releases d) |}).
  { clear H. intros H.
    apply bind_fst_inv in H as (markdown & l5 & _ & H).
    apply bind_fst_inv in H as (coll & l6 & Hcoll & H).
    injection H as <- <-. simpl.
    exists oid, fields, markdown. repeat split; [done..|].
    unfold liftM in Hcoll. rewrite (update_markdown _ _ _ _ Hrel) in Hcoll.
    by injection Hcoll as <- _. }
  destruct tickets as [|t ts], ticket_keys as [|k ks]; try exact (Hok H).
  injection H as <- <-; by simpl in Hst.
Qed.

(** X4.  Posting the same plain settings a second time changes nothing
    more: the store after the second POST is the store after the first,
    and no POST to the settings touches a release. *)
Theorem settings_post_idempotent (data : gmap string pyval) (d : db) :
  plain data = true →
  ∃ r d1,
    settings POST data d = Ok (r, d1)
    ∧ settings POST data d1 = Ok (r, d1)
    ∧ db_releases d1 = db_releases d.
Proof.
  intros Hp. eexists _, _. split; [by apply settings_post_plain|].
  split; [|done]. rewrite (settings_post_plain _ _ Hp). simpl.
  by rewrite (assoc_L (∪)), (idemp_L (∪)).
Qed.

(** X5.  After two POSTs of plain settings, a GET answers with the fields
    of the second laid over those of the first laid over what was stored:
    for each key the last value written wins, and a key written only by
    the first POST is still there. *)
Theorem settings_last_write_wins (a b : gmap string pyval) (d : db) :
  plain a = true → plain b = true →
  ∃ r1 d1 r2 d2,
    settings POST a d = Ok (r1, d1)
    ∧ settings POST b d1 = Ok (r2, d2)
    ∧ settings GET ∅ d2
      = Ok ({| status := 200;
               body := <["_id" := PStr "global_settings"]>
                         (b ∪ (a ∪ default ∅ (db_settings d))) |}, d2)
    ∧ ∀ k v, b !! k = None → a !! k = Some v → setting d2 k = v.
Proof.
  intros Ha Hb. eexists _, _, _, _.
  split; [by apply settings_post_plain|].
  split; [by apply settings_post_plain|]. split; [done|].
  intros k v Hbk Hak. unfold setting, find_settings. simpl.
  assert (k ≠ "_id") as Hk.
  { intros ->. by rewrite (plain_no_id _ Ha) in Hak. }
  rewrite lookup_insert_ne by done.
  rewrite lookup_union_r by done.
  by rewrite (lookup_union_Some_l _ _ _ _ Hak).
Qed.

(** X6.  The generate handler reads each setting as the last POST left
    it: the posted value where the POST has the key, the earlier value
    otherwise.  So once the three tracker settings have been posted with
    non-empty values, the handler no longer finds them incomplete. *)
Theorem posted_settings_reach_generate (data : gmap string pyval) (d : db) r d' :
  plain data = true →
  settings POST data d = Ok (r, d') →
  (∀ k, k ≠ "_id" → setting d' k = default (setting d k) (data !! k))
  ∧ ((∀ k, k ∈ ["jiraUrl"; "jiraEmail"; "jiraToken"] →
        ∃ v, data !! k = Some v ∧ truthy v = true) →
     settings_complete d' = true).
Proof.
  intros Hp. rewrite (settings_post_plain _ _ Hp). intros [= _ <-].
  assert (Hset : ∀ k, k ≠ "_id" → setting {|
           db_settings := Some (data ∪ default ∅ (db_settings d));
           db_releases := db_releases d |} k = default (setting d k) (data !! k)).
  { intros k Hk. unfold setting, find_settings. simpl.
    rewrite lookup_insert_ne by done.
    destruct (data !! k) as [v|] eqn:Hd.
    - by rewrite (lookup_union_Some_l _ _ _ _ Hd).
    - rewrite lookup_union_r by done. simpl.
      destruct (db_settings d) as [s|]; simpl; [by rewrite lookup_insert_ne|done]. }
  split; [done|]. intros Hall. unfold settings_complete.
  assert (∀ k, k ∈ ["jiraUrl"; "jiraEmail"; "jiraToken"] →
            truthy (setting {|
              db_settings := Some (data ∪ default ∅ (db_settings d));
              db_releases := db_releases d |} k) = true) as Ht.
  { intros k Hk. destruct (Hall k Hk) as (v & Hv & Htv).
    rewrite Hset, Hv; [done|]. intros ->.
    by rewrite (plain_no_id _ Hp) in Hv. }
  rewrite !Ht; [done|set_solver..].
Qed.

(** X7.  A PUT of plain fields onto a stored release followed by a GET
    of it answers 200 with the posted fields laid over the stored ones
    and the identifier as a string; the settings and every other release
    are as before. *)
Theorem release_put_then_get release_id oid fields (data : gmap string pyval) (d : db) :
  ObjectId release_id = Some oid →
  db_releases d !! oid = Some fields →
  plain data = true →
  ∃ r d',
    release_detail release_id PUT data d = Ok (r, d')
    ∧ status r = 200
    ∧ release_detail release_id GET ∅ d'
      = Ok ({| status := 200;
               body := <["_id" := PStr (py_str (PObjectId oid))]> (data ∪ fields) |},
            d')
    ∧ db_settings d' = db_settings d
    ∧ ∀ o, o ≠ oid → db_releases d' !! o = db_releases d !! o.
Proof.
  intros Hid Hrel Hp. eexists _, _.
  split; [by eapply release_put_plain|]. split; [done|].
  split; [|split; [done|]].
  - apply release_get_found; [done|]. simpl. by rewrite lookup_insert_eq.
  - intros o Ho. simpl. by rewrite lookup_insert_ne.
Qed.

(** X8.  After a DELETE of a release, a GET of it and the generate
    handler both answer 404, the latter without any request going out; a
    second DELETE changes nothing; and the settings and every other
    release are as before. *)
Theorem release_delete_then_gone release_id oid (data : gmap string pyval) (d : db)
    (log : list call) :
  ObjectId release_id = Some oid →
  ∃ d',
    release_detail release_id DELETE data d
    = Ok ({| status := 200; body := message "Release deleted successfully." |}, d')
    ∧ release_detail release_id GET data d'
      = Ok ({| status := 404; body := error "Release not found" |}, d')
    ∧ generate_release_notes release_id d' log
      = (Ok ({| status := 404; body := error "Release not found" |}, d'), log)
    ∧ release_detail release_id DELETE data d'
      = Ok ({| status := 200; body := message "Release deleted successfully." |}, d')
    ∧ db_settings d' = db_settings d
    ∧ ∀ o, o ≠ oid → find_release d' o = find_release d o.
Proof.
  intros Hid. eexists.
  split; [unfold release_detail; by rewrite Hid|].
  split; [|split; [|split; [|split; [done|]]]].
  - unfold release_detail, find_release. rewrite Hid. simpl.
    by rewrite lookup_delete_eq.
  - unfold generate_release_notes. rewrite bind_run. unfold liftM.
    rewrite Hid. unfold find_release. simpl. by rewrite lookup_delete_eq.
  - unfold release_detail. rewrite Hid. simpl.
    by rewrite delete_id by apply lookup_delete_eq.
  - intros o Ho. unfold find_release. simpl. by rewrite lookup_delete_ne.
Qed.

(** X9.  An identifier that [ObjectId] rejects makes every method of the
    release route, and the generate handler, raise [InvalidId]: there is
    no 404 for it; the generate handler has then made no request. *)
Theorem malformed_id_raises release_id (method : http_method)
    (data : gmap string pyval) (d : db) (log : list call) :
  ObjectId release_id = None →
  release_detail release_id method data d = Raise InvalidId
  ∧ generate_release_notes release_id d log = (Raise InvalidId, log).
Proof.
  intros Hid. split.
  - unfold release_detail. by rewrite Hid.
  - unfold generate_release_notes. rewrite bind_run. unfold liftM. by rewrite Hid.
Qed.

(** X10.  When the generate handler has answered 200, a GET of the
    release answers 200 with the markdown of that answer under
    [generatedMarkdown], and with every other field of the release as it
    was before. *)
Theorem generated_markdown_read_back release_id (d : db) (log : list call) resp d' :
  (generate_release_notes release_id d log).1 = Ok (resp, d') →
  status resp = 200 →
  ∃ oid fields markdown,
    ObjectId release_id = Some oid
    ∧ db_releases d !! oid = Some fields
    ∧ body resp !! "markdown" = Some (PStr markdown)
    ∧ release_detail release_id GET ∅ d'
      = Ok ({| status := 200;
               body := <["_id" := PStr (py_str (PObjectId oid))]>
                         (<["generatedMarkdown" := PStr markdown]> fields) |}, d').
Proof.
  intros H Hst.
  destruct (generate_Ok_200 _ _ _ _ _ H Hst)
    as (oid & fields & markdown & Hid & Hrel & Hbody & ->).
  exists oid, fields, markdown. split; [done|]. split; [done|].
  split; [by rewrite Hbody, lookup_singleton_eq|].
  rewrite <- insert_union_singleton_l.
  apply release_get_found; [done|]. cbn [db_releases]. by rewrite lookup_insert_eq.
Qed.

End Stores.

(** ** The summarizer on a reply (lines 171-189) *)

Section Replies.
Context `{W : World}.

(** X11.  With a description that is not blank, a title that is a string
    or a list, and a reply whose first candidate carries a non-empty text,
    the summarizer returns that text with the white space at its ends
    removed, after one request.  A text of white space only is not empty:
    the summary is then the empty string, not the title. *)
Theorem summarizer_returns_trimmed_text
    (title : pyval) (s description : string) (gemini_token : pyval)
    (is_upstream : bool) (result : pyval) (log : list call) :
  all_chars isspace description = false →
  py_slice_check title = Ok () →
  (∀ api_url prompt, gemini log api_url prompt = Some result) →
  first_candidate_text result = Ok (PStr s) →
  s ≠ "" →
  ∃ api_url prompt,
    get_summary_from_ai title description gemini_token is_upstream log
    = (Ok (PStr (strip s)), log ++ [GeminiPost api_url prompt])
    ∧ (all_chars isspace s = true → strip s = "").
Proof.
  intros Hb Hslice Hup Htext Hs. unfold get_summary_from_ai.
  rewrite (not_blank_test _ Hb). eexists _, _.
  rewrite bind_run. unfold http_gemini. rewrite Hup.
  unfold liftM. rewrite Htext, bind_Ok, Hslice, bind_Ok. cbn [truthy].
  destruct (String.eqb_spec s "") as [|_]; [done|]. split; [done|].
  apply strip_blank.
Qed.

(** X12.  Whatever the title, the description and the reply, and whether
    it returns or raises, the summarizer makes no request for a blank
    description and otherwise exactly one, a POST to the generative API
    with the token in the query string of the URL; it never asks the
    issue tracker and fetches no page. *)
Theorem summarizer_asks_at_most_once
    (title : pyval) (description : string) (gemini_token : pyval)
    (is_upstream : bool) (log : list call) :
  ∃ calls,
    (get_summary_from_ai title description gemini_token is_upstream log).2
    = log ++ calls
    ∧ (all_chars isspace description = true → calls = [])
    ∧ (all_chars isspace description = false →
       ∃ prompt,
         calls = [GeminiPost
                    ("https://generativelanguage.googleapis.com/v1beta/models/gemini-2.5-flash-preview-05-20:generateContent?key="
                     +:+ py_str gemini_token) prompt]).
Proof.
  unfold get_summary_from_ai.
  destruct (all_chars isspace description) eqn:Hb.
  - rewrite (strip_blank _ Hb), orb_true_r. exists [].
    split; [by rewrite app_nil_r|done].
  - rewrite (not_blank_test _ Hb). eexists [_].
    split; [|split; [done|intros _; by eexists]].
    rewrite bind_run. unfold http_gemini.
    by destruct (gemini log _ _).
Qed.

(** X13.  Only a failed request is absorbed.  An exception raised while
    the reply is read goes up to the caller, after the one request; a
    reply whose list of candidates is empty raises [IndexError] in this
    way, and is no fallback to the title. *)
Theorem summarizer_reply_errors_propagate
    (title : pyval) (description : string) (gemini_token : pyval)
    (is_upstream : bool) (result : pyval) (e : exn) (log : list call) :
  all_chars isspace description = false →
  (∀ api_url prompt, gemini log api_url prompt = Some result) →
  first_candidate_text result = Raise e →
  (∃ api_url prompt,
     get_summary_from_ai title description gemini_token is_upstream log
     = (Raise e, log ++ [GeminiPost api_url prompt]))
  ∧ ∀ d, dget "candidates" d = Some (PList []) →
         first_candidate_text (PDict d) = Raise IndexError.
Proof.
  intros Hb Hup Htext. split.
  - unfold get_summary_from_ai. rewrite (not_blank_test _ Hb). eexists _, _.
    rewrite bind_run. unfold http_gemini. rewrite Hup.
    unfold liftM. by rewrite Htext.
  - intros d Hd. unfold first_candidate_text, py_get. by rewrite Hd.
Qed.

End Replies.

(** ** The upstream section (lines 191-232) *)

Section Upstream.
Context `{W : World}.

Lemma set_list_nil : set_list [] = [].
Proof.
  destruct (set_list []) as [|x l] eqn:E; [done|].
  exfalso. apply (not_elem_of_nil x), set_list_elem. rewrite E. by left.
Qed.

Lemma nonblank_str (s : string) :
  nonblank (PStr s) = Ok (if all_chars isspace s then None else Some s).
Proof.
  destruct (all_chars isspace s) eqn:Hb; [by apply nonblank_blank|].
  unfold nonblank. cbn [truthy].
  destruct (String.eqb_spec s "") as [->|_]; [done|]. cbn [negb].
  destruct (String.eqb_spec (strip s) "") as [He|]; [|done].
  apply strip_empty_inv in He. congruence.
Qed.

Lemma scrape_nothing (gemini_token : pyval) (urls : list string) :
  (∀ l u title description, page l u ≠ Some (Some title, Some description)) →
  ∀ acc log,
    foldM (scrape_one gemini_token) acc urls log
    = (Ok acc, log ++ (PageGet <$> urls)).
Proof.
  intros Hpage. induction urls as [|u urls IH]; intros acc log; cbn [foldM].
  - by rewrite app_nil_r.
  - rewrite bind_run. unfold scrape_one at 1. rewrite bind_run.
    unfold http_page. specialize (Hpage log u).
    destruct (page log u) as [[[title|] [description|]]|];
      try (unfold mret, M_ret; rewrite IH, fmap_cons; by rewrite <- app_assoc).
    by destruct (Hpage title description).
Qed.

(** X14.  When no bug page can be used (the request fails, or the page
    lacks the title or the description element), the upstream section is
    empty whatever the release URLs are, even if they are no text; one
    page request has gone out for each distinct bug URL and none to the
    generative API.  For a blank bug field no request goes out at all. *)
Theorem upstream_nothing_scraped
    (raw : string) (release_urls_raw gemini_token : pyval) (log : list call) :
  (∀ l u title description, page l u ≠ Some (Some title, Some description)) →
  process_upstream_bugs (PStr raw) release_urls_raw gemini_token log
  = (Ok "", log ++ (PageGet <$> set_list (pieces raw)))
  ∧ (all_chars isspace raw = true → set_list (pieces raw) = []).
Proof.
  intros Hpage. split.
  - unfold process_upstream_bugs. rewrite bind_run. unfold liftM at 1.
    rewrite nonblank_str. destruct (all_chars isspace raw) eqn:Hb.
    + by rewrite (pieces_blank _ Hb), set_list_nil, app_nil_r.
    + destruct (set_list (pieces raw)) as [|u urls] eqn:E; [by rewrite app_nil_r|].
      rewrite bind_run, (scrape_nothing _ _ Hpage). done.
  - intros Hb. by rewrite (pieces_blank _ Hb), set_list_nil.
Qed.

Lemma scrape_one_bullets (gemini_token : pyval) (urls : list string) :
  ∀ acc log bullets log',
    foldM (scrape_one gemini_token) acc urls log = (Ok bullets, log') →
    ∃ new,
      bullets = acc ++ new
      ∧ Forall (λ b, ∃ u summary, u ∈ urls
                  ∧ b = "* [" +:+ last_segment u +:+ "](" +:+ u +:+ ") - " +:+ summary)
          new.
Proof.
  induction urls as [|u urls IH]; intros acc log bullets log'; cbn [foldM].
  - intros [= <- <-]. exists []. by rewrite app_nil_r.
  - rewrite bind_run.
    destruct (scrape_one gemini_token acc u log) as [[acc'|e] log1] eqn:E; [|done].
    intros H. apply IH in H as (new & -> & Hnew).
    assert (acc' = acc ∨ ∃ summary,
              acc' = acc ++ ["* [" +:+ last_segment u +:+ "](" +:+ u +:+ ") - "
                             +:+ summary]) as Hacc.
    { unfold scrape_one in E. rewrite bind_run in E. unfold http_page in E.
      destruct (page log u) as [[[title|] [description|]]|];
        try (left; by injection E as <- _).
      rewrite bind_run in E.
      destruct (get_summary_from_ai _ _ _ _ _) as [[summary|?] ?]; [|done].
      right. exists (py_str summary). by injection E as <- _. }
    assert (Forall (λ b, ∃ u0 summary, u0 ∈ u :: urls
                     ∧ b = "* [" +:+ last_segment u0 +:+ "](" +:+ u0 +:+ ") - "
                           +:+ summary) new) as Hnew'.
    { eapply Forall_impl; [exact Hnew|]. intros b (u0 & summary & Hu0 & ->).
      exists u0, summary. split; [by right|done]. }
    destruct Hacc as [->|[summary ->]].
    + by exists new.
    + exists (("* [" +:+ last_segment u +:+ "](" +:+ u +:+ ") - " +:+ summary) :: new).
      split; [by rewrite <- app_assoc|].
      apply Forall_cons. split; [|done]. exists u, summary. split; [by left|done].
Qed.

Lemma process_upstream_bugs_shape
    (raw : string) (release_urls_raw gemini_token : pyval) (log : list call)
    (section : string) :
  (process_upstream_bugs (PStr raw) release_urls_raw gemini_token log).1 = Ok section →
  section = ""
  ∨ ∃ bullet bullets rest,
      section
      = String.concat nl
          (["### Upstream Improvements";
            "The bug fixes, provided by MongoDB Community Edition and included in Percona Server for MongoDB, are the following:"]
           ++ (bullet :: bullets) ++ rest)
      ∧ Forall (λ b, ∃ u summary, u ∈ pieces raw
                  ∧ b = "* [" +:+ last_segment u +:+ "](" +:+ u +:+ ") - " +:+ summary)
          (bullet :: bullets).
Proof.
  unfold process_upstream_bugs. rewrite bind_run. unfold liftM at 1.
  rewrite nonblank_str. destruct (all_chars isspace raw); [intros [= <-]; by left|].
  destruct (set_list (pieces raw)) as [|u urls] eqn:E; [intros [= <-]; by left|].
  rewrite bind_run.
  destruct (foldM (scrape_one gemini_token) [] (u :: urls) log)
    as [[bullets|e] log1] eqn:Hf; [|done].
  apply scrape_one_bullets in Hf as (new & -> & Hnew). rewrite app_nil_l.
  destruct new as [|bullet bullets]; [intros [= <-]; by left|].
  rewrite bind_run. unfold liftM.
  destruct (py_re_split release_urls_raw) as [parts|e]; [|done].
  intros [= <-]. right.
  assert (Forall (λ b, ∃ u0 summary, u0 ∈ pieces raw
                   ∧ b = "* [" +:+ last_segment u0 +:+ "](" +:+ u0 +:+ ") - "
                         +:+ summary) (bullet :: bullets)) as Hb.
  { eapply Forall_impl; [exact Hnew|]. intros b (u0 & summary & Hu0 & ->).
    exists u0, summary. split; [|done]. apply set_list_elem. by rewrite E. }
  destruct (set_list (filter _ parts)) as [|r rs].
  - exists bullet, bullets, []. by rewrite app_nil_r.
  - eexists bullet, bullets, _. split; [|done]. reflexivity.
Qed.


End Upstream.

(** ** The intro paragraph for several URLs (lines 135-157) *)

Section Links.
Context `{W : World}.

Lemma collect_links_omap (urls : list string) :
  collect_links urls
  = (omap (λ u, mongo_link u <$> search_version u) urls, omap search_version urls).
Proof.
  unfold collect_links.
  enough (∀ L V,
    foldl (λ '(mongo_links, versions) url,
      match search_version url with
      | Some mongo_version =>
          (mongo_links ++ [mongo_link url mongo_version], versions ++ [mongo_version])
      | None => (mongo_links, versions)
      end) (L, V) urls
    = (L ++ omap (λ u, mongo_link u <$> search_version u) urls,
       V ++ omap search_version urls)) as H by apply (H [] []).
  induction urls as [|u urls IH]; intros L V; cbn [foldl].
  - by rewrite !app_nil_r.
  - cbn [omap list_omap]. destruct (search_version u) as [v|]; cbn [fmap option_fmap option_map].
    + rewrite IH. by rewrite <- !app_assoc.
    + by rewrite IH.
Qed.

End Links.

Lemma sorted_perm (l l' : list string) : l ≡ₚ l' → sorted l = sorted l'.
Proof.
  intros Hp. unfold sorted. apply (Sorted_unique String.le).
  - apply Sorted_merge_sort; apply _.
  - apply Sorted_merge_sort; apply _.
  - by rewrite !merge_sort_Permutation.
Qed.

Lemma intro_paragraph_perm dv date links (versions versions' : list string) :
  versions ≡ₚ versions' →
  intro_paragraph dv date links versions = intro_paragraph dv date links versions'.
Proof. intros Hp. unfold intro_paragraph. by rewrite (sorted_perm _ _ Hp). Qed.

Lemma intro_paragraph_not_empty dv date links versions :
  intro_paragraph dv date links versions ≠ "".
Proof. unfold intro_paragraph. by str_simpl. Qed.

Lemma intro_paragraph_not_header dv date links versions :
  intro_paragraph dv date links versions ≠ header.
Proof. unfold intro_paragraph, header. by str_simpl. Qed.

Section Intro.
Context `{W : World}.

Lemma generate_mongo_intro_str (raw : string) (version : pyval) (date : string) :
  generate_mongo_intro (PStr raw) version date
  = match omap search_version (remove_dups (pieces raw)) with
    | [] => Ok ""
    | versions =>
        display_version ← display_version_of version;
        Ok (intro_paragraph display_version date
              (sorted (omap (λ u, mongo_link u <$> search_version u)
                         (remove_dups (pieces raw))))
              versions)
    end.
Proof.
  unfold generate_mongo_intro. rewrite nonblank_str, bind_Ok.
  destruct (all_chars isspace raw) eqn:Hb.
  { by rewrite (pieces_blank _ Hb). }
  pose proof (set_list_Permutation (pieces raw)) as Hp.
  destruct (set_list (pieces raw)) as [|u urls] eqn:E.
  { apply Permutation_nil_l in Hp. by rewrite <- Hp. }
  rewrite <- E in *. clear E u urls. rewrite collect_links_omap.
  assert (Hv : omap search_version (set_list (pieces raw))
               ≡ₚ omap search_version (remove_dups (pieces raw))) by by rewrite Hp.
  assert (Hl : omap (λ u, mongo_link u <$> search_version u) (set_list (pieces raw))
               ≡ₚ omap (λ u, mongo_link u <$> search_version u)
                    (remove_dups (pieces raw))) by by rewrite Hp.
  assert (Hlen : ∀ l : list string,
            length (omap (λ u, mongo_link u <$> search_version u) l)
            = length (omap search_version l)).
  { induction l as [|x l IH]; [done|]. cbn [omap list_omap].
    destruct (search_version x); simpl; by rewrite IH. }
  destruct (omap (λ u, mongo_link u <$> search_version u) (set_list (pieces raw)))
    as [|k links] eqn:El.
  - pose proof (Hlen (set_list (pieces raw))) as Hn. rewrite El in Hn.
    destruct (omap search_version (set_list (pieces raw))); [|done].
    apply Permutation_nil_l in Hv. by rewrite <- Hv.
  - rewrite (sorted_perm _ _ Hl).
    destruct (omap search_version (remove_dups (pieces raw))) as [|v vs] eqn:Ev.
    + apply Permutation_nil_r in Hv.
      pose proof (Hlen (set_list (pieces raw))) as Hn. by rewrite El, Hv in Hn.
    + destruct (display_version_of version) as [dv|e]; [|done].
      rewrite !bind_Ok. f_equal. by apply intro_paragraph_perm.
Qed.

(** X16.  The intro paragraph does not depend on the order in which the
    set lists the URLs: it is built from the distinct pieces of the field
    in which a version is found, with the links sorted.  It is empty
    exactly when no piece holds a version; the version of the release is
    then not looked at. *)
Theorem mongo_intro_of_versioned_urls (raw : string) (version : pyval) (date : string) :
  generate_mongo_intro (PStr raw) version date
  = match omap search_version (remove_dups (pieces raw)) with
    | [] => Ok ""
    | versions =>
        display_version ← display_version_of version;
        Ok (intro_paragraph display_version date
              (sorted (omap (λ u, mongo_link u <$> search_version u)
                         (remove_dups (pieces raw))))
              versions)
    end
  ∧ (generate_mongo_intro (PStr raw) version date = Ok ""
     ↔ ∀ url, url ∈ pieces raw → search_version url = None).
Proof.
  split; [apply generate_mongo_intro_str|]. rewrite generate_mongo_intro_str.
  destruct (omap search_version (remove_dups (pieces raw))) as [|v vs] eqn:Ev.
  - split; [|done]. intros _ url Hurl.
    destruct (search_version url) as [v|] eqn:Hv; [|done]. exfalso.
    apply (not_elem_of_nil v). rewrite <- Ev. apply list_elem_of_omap.
    exists url. by rewrite elem_of_remove_dups.
  - split.
    + destruct (display_version_of version) as [dv|e]; [|done].
      rewrite bind_Ok. intros H.
      assert (intro_paragraph dv date
                (sorted (omap (λ u, mongo_link u <$> search_version u)
                           (remove_dups (pieces raw)))) (v :: vs) = "") as H'
        by congruence.
      by apply intro_paragraph_not_empty in H'.
    + intros Hno. exfalso.
      assert (v ∈ omap search_version (remove_dups (pieces raw))) as Hin
        by (rewrite Ev; by left).
      apply list_elem_of_omap in Hin as (url & Hurl & Hv).
      rewrite elem_of_remove_dups in Hurl. by rewrite (Hno url Hurl) in Hv.
Qed.

End Intro.

(** ** The tickets that are fetched (lines 115-122) *)

Lemma dget_dset_eq k v d : dget k (dset k v d) = Some v.
Proof.
  induction d as [|[k' v'] d IH]; cbn [dset dget].
  - by rewrite String.eqb_refl.
  - destruct (String.eqb k' k) eqn:E; cbn [dget]; [by rewrite String.eqb_refl|].
    by rewrite E.
Qed.

Lemma dget_dset_ne k k' v d : k ≠ k' → dget k' (dset k v d) = dget k' d.
Proof.
  intros Hk. induction d as [|[k0 v0] d IH]; cbn [dset dget].
  - by destruct (String.eqb_spec k k').
  - destruct (String.eqb_spec k0 k) as [->|Hne]; cbn [dget].
    + by destruct (String.eqb_spec k k').
    + by rewrite IH.
Qed.

Section Fetching.
Context `{W : World}.

Lemma bind_Ok_inv {A B} (m : M A) (f : A → M B) (log : list call) r log' :
  (m ≫= f) log = (Ok r, log') →
  ∃ a l1, m log = (Ok a, l1) ∧ f a l1 = (Ok r, log').
Proof. rewrite bind_run. destruct (m log) as [[a|e] l1]; [eauto|done]. Qed.

Lemma summarize_ticket_Ok gemini_token ticket_info log t log' :
  summarize_ticket gemini_token ticket_info log = (Ok t, log') →
  ∃ d summary,
    ticket_info = PDict d ∧ t = PDict (dset "releaseNoteSummary" summary d).
Proof.
  unfold summarize_ticket. intros H.
  apply bind_Ok_inv in H as (fields & l1 & _ & H).
  apply bind_Ok_inv in H as (title & l2 & _ & H).
  apply bind_Ok_inv in H as (fields' & l3 & _ & H).
  apply bind_Ok_inv in H as (description & l4 & _ & H).
  apply bind_Ok_inv in H as (text & l5 & _ & H).
  apply bind_Ok_inv in H as (summary & l6 & _ & H).
  unfold liftM in H. destruct ticket_info; try done.
  injection H as <- _. by eexists _, _.
Qed.

Lemma fetch_one_Ok domain email token gemini_token acc key log acc' log' :
  fetch_one domain email token gemini_token acc key log = (Ok acc', log') →
  acc' = acc
  ∨ ∃ d summary,
      jira log (jira_url domain (upper key)) email token = Some (PDict d)
      ∧ d ≠ []
      ∧ acc' = acc ++ [PDict (dset "releaseNoteSummary" summary d)].
Proof.
  unfold fetch_one. intros H.
  apply bind_Ok_inv in H as (ticket_info & l1 & Hfetch & H).
  unfold fetch_jira_ticket in Hfetch. rewrite bind_run in Hfetch.
  unfold http_jira in Hfetch.
  destruct (truthy ticket_info) eqn:Ht; [|left; by injection H as <- _].
  apply bind_Ok_inv in H as (t & l2 & Hsum & H).
  apply summarize_ticket_Ok in Hsum as (d & summary & -> & ->).
  right. exists d, summary.
  destruct (jira log (jira_url domain (upper key)) email token) as [json|];
    injection Hfetch as Hj _; [|done]. subst json.
  split; [done|]. split; [by destruct d|]. by injection H as <- _.
Qed.

Lemma fetch_tickets_from domain email token gemini_token (keys : list string) :
  ∀ acc log tickets log',
    foldM (fetch_one domain email token gemini_token) acc keys log
    = (Ok tickets, log') →
    ∃ new,
      tickets = acc ++ new
      ∧ (length new ≤ length keys)%nat
      ∧ Forall (λ t, ∃ d summary l key,
                  key ∈ keys
                  ∧ jira l (jira_url domain (upper key)) email token = Some (PDict d)
                  ∧ d ≠ []
                  ∧ t = PDict (dset "releaseNoteSummary" summary d)) new.
Proof.
  induction keys as [|key keys IH]; intros acc log tickets log'; cbn [foldM].
  - intros [= <- <-]. exists []. by rewrite app_nil_r.
  - intros H. apply bind_Ok_inv in H as (acc' & l1 & Hone & H).
    apply IH in H as (new & -> & Hlen & Hnew).
    assert (Forall (λ t, ∃ d summary l key0,
                     key0 ∈ key :: keys
                     ∧ jira l (jira_url domain (upper key0)) email token
                       = Some (PDict d)
                     ∧ d ≠ []
                     ∧ t = PDict (dset "releaseNoteSummary" summary d)) new) as Hnew'.
    { eapply Forall_impl; [exact Hnew|].
      intros t (d & summary & l & key0 & Hk & Hrest).
      exists d, summary, l, key0. split; [by right|done]. }
    apply fetch_one_Ok in Hone as [->|(d & summary & Hj & Hd & ->)].
    + exists new. split; [done|]. split; [simpl; lia|done].
    + exists (PDict (dset "releaseNoteSummary" summary d) :: new).
      split; [by rewrite <- app_assoc|]. split; [simpl; lia|].
      apply Forall_cons. split; [|done].
      exists d, summary, log, key. split; [by left|done].
Qed.

(** X17.  Every ticket the loop hands on is a non-empty object the
    tracker returned for one of the keys, upper-cased, with the summary
    written under [releaseNoteSummary] (over a field of that name, if the
    tracker sent one); there are at most as many tickets as keys. *)
Theorem fetched_tickets_carry_summary
    domain email token gemini_token (keys : list string) log tickets log' :
  fetch_tickets domain email token gemini_token keys log = (Ok tickets, log') →
  (length tickets ≤ length keys)%nat
  ∧ Forall (λ t, ∃ d summary l key,
              key ∈ keys
              ∧ jira l (jira_url domain (upper key)) email token = Some (PDict d)
              ∧ d ≠ []
              ∧ t = PDict (dset "releaseNoteSummary" summary d)
              ∧ py_item t "releaseNoteSummary" = Ok summary
              ∧ py_item t "key" = py_item (PDict d) "key") tickets.
Proof.
  unfold fetch_tickets. intros H.
  apply fetch_tickets_from in H as (new & -> & Hlen & Hnew).
  split; [done|]. rewrite app_nil_l. eapply Forall_impl; [exact Hnew|].
  intros t (d & summary & l & key & Hk & Hj & Hd & ->).
  exists d, summary, l, key. repeat split; try done.
  - unfold py_item. by rewrite dget_dset_eq.
  - unfold py_item. by rewrite dget_dset_ne.
Qed.

End Fetching.

(** ** The sections of the document (lines 249-260) *)

Lemma spec_bucket_in (s : string) : spec_bucket s ∈ buckets.
Proof.
  unfold spec_bucket, buckets. repeat case_bool_decide; rewrite !elem_of_cons; auto.
Qed.

Lemma filter_three {A} (f : A → option string) (l : list A) :
  Forall (λ t, ∃ b, f t = Some b ∧ b ∈ buckets) l →
  filter (λ t, f t = Some "features") l
  ++ filter (λ t, f t = Some "fixes") l
  ++ filter (λ t, f t = Some "maintenance") l ≡ₚ l.
Proof.
  induction 1 as [|t l (b & Hb & Hin) _ IH]; [done|].
  rewrite !filter_cons, Hb. unfold buckets in Hin.
  rewrite !elem_of_cons, elem_of_nil in Hin.
  destruct Hin as [->|[->|[->|[]]]].
  - rewrite decide_True, !decide_False by done. simpl. by rewrite IH.
  - rewrite decide_False, decide_True, decide_False by done.
    cbn [app]. rewrite <- Permutation_middle. by rewrite IH.
  - rewrite !decide_False, decide_True by done.
    rewrite app_assoc, <- Permutation_middle, <- app_assoc. by rewrite IH.
Qed.

Lemma categorize_typed (tickets : list pyval) :
  Forall (λ t, is_Some (type_name t)) tickets →
  ∃ cats,
    categorize tickets = Ok cats
    ∧ ∀ b, b ∈ buckets →
        cats !! b = Some (filter (λ t, spec_bucket <$> type_name t = Some b) tickets).
Proof.
  intros Hty.
  assert (Hkeys : ∀ b, b ∈ buckets →
            is_Some (({["features" := []; "fixes" := []; "maintenance" := []]}
                      : gmap string (list pyval)) !! b)).
  { intros b Hb. unfold buckets in Hb. rewrite !elem_of_cons, elem_of_nil in Hb.
    destruct Hb as [->|[->|[->|[]]]]; exists []; by vm_compute. }
  destruct (categorize_from tickets _ Hty Hkeys) as (cats & Hrun & Hcats).
  exists cats. split; [exact Hrun|]. intros b Hb. rewrite (Hcats b Hb).
  unfold buckets in Hb. rewrite !elem_of_cons, elem_of_nil in Hb.
  destruct Hb as [->|[->|[->|[]]]]; done.
Qed.

(** X18.  The three buckets split the tickets: every ticket whose issue
    type is a string is in exactly one of them, none is lost and none
    comes twice. *)
Theorem buckets_split_the_tickets (tickets : list pyval) :
  Forall (λ t, is_Some (type_name t)) tickets →
  ∃ cats,
    categorize tickets = Ok cats
    ∧ default [] (cats !! "features") ++ default [] (cats !! "fixes")
      ++ default [] (cats !! "maintenance") ≡ₚ tickets.
Proof.
  intros Hty. destruct (categorize_typed tickets Hty) as (cats & Hrun & Hcats).
  exists cats. split; [done|].
  rewrite !Hcats by (unfold buckets; set_solver). cbn [default from_option id].
  apply (filter_three (λ t, spec_bucket <$> type_name t)).
  eapply Forall_impl; [exact Hty|]. intros t [s Hs].
  exists (spec_bucket s). rewrite Hs. split; [done|apply spec_bucket_in].
Qed.

Section Rendering.
Context `{W : World}.

Lemma ticket_line_has_line domain t :
  has_line t = true → ∃ line, ticket_line domain t = Ok line.
Proof.
  destruct t as [| | | | | |d| |]; try done. unfold has_line, dhas.
  intros [Hk Hs]%andb_prop. unfold ticket_line, py_item.
  destruct (dget "key" d); [|done].
  destruct (dget "releaseNoteSummary" d); [|done]. by eexists.
Qed.

Lemma ticket_line_no_line domain d :
  has_line (PDict d) = false → ticket_line domain (PDict d) = Raise KeyError.
Proof.
  unfold has_line, dhas, ticket_line, py_item.
  destruct (dget "key" d); [|done].
  by destruct (dget "releaseNoteSummary" d).
Qed.

Lemma section_block_dicts domain title (l : list pyval) :
  Forall (λ t, ∃ d, t = PDict d) l →
  (Forall (λ t, has_line t = true) l ∧ ∃ lines, section_block domain title l = Ok lines)
  ∨ (Exists (λ t, has_line t = false) l
     ∧ section_block domain title l = Raise KeyError).
Proof.
  intros Hl.
  assert ((Forall (λ t, has_line t = true) l
           ∧ ∃ lines, mapM (ticket_line domain) l = Ok lines)
          ∨ (Exists (λ t, has_line t = false) l
             ∧ mapM (ticket_line domain) l = Raise KeyError)) as Hm.
  { induction Hl as [|t l [d ->] _ IH]; [left; split; [done|by eexists]|].
    cbn [mapM]. destruct (has_line (PDict d)) eqn:Hd.
    - destruct (ticket_line_has_line domain _ Hd) as [line ->]. rewrite bind_Ok.
      destruct IH as [[Hall [lines ->]]|[Hex ->]].
      + left. split; [by apply Forall_cons|by eexists].
      + right. split; [by apply Exists_cons_tl|done].
    - rewrite (ticket_line_no_line domain _ Hd). right.
      split; [by apply Exists_cons_hd|done]. }
  unfold section_block. destruct l as [|t l]; [left; split; [done|by eexists]|].
  destruct Hm as [[Hall [lines ->]]|[Hex ->]]; [left|by right].
  split; [done|by eexists].
Qed.

(** X19.  With highlights that are a text and tickets that are objects
    whose issue type is a string, the assembler returns a document when
    every ticket has a key and a summary, and raises [KeyError] when some
    ticket lacks one of the two; it does nothing else. *)
Theorem final_markdown_needs_key_and_summary
    (mongo_intro highlights upstream_section : string) (tickets : list pyval)
    (version codename domain : pyval) (today : string) :
  Forall (λ t, is_Some (type_name t)) tickets →
  (Forall (λ t, has_line t = true) tickets →
   ∃ markdown,
     generate_final_markdown mongo_intro (PStr highlights) upstream_section tickets
       version codename domain today = Ok markdown)
  ∧ (Exists (λ t, has_line t = false) tickets →
     generate_final_markdown mongo_intro (PStr highlights) upstream_section tickets
       version codename domain today = Raise KeyError).
Proof.
  intros Hty. unfold generate_final_markdown. rewrite final_md_lines_blocks.
  rewrite nonblank_str, bind_Ok.
  destruct (categorize_typed tickets Hty) as (cats & -> & Hcats).
  rewrite bind_Ok.
  rewrite !Hcats by (unfold buckets; set_solver). cbn [default from_option id].
  assert (Hdict : ∀ b, Forall (λ t, ∃ d, t = PDict d)
                         (filter (λ t, spec_bucket <$> type_name t = Some b) tickets)).
  { intros b. apply Forall_forall. intros t [_ Ht]%list_elem_of_filter.
    rewrite Forall_forall in Hty. destruct (Hty t Ht) as [s Hs].
    unfold type_name, issue_type_of in Hs. destruct t; try done. by eexists. }
  assert (Hsub : ∀ b, Forall (λ t, has_line t = true) tickets →
            Forall (λ t, has_line t = true)
              (filter (λ t, spec_bucket <$> type_name t = Some b) tickets)).
  { intros b Hall. apply Forall_forall. intros t [_ Ht]%list_elem_of_filter.
    rewrite Forall_forall in Hall. by apply Hall. }
  assert (Hbad : ∀ b title, Forall (λ t, has_line t = true) tickets →
            ∃ lines, section_block domain title
                       (filter (λ t, spec_bucket <$> type_name t = Some b) tickets)
                     = Ok lines).
  { intros b title Hall.
    destruct (section_block_dicts domain title _ (Hdict b)) as [[_ H]|[Hex _]]; [done|].
    exfalso. apply Exists_exists in Hex as (t & Ht & Hno).
    pose proof (Hsub b Hall) as Hb. rewrite Forall_forall in Hb.
    specialize (Hb t Ht). congruence. }
  split.
  - intros Hall.
    destruct (Hbad "features" "## ✨ New Features & Enhancements" Hall) as [f ->].
    destruct (Hbad "fixes" "## 🐛 Bug Fixes" Hall) as [x ->].
    destruct (Hbad "maintenance" "## 🔧 Technical & Maintenance" Hall) as [m ->].
    rewrite !bind_Ok. by eexists.
  - intros Hex. apply Exists_exists in Hex as (t & Ht & Hno).
    rewrite Forall_forall in Hty. destruct (Hty t Ht) as [s Hs].
    assert (∀ b, spec_bucket s = b →
              Exists (λ t, has_line t = false)
                (filter (λ t, spec_bucket <$> type_name t = Some b) tickets)) as Hin.
    { intros b <-. apply Exists_exists. exists t. split; [|done].
      apply list_elem_of_filter. by rewrite Hs. }
    assert (∀ b title,
              Exists (λ t, has_line t = false)
                (filter (λ t, spec_bucket <$> type_name t = Some b) tickets) →
              section_block domain title
                (filter (λ t, spec_bucket <$> type_name t = Some b) tickets)
              = Raise KeyError) as Hraise.
    { intros b title Hex.
      destruct (section_block_dicts domain title _ (Hdict b)) as [[Hall _]|[_ H]]; [|done].
      exfalso. apply Exists_exists in Hex as (t' & Ht' & Hno').
      rewrite Forall_forall in Hall. specialize (Hall t' Ht'). congruence. }
    pose proof (spec_bucket_in s) as Hb. unfold buckets in Hb.
    rewrite !elem_of_cons, elem_of_nil in Hb.
    destruct (section_block_dicts domain "## ✨ New Features & Enhancements" _
                (Hdict "features")) as [[_ [f Ef]]|[_ ->]]; [|done].
    rewrite Ef, bind_Ok.
    destruct (section_block_dicts domain "## 🐛 Bug Fixes" _
                (Hdict "fixes")) as [[Hx [x Ex]]|[_ ->]]; [|done].
    rewrite Ex, bind_Ok.
    destruct (section_block_dicts domain "## 🔧 Technical & Maintenance" _
                (Hdict "maintenance")) as [[Hm [m Em]]|[_ ->]]; [|done].
    exfalso.
    destruct Hb as [Hb|[Hb|[Hb|[]]]].
    + pose proof (Hraise _ "## ✨ New Features & Enhancements" (Hin _ Hb)). congruence.
    + pose proof (Hraise _ "## 🐛 Bug Fixes" (Hin _ Hb)). congruence.
    + pose proof (Hraise _ "## 🔧 Technical & Maintenance" (Hin _ Hb)). congruence.
Qed.

End Rendering.

(** ** The highlights header in the assembled lines *)

Section Header.
Context `{W : World}.

Lemma final_md_lines_header (mongo_intro : string) (highlights : option string)
    (release_highlights : pyval) (upstream_section : string) (tickets : list pyval)
    (version codename domain : pyval) (today : string) (lines : list string) :
  nonblank release_highlights = Ok highlights →
  final_md_lines mongo_intro release_highlights upstream_section tickets
    version codename domain today = Ok lines →
  header ∈ lines
  ↔ mongo_intro = header ∨ upstream_section = header ∨ is_Some highlights.
Proof.
  intros Hh. rewrite final_md_lines_blocks, Hh, bind_Ok.
  destruct (categorize tickets) as [categories|e]; [|done].
  rewrite !bind_Ok.
  destruct (section_block domain _ (default [] (categories !! "features")))
    as [features|e] eqn:Hf; [|done].
  rewrite !bind_Ok.
  destruct (section_block domain _ (default [] (categories !! "fixes")))
    as [fixes|e] eqn:Hx; [|done].
  rewrite !bind_Ok.
  destruct (section_block domain _ (default [] (categories !! "maintenance")))
    as [maintenance|e] eqn:Hm; [|done].
  rewrite !bind_Ok. intros [= <-].
  rewrite !elem_of_app. split.
  - intros [Hin|[Hin|[Hin|Hin]]].
    + left. unfold intro_block in Hin. destruct (String.eqb mongo_intro "").
      * by apply elem_of_nil in Hin.
      * rewrite !elem_of_cons, elem_of_nil in Hin.
        destruct Hin as [H|[H|[]]]; [done|discriminate].
    + right; right. destruct highlights; [by eexists|].
      by apply elem_of_nil in Hin.
    + right; left. unfold upstream_block in Hin.
      destruct (String.eqb upstream_section "").
      * by apply elem_of_nil in Hin.
      * rewrite !elem_of_cons, elem_of_nil in Hin.
        destruct Hin as [H|[H|[]]]; [done|discriminate].
    + exfalso. rewrite !elem_of_cons, !elem_of_app in Hin.
      destruct Hin as [H|[H|[H|[Hin|[Hin|Hin]]]]]; try discriminate.
      * destruct (truthy version), (truthy codename); discriminate.
      * eapply section_block_not_header; [|exact Hf|exact Hin]; discriminate.
      * eapply section_block_not_header; [|exact Hx|exact Hin]; discriminate.
      * eapply section_block_not_header; [|exact Hm|exact Hin]; discriminate.
  - intros [->|[->|[h ->]]].
    + left. by left.
    + right; right; left. by left.
    + right; left. by left.
Qed.

Lemma generate_mongo_intro_not_header (raw : string) (version : pyval)
    (date mongo_intro : string) :
  generate_mongo_intro (PStr raw) version date = Ok mongo_intro →
  mongo_intro ≠ header.
Proof.
  rewrite generate_mongo_intro_str.
  destruct (omap search_version (remove_dups (pieces raw))) as [|v vs].
  - by intros [= <-].
  - destruct (display_version_of version) as [dv|e]; [|done]. rewrite bind_Ok.
    intros H Heq. subst mongo_intro.
    apply (intro_paragraph_not_header dv date
             (sorted (omap (λ u, mongo_link u <$> search_version u)
                        (remove_dups (pieces raw)))) (v :: vs)).
    congruence.
Qed.

Lemma process_upstream_bugs_not_header
    (raw : string) (release_urls_raw gemini_token : pyval) (log : list call)
    (section : string) :
  (process_upstream_bugs (PStr raw) release_urls_raw gemini_token log).1 = Ok section →
  section ≠ header.
Proof.
  intros H. apply process_upstream_bugs_shape in H
    as [->|(bullet & bullets & rest & -> & _)]; [done|].
  cbn [app String.concat]. unfold header. by str_simpl.
Qed.


End Header.

(** ** The route of the releases collection (lines 56-69) *)

Section ReleasesProps.
Context `{W : World} `{C : Collection}.

Lemma stringify_id_stored (oid : N) (fields : gmap string pyval) :
  stringify_id (<["_id" := PObjectId oid]> fields)
  = <["_id" := PStr (py_str (PObjectId oid))]> fields.
Proof. unfold stringify_id. by rewrite lookup_insert_eq, insert_insert_eq. Qed.

Lemma stringify_id_created_at (release : gmap string pyval) :
  stringify_id release !! "created_at" = release !! "created_at".
Proof. unfold stringify_id. by rewrite lookup_insert_ne. Qed.

Lemma find_releases_insert (d : db) (oid : N) (doc : gmap string pyval) :
  db_releases d !! oid = None →
  find_releases {| db_settings := db_settings d;
                   db_releases := <[oid := doc]> (db_releases d) |}
  ≡ₚ <["_id" := PObjectId oid]> doc :: find_releases d.
Proof.
  intros Hnone. unfold find_releases. cbn [db_releases].
  by rewrite (map_to_list_insert _ _ _ Hnone).
Qed.

Lemma stringified_sorted (docs : list (gmap string pyval)) :
  StronglySorted not_older docs → StronglySorted not_older (stringify_id <$> docs).
Proof.
  induction 1 as [|a l _ IH Hall]; [constructor|].
  rewrite fmap_cons. constructor; [exact IH|].
  apply Forall_fmap. eapply Forall_impl; [exact Hall|].
  intros b Hab. unfold not_older in *. cbn [compose].
  by rewrite !stringify_id_created_at.
Qed.

Lemma releases_post_plain (now : Z) (data : gmap string pyval) (d : db) :
  plain (<["created_at" := PDate now]> data) = true →
  ∃ oid,
    db_releases d !! oid = None
    ∧ releases POST now data d
      = Ok (Created {| status := 201;
                       body := {["message" := PStr "Release created.";
                                 "id" := PStr (py_str (PObjectId oid))]} |},
            {| db_settings := db_settings d;
               db_releases :=
                 <[oid := <["created_at" := PDate now]> data]> (db_releases d) |}).
Proof.
  intros Hp. destruct (insert_one_plain _ (db_releases d) Hp) as (oid & Hnone & Hins).
  exists oid. split; [done|]. unfold releases. by rewrite Hins.
Qed.


(** X22.  A GET of the collection answers 200 and leaves the store as it
    is; the array holds every stored release exactly once, with its
    identifier as a string, and of two releases that both carry a date
    the later one comes first. *)
Theorem releases_listed_newest_first (now : Z) (data : gmap string pyval) (d : db) :
  ∃ all_releases,
    releases GET now data d = Ok (Listed 200 all_releases, d)
    ∧ all_releases
      ≡ₚ (λ kv, <["_id" := PStr (py_str (PObjectId kv.1))]> kv.2)
         <$> map_to_list (db_releases d)
    ∧ StronglySorted not_older all_releases.
Proof.
  eexists. split; [reflexivity|]. split.
  - rewrite sort_desc_Permutation. unfold find_releases.
    rewrite <- list_fmap_compose.
    rewrite (list_fmap_ext _ (λ kv, <["_id" := PStr (py_str (PObjectId kv.1))]> kv.2));
      [done|].
    intros i [oid fields] _. cbn [compose fst snd]. apply stringify_id_stored.
  - apply stringified_sorted, sort_desc_sorted.
Qed.

(** X23.  After a POST of plain fields the array of a GET is the array
    from before the POST with the new release added: nothing else
    appears and nothing is lost. *)
Theorem release_created_then_listed (now now' : Z) (data data' : gmap string pyval)
    (d : db) :
  plain (<["created_at" := PDate now]> data) = true →
  ∃ oid reply d' before after,
    releases POST now data d = Ok (reply, d')
    ∧ releases GET now' data' d = Ok (Listed 200 before, d)
    ∧ releases GET now' data' d' = Ok (Listed 200 after, d')
    ∧ after
      ≡ₚ <["_id" := PStr (py_str (PObjectId oid))]> (<["created_at" := PDate now]> data)
         :: before.
Proof.
  intros Hp. destruct (releases_post_plain now data d Hp) as (oid & Hnone & Hpost).
  eexists oid, _, _, _, _. split; [exact Hpost|].
  split; [reflexivity|]. split; [reflexivity|].
  rewrite !sort_desc_Permutation, (find_releases_insert _ _ _ Hnone), fmap_cons.
  by rewrite stringify_id_stored.
Qed.

End ReleasesProps.

(** ** Sample runs of the further properties *)

Lemma tracker_asked_once_per_typed_key_witness :
  ∃ n,
    jira_urls (generate_release_notes (W := Sample.world) Sample.release_id
                 (Sample.store SampleStore.lower_case_release) []).2
    = jira_urls []
      ++ take n ["https://jira.example.org/rest/api/3/issue/ABC-1";
                 "https://jira.example.org/rest/api/3/issue/PERF-3"]
    ∧ ∀ r, (generate_release_notes (W := Sample.world) Sample.release_id
              (Sample.store SampleStore.lower_case_release) []).1 = Ok r →
           n = 2%nat.
Proof.
  exact (tracker_asked_once_per_typed_key (W := Sample.world)
           Sample.release_id Sample.oid SampleStore.lower_case_release
           (Sample.store SampleStore.lower_case_release)
           ("perf-3" +:+ SampleStore.nbsp +:+ "abc-1")
           eq_refl eq_refl eq_refl eq_refl []).
Defined.

Lemma ticket_keys_distinct_sorted_witness :
  ticket_keys_of (W := Sample.world)
    (PStr ("b" +:+ SampleStore.nbsp +:+ "a," +:+ SampleStore.wide_space +:+ "b"))
  = Ok ["a"; "b"]
  ∧ Sorted String.le ["a"; "b"]
  ∧ NoDup ["a"; "b"]
  ∧ ticket_keys_of (W := Sample.world) PNone = Raise TypeError.
Proof.
  destruct (ticket_keys_distinct_sorted (W := Sample.world)
              ("b" +:+ SampleStore.nbsp +:+ "a," +:+ SampleStore.wide_space +:+ "b"))
    as (keys & Hkeys & Hsorted & Hnodup & _ & _ & Hraise).
  assert (keys = ["a"; "b"]) as -> by (vm_compute in Hkeys; congruence).
  split; [exact Hkeys|]. split; [exact Hsorted|]. split; [exact Hnodup|].
  apply Hraise. discriminate.
Defined.

Lemma summarizer_asks_at_most_once_witness :
  (get_summary_from_ai (W := Sample.world) (PStr "Fix crash")
     (SampleStore.nbsp +:+ SampleStore.wide_space) (PStr "k") false []).2 = []
  ∧ ∃ prompt,
      (get_summary_from_ai (W := Sample.world) (PStr "Fix crash") "Server crashes."
         (PStr "k") false []).2
      = [GeminiPost
           "https://generativelanguage.googleapis.com/v1beta/models/gemini-2.5-flash-preview-05-20:generateContent?key=k"
           prompt].
Proof.
  split.
  - destruct (summarizer_asks_at_most_once (W := Sample.world) (PStr "Fix crash")
                (SampleStore.nbsp +:+ SampleStore.wide_space) (PStr "k") false [])
      as (calls & Hlog & Hblank & _).
    rewrite Hlog, (Hblank eq_refl). reflexivity.
  - destruct (summarizer_asks_at_most_once (W := Sample.world) (PStr "Fix crash")
                "Server crashes." (PStr "k") false [])
      as (calls & Hlog & _ & Hone).
    destruct (Hone eq_refl) as [prompt ->]. exists prompt. exact Hlog.
Defined.

Lemma mongo_intro_of_versioned_urls_witness :
  generate_mongo_intro (W := Sample.world)
    (PStr ("https://x.org/６.０.５/notes" +:+ SampleStore.nbsp +:+ "https://x.org/latest"))
    (PStr "v6.0.5-4") "Nov 03, 2026"
  = Ok (intro_paragraph "6.0.5-4" "Nov 03, 2026"
          ["[MongoDB ６.０.５ Community Edition](https://x.org/６.０.５/notes)"]
          ["６.０.５"])
  ∧ generate_mongo_intro (W := Sample.world)
      (PStr ("https://x.org/notes" +:+ SampleStore.nbsp +:+ "https://x.org/latest"))
      PNone "Nov 03, 2026"
    = Ok "".
Proof.
  split.
  - rewrite (proj1 (mongo_intro_of_versioned_urls (W := Sample.world)
                      ("https://x.org/６.０.５/notes" +:+ SampleStore.nbsp
                       +:+ "https://x.org/latest")
                      (PStr "v6.0.5-4") "Nov 03, 2026")).
    vm_compute; reflexivity.
  - apply (proj2 (mongo_intro_of_versioned_urls (W := Sample.world)
                    ("https://x.org/notes" +:+ SampleStore.nbsp +:+ "https://x.org/latest")
                    PNone "Nov 03, 2026")).
    intros url Hurl.
    assert (url ∈ ["https://x.org/notes"; "https://x.org/latest"]) as Hin
      by exact Hurl.
    rewrite !elem_of_cons, elem_of_nil in Hin.
    destruct Hin as [->|[->|[]]]; reflexivity.
Defined.

Lemma ticket_keys_round_trip_witness :
  ticket_keys_of (W := Sample.world) (PStr (String.concat ", " ["a"; "b"]))
  = Ok ["a"; "b"].
Proof.
  exact (ticket_keys_round_trip (W := Sample.world) "b, a,,b" ["a"; "b"] eq_refl).
Defined.

Lemma settings_post_idempotent_witness :
  ∃ r d1,
    settings (W := Sample.world) POST {["jiraEmail" := PStr "new@example.org"]}
      (Sample.store ∅) = Ok (r, d1)
    ∧ settings (W := Sample.world) POST {["jiraEmail" := PStr "new@example.org"]} d1
      = Ok (r, d1)
    ∧ db_releases d1 = db_releases (Sample.store ∅).
Proof.
  exact (settings_post_idempotent (W := Sample.world)
           {["jiraEmail" := PStr "new@example.org"]} (Sample.store ∅) eq_refl).
Defined.

Lemma settings_last_write_wins_witness :
  ∃ r1 d1 r2 d2,
    settings (W := Sample.world) POST {["jiraEmail" := PStr "new@example.org"]}
      (Sample.store ∅) = Ok (r1, d1)
    ∧ settings (W := Sample.world) POST {["jiraToken" := PStr "fresh"]} d1
      = Ok (r2, d2)
    ∧ settings (W := Sample.world) GET ∅ d2
      = Ok ({| status := 200;
               body := <["_id" := PStr "global_settings"]>
                         ({["jiraToken" := PStr "fresh"]}
                          ∪ ({["jiraEmail" := PStr "new@example.org"]}
                             ∪ default ∅ (db_settings (Sample.store ∅)))) |}, d2)
    ∧ ∀ k v, ({["jiraToken" := PStr "fresh"]} : gmap string pyval) !! k = None →
             ({["jiraEmail" := PStr "new@example.org"]} : gmap string pyval) !! k
             = Some v →
             setting d2 k = v.
Proof.
  exact (settings_last_write_wins (W := Sample.world)
           {["jiraEmail" := PStr "new@example.org"]} {["jiraToken" := PStr "fresh"]}
           (Sample.store ∅) eq_refl eq_refl).
Defined.

Lemma posted_settings_reach_generate_witness :
  (∀ k, k ≠ "_id" →
     setting (Sample.store ∅) k
     = default (setting (Sample.store_without_settings ∅) k)
         (Sample.jira_settings !! k))
  ∧ ((∀ k, k ∈ ["jiraUrl"; "jiraEmail"; "jiraToken"] →
        ∃ v, Sample.jira_settings !! k = Some v ∧ truthy v = true) →
     settings_complete (Sample.store ∅) = true).
Proof.
  apply (posted_settings_reach_generate (W := Sample.world) Sample.jira_settings
           (Sample.store_without_settings ∅)
           {| status := 200; body := message "Settings saved successfully." |}
           (Sample.store ∅)); vm_compute; reflexivity.
Defined.

Lemma release_put_then_get_witness :
  ∃ r d',
    release_detail (W := Sample.world) Sample.release_id PUT
      {["codename" := PStr "Aurora"]} (Sample.store Sample.mixed_case_release)
    = Ok (r, d')
    ∧ status r = 200
    ∧ release_detail (W := Sample.world) Sample.release_id GET ∅ d'
      = Ok ({| status := 200;
               body := <["_id" := PStr (py_str (World := Sample.world)
                                          (PObjectId Sample.oid))]>
                         ({["codename" := PStr "Aurora"]}
                          ∪ Sample.mixed_case_release) |}, d')
    ∧ db_settings d' = db_settings (Sample.store Sample.mixed_case_release)
    ∧ ∀ o, o ≠ Sample.oid →
           db_releases d' !! o
           = db_releases (Sample.store Sample.mixed_case_release) !! o.
Proof.
  exact (release_put_then_get (W := Sample.world) Sample.release_id Sample.oid
           Sample.mixed_case_release {["codename" := PStr "Aurora"]}
           (Sample.store Sample.mixed_case_release) eq_refl eq_refl eq_refl).
Defined.

Lemma release_delete_then_gone_witness :
  ∃ d',
    release_detail (W := Sample.world) Sample.release_id DELETE ∅
      (Sample.store Sample.mixed_case_release)
    = Ok ({| status := 200; body := message "Release deleted successfully." |}, d')
    ∧ release_detail (W := Sample.world) Sample.release_id GET ∅ d'
      = Ok ({| status := 404; body := error "Release not found" |}, d')
    ∧ generate_release_notes (W := Sample.world) Sample.release_id d' []
      = (Ok ({| status := 404; body := error "Release not found" |}, d'), [])
    ∧ release_detail (W := Sample.world) Sample.release_id DELETE ∅ d'
      = Ok ({| status := 200; body := message "Release deleted successfully." |}, d')
    ∧ db_settings d' = db_settings (Sample.store Sample.mixed_case_release)
    ∧ ∀ o, o ≠ Sample.oid →
           find_release d' o = find_release (Sample.store Sample.mixed_case_release) o.
Proof.
  exact (release_delete_then_gone (W := Sample.world) Sample.release_id Sample.oid ∅
           (Sample.store Sample.mixed_case_release) [] eq_refl).
Defined.

Lemma malformed_id_raises_witness :
  release_detail (W := Sample.world) "not-an-id" DELETE ∅ (Sample.store ∅)
  = Raise InvalidId
  ∧ generate_release_notes (W := Sample.world) "not-an-id" (Sample.store ∅) []
    = (Raise InvalidId, []).
Proof.
  exact (malformed_id_raises (W := Sample.world) "not-an-id" DELETE ∅
           (Sample.store ∅) [] eq_refl).
Defined.

Lemma generated_markdown_read_back_witness :
  ∃ oid fields markdown,
    ObjectId (World := Sample.world) Sample.release_id = Some oid
    ∧ db_releases (Sample.store Sample.mixed_case_release) !! oid = Some fields
    ∧ body SampleStore.generated_reply !! "markdown" = Some (PStr markdown)
    ∧ release_detail (W := Sample.world) Sample.release_id GET ∅
        SampleStore.generated_store
      = Ok ({| status := 200;
               body := <["_id" := PStr (py_str (World := Sample.world) (PObjectId oid))]>
                         (<["generatedMarkdown" := PStr markdown]> fields) |},
            SampleStore.generated_store).
Proof.
  apply (generated_markdown_read_back (W := Sample.world) Sample.release_id
           (Sample.store Sample.mixed_case_release) []
           SampleStore.generated_reply SampleStore.generated_store);
    vm_compute; reflexivity.
Defined.

Lemma summarizer_returns_trimmed_text_witness :
  ∃ api_url prompt,
    get_summary_from_ai (W := SampleStore.world_api_padded) (PStr "Fix crash")
      "Server crashes." PNone false []
    = (Ok (PStr (strip (SampleStore.nbsp +:+ "Fixed a crash." +:+ SampleStore.nbsp))),
       [] ++ [GeminiPost api_url prompt])
    ∧ (all_chars isspace (SampleStore.nbsp +:+ "Fixed a crash." +:+ SampleStore.nbsp)
       = true →
       strip (SampleStore.nbsp +:+ "Fixed a crash." +:+ SampleStore.nbsp) = "").
Proof.
  apply (summarizer_returns_trimmed_text (W := SampleStore.world_api_padded)
           (PStr "Fix crash")
           (SampleStore.nbsp +:+ "Fixed a crash." +:+ SampleStore.nbsp)
           "Server crashes." PNone false SampleStore.padded_reply []);
    [reflexivity|reflexivity|intros; reflexivity|reflexivity|discriminate].
Defined.

Lemma summarizer_reply_errors_propagate_witness :
  (∃ api_url prompt,
     get_summary_from_ai (W := SampleStore.world_api_empty) (PStr "Fix crash")
       "Server crashes." PNone false []
     = (Raise IndexError, [] ++ [GeminiPost api_url prompt]))
  ∧ ∀ d, dget "candidates" d = Some (PList []) →
         first_candidate_text (PDict d) = Raise IndexError.
Proof.
  apply (summarizer_reply_errors_propagate (W := SampleStore.world_api_empty)
           (PStr "Fix crash") "Server crashes." PNone false
           (PDict [("candidates", PList [])]) IndexError []);
    [reflexivity|intros; reflexivity|reflexivity].
Defined.

Lemma upstream_nothing_scraped_witness :
  process_upstream_bugs (W := Sample.world) (PStr SampleStore.two_bug_urls)
    PNone PNone []
  = (Ok "",
     [] ++ (PageGet <$> set_list (World := Sample.world)
              (pieces SampleStore.two_bug_urls)))
  ∧ (all_chars isspace SampleStore.two_bug_urls = true →
     set_list (World := Sample.world) (pieces SampleStore.two_bug_urls) = []).
Proof.
  apply (upstream_nothing_scraped (W := Sample.world) SampleStore.two_bug_urls
           PNone PNone []).
  intros; discriminate.
Defined.


Lemma fetched_tickets_carry_summary_witness :
  (length [SampleStore.summarized_ticket] ≤ length ["abc-1"; "abc-2"])%nat
  ∧ Forall (λ t, ∃ d summary l key,
              key ∈ ["abc-1"; "abc-2"]
              ∧ jira (World := Sample.world) l
                  (jira_url (W := Sample.world) (PStr "jira.example.org")
                     (upper (W := Sample.world) key))
                  (PStr "dev@example.org") (PStr "secret") = Some (PDict d)
              ∧ d ≠ []
              ∧ t = PDict (dset "releaseNoteSummary" summary d)
              ∧ py_item t "releaseNoteSummary" = Ok summary
              ∧ py_item t "key" = py_item (PDict d) "key")
      [SampleStore.summarized_ticket].
Proof.
  apply (fetched_tickets_carry_summary (W := Sample.world)
           (PStr "jira.example.org") (PStr "dev@example.org") (PStr "secret") PNone
           ["abc-1"; "abc-2"] [] [SampleStore.summarized_ticket]
           (fetch_tickets (W := Sample.world)
              (PStr "jira.example.org") (PStr "dev@example.org") (PStr "secret") PNone
              ["abc-1"; "abc-2"] []).2).
  vm_compute; reflexivity.
Defined.

Lemma buckets_split_the_tickets_witness :
  ∃ cats,
    categorize Sample.tickets = Ok cats
    ∧ default [] (cats !! "features") ++ default [] (cats !! "fixes")
      ++ default [] (cats !! "maintenance") ≡ₚ Sample.tickets.
Proof.
  apply (buckets_split_the_tickets Sample.tickets).
  repeat (constructor; [by eexists|]). constructor.
Defined.

Lemma final_markdown_needs_key_and_summary_witness :
  (Forall (λ t, has_line t = true) [SampleStore.summarized_ticket] →
   ∃ markdown,
     generate_final_markdown (W := Sample.world) "" (PStr "") ""
       [SampleStore.summarized_ticket] PNone PNone (PStr "jira.example.org")
       "2026-11-03" = Ok markdown)
  ∧ (Exists (λ t, has_line t = false) [SampleStore.summarized_ticket] →
     generate_final_markdown (W := Sample.world) "" (PStr "") ""
       [SampleStore.summarized_ticket] PNone PNone (PStr "jira.example.org")
       "2026-11-03" = Raise KeyError).
Proof.
  apply (final_markdown_needs_key_and_summary (W := Sample.world) "" "" ""
           [SampleStore.summarized_ticket] PNone PNone (PStr "jira.example.org")
           "2026-11-03").
  repeat (constructor; [by eexists|]). constructor.
Defined.



Lemma release_created_then_listed_witness :
  ∃ oid reply d' before after,
    releases (W := Sample.world) (C := SampleStore.store) POST 1700172800
      {["version" := PStr "1.2.4"]} SampleStore.two_releases = Ok (reply, d')
    ∧ releases (W := Sample.world) (C := SampleStore.store) GET 1700172900 ∅
        SampleStore.two_releases = Ok (Listed 200 before, SampleStore.two_releases)
    ∧ releases (W := Sample.world) (C := SampleStore.store) GET 1700172900 ∅ d'
      = Ok (Listed 200 after, d')
    ∧ after
      ≡ₚ <["_id" := PStr (py_str (World := Sample.world) (PObjectId oid))]>
           (<["created_at" := PDate 1700172800]> {["version" := PStr "1.2.4"]})
         :: before.
Proof.
  exact (release_created_then_listed (W := Sample.world) (C := SampleStore.store)
           1700172800 1700172900 {["version" := PStr "1.2.4"]} ∅
           SampleStore.two_releases eq_refl).
Defined.
